(** * securitiesProject: quotes store, exchange client and analytics

    A shallow embedding of the Go packages [securities], [securities/moex],
    [securities/securitiesSQL], and of the two analytic loops and the
    handlers that add and delete a security of [main], with the properties
    of the specification proved (or refuted) about them.

    Conventions of the embedding:
    - [float64] is Rocq's primitive binary64 [float]; Go's arithmetic and
      comparisons are the IEEE 754 ones of [PrimFloat];
    - a [time.Time] is the number of whole seconds since the zero Time
      (January 1, year 1, 00:00:00 UTC); every layout the program parses or
      formats has a resolution of one second, and every Time it builds is UTC;
    - a Go function returning [(T, error)] returns a pair [T * option error],
      [nil] being [None];
    - the MySQL database is a pair of finite maps keyed by the primary keys
      that [CreateDatabase] declares; a statement fails only on a violated
      key constraint (the connection itself is assumed healthy), string
      comparison in a WHERE clause is equality of the strings (the section
      on the two versions of [SecurityExists] takes any collation), and a
      column gives back the value that was written to it, with no column
      read by the program holding NULL.  The widths of the [VARCHAR]
      columns, the rounding of [DECIMAL(14,6)] and the range of [DATETIME]
      are not part of the tables: a theorem that says which values a
      table holds or gives back assumes values that the columns take as
      they are ([fitsColumn], [heldByQuotes]);
    - [strings.ToUpper] and [strings.ToLower] change the letters a-z and
      A-Z, as they do on ASCII strings: a theorem that would not hold of
      other strings assumes them ASCII ([isASCII]);
    - a statement whose text the earlier version builds with [fmt.Sprintf]
      is run as the statement with these values for parameters, which it is
      for values that stand for themselves in the text ([plainLiteral]): a
      theorem about what such a statement does assumes them;
    - the answers of the exchange are well formed: the fields the program
      asserts to be strings or numbers are, and the dates parse, so that the
      runs that stop the process ([log.Fatal], a failed type assertion) are
      outside the model;
    - goroutines that append to a shared slice under a mutex append in an
      order chosen by the scheduler: the functions take that choice as the
      parameter [arrival], and the theorems hold for every permutation.  The
      goroutines of a page of [GetQuotesForDate] take no mutex: each appends
      to the quotes of the security that its row names, and the appends of
      two rows of one page that name the same security are taken one after
      the other, in that order as well; the theorem that says which quotes
      a security then holds assumes pages that name no security twice
      ([namesOnce]). *)

From Stdlib Require Import ZArith Lia Floats Ascii String Sorted Permutation.
From stdpp Require Import base option list sorting gmap strings fin_maps.

Local Open Scope string_scope.
Local Open Scope Z_scope.
Local Open Scope list_scope.

(** ** Package time (the part the program uses) *)

Module time.

(** Seconds since January 1, year 1, 00:00:00 UTC. *)
Definition Time : Type := Z.

(** The zero value of [time.Time]. *)
Definition zero : Time := 0.

(** [t.After(u)] *)
Definition After (t u : Time) : bool := u <? t.

Definition secondsPerDay : Z := 86400.

(** [t.Truncate(24 * time.Hour)]: rounding down to a multiple of a day since
    the zero Time. *)
Definition Truncate24h (t : Time) : Time := secondsPerDay * (t / secondsPerDay).

(** [t.AddDate(0, 0, days)] on a UTC time. *)
Definition AddDate (t : Time) (days : Z) : Time := t + secondsPerDay * days.

(** [t.Add(d)] for a duration of whole seconds. *)
Definition Add (t : Time) (seconds : Z) : Time := t + seconds.

(** The value [t.Format("2006-01-02")] denotes: the calendar day of [t],
    counted from the zero Time. *)
Definition day (t : Time) : Z := t / secondsPerDay.

(** Days between the civil date [y]-[m]-[d] of the proleptic Gregorian
    calendar and January 1, year 1. *)
Definition daysFromCivil (y m d : Z) : Z :=
  let y' := if m <=? 2 then y - 1 else y in
  let era := y' / 400 in
  let yoe := y' - era * 400 in
  let mp := if m <=? 2 then m + 9 else m - 3 in
  let doy := (153 * mp + 2) / 5 + d - 1 in
  let doe := yoe * 365 + yoe / 4 - yoe / 100 + doy in
  era * 146097 + doe - 306.

(** [time.Date(y, m, d, hh, mm, ss, 0, time.UTC)] *)
Definition Date (y m d hh mm ss : Z) : Time :=
  daysFromCivil y m d * secondsPerDay + hh * 3600 + mm * 60 + ss.

End time.

(** ** Package securities *)

(** [type SecurityType string] with its constants. *)
Definition SecurityType : Type := string.

Definition UnknownType : SecurityType := "unknown".
Definition Share : SecurityType := "share".
Definition ETF : SecurityType := "etf".
Definition Bond : SecurityType := "bond".
Definition Currency : SecurityType := "currency".

(** [type SecurityCurrency string] with its constants. *)
Definition SecurityCurrency : Type := string.

Definition UnknownCurrency : SecurityCurrency := "unknown".
Definition RUB : SecurityCurrency := "RUB".
Definition USD : SecurityCurrency := "USD".
Definition EUR : SecurityCurrency := "EUR".
Definition CNY : SecurityCurrency := "CNY".

(** [type QuotesInterval int] with its constants. *)
Definition QuotesInterval : Type := Z.

Definition IntervalUnknown : QuotesInterval := 0.
Definition IntervalQuarter : QuotesInterval := 4.
Definition IntervalMonth : QuotesInterval := 31.
Definition IntervalWeek : QuotesInterval := 7.
Definition IntervalDay : QuotesInterval := 24.
Definition IntervalHour : QuotesInterval := 60.
Definition IntervalTenMin : QuotesInterval := 10.
Definition IntervalMinute : QuotesInterval := 1.

(** [type SecurityQuotes struct]; the fields are the source's, prefixed
    with [q]. *)
Record SecurityQuotes : Type := mkQuotes {
  qInterval : QuotesInterval;
  qBegin : time.Time;
  qEnd : time.Time;
  qOpen : float;
  qClose : float;
  qHigh : float;
  qLow : float
}.

(** The zero value [var quotes SecurityQuotes]. *)
Definition zeroQuotes : SecurityQuotes :=
  mkQuotes 0 time.zero time.zero 0%float 0%float 0%float 0%float.

(** [type Security struct]. The projections are the getters [Id], [Name],
    [SType], [Currency] (here [SecCurrency], the name [Currency] being the
    type constant) and [Quotes]; [quotes] is the slice the pointer field
    points to. *)
Record Security : Type := mkSecurity {
  Id : string;
  Name : string;
  SType : SecurityType;
  SecCurrency : SecurityCurrency;
  Quotes : list SecurityQuotes
}.

(** [strings.ToUpper] and [strings.ToLower] on the ASCII letters; other
    bytes are kept. *)
Definition upperAscii (c : ascii) : ascii :=
  let n := nat_of_ascii c in
  if ((97 <=? n) && (n <=? 122))%nat then ascii_of_nat (n - 32) else c.

Definition lowerAscii (c : ascii) : ascii :=
  let n := nat_of_ascii c in
  if ((65 <=? n) && (n <=? 90))%nat then ascii_of_nat (n + 32) else c.

Fixpoint ToUpper (s : string) : string :=
  match s with
  | EmptyString => EmptyString
  | String c s' => String (upperAscii c) (ToUpper s')
  end.

Fixpoint ToLower (s : string) : string :=
  match s with
  | EmptyString => EmptyString
  | String c s' => String (lowerAscii c) (ToLower s')
  end.

(** [GetSecurity] creates a new security with no quotes. *)
Definition GetSecurity (id name : string) (sType : SecurityType)
    (currency : SecurityCurrency) : Security :=
  mkSecurity (ToUpper id) name sType currency [].

(** [GetQuickSecurity] creates a new security with only id and type. *)
Definition GetQuickSecurity (id : string) (sType : SecurityType) : Security :=
  GetSecurity id "" sType UnknownCurrency.

Definition SetName (s : Security) (name : string) : Security :=
  mkSecurity (Id s) name (SType s) (SecCurrency s) (Quotes s).

Definition SetCurrency (s : Security) (currency : SecurityCurrency) : Security :=
  mkSecurity (Id s) (Name s) (SType s) currency (Quotes s).

(** [SetQuotes] appends one quote (without clearing existing quotes). *)
Definition SetQuotes (s : Security) (quotes : SecurityQuotes) : Security :=
  mkSecurity (Id s) (Name s) (SType s) (SecCurrency s) (Quotes s ++ [quotes]).

(** [SetQuotesList] appends a list (without clearing existing quotes). *)
Definition SetQuotesList (s : Security) (quotes : list SecurityQuotes) : Security :=
  mkSecurity (Id s) (Name s) (SType s) (SecCurrency s) (Quotes s ++ quotes).

(** [ClearAndSetQuotesList] clears and sets the list of quotes. *)
Definition ClearAndSetQuotesList (s : Security) (quotes : list SecurityQuotes) : Security :=
  SetQuotesList (mkSecurity (Id s) (Name s) (SType s) (SecCurrency s) []) quotes.

(** [QuotesOfInterval]: the loop keeps the quotes of the given interval. *)
Fixpoint quotesOfInterval (interval : QuotesInterval) (l : list SecurityQuotes)
    : list SecurityQuotes :=
  match l with
  | [] => []
  | q :: l' =>
      if qInterval q =? interval then q :: quotesOfInterval interval l'
      else quotesOfInterval interval l'
  end.

Definition QuotesOfInterval (s : Security) (interval : QuotesInterval)
    : list SecurityQuotes :=
  quotesOfInterval interval (Quotes s).

(** One turn of the loop of [QuotesForDate]: [continue] keeps the quote
    found so far, otherwise [quotes = q]. *)
Definition quotesForDateStep (interval : QuotesInterval) (date : time.Time)
    (quotes q : SecurityQuotes) : SecurityQuotes :=
  if negb (qInterval q =? interval) || time.After (qEnd q) date
     || time.After (qEnd quotes) (qEnd q)
  then quotes else q.

(** [QuotesForDate] returns the last quotes of the given interval for the
    given date. *)
Definition QuotesForDate (s : Security) (interval : QuotesInterval)
    (date : time.Time) : SecurityQuotes :=
  foldl (quotesForDateStep interval date) zeroQuotes (Quotes s).

(** [LastQuotes] returns the last quotes of the given interval. *)
Definition LastQuotes (s : Security) (interval : QuotesInterval) : SecurityQuotes :=
  QuotesForDate s interval (time.Date 3000 1 1 0 0 0).

Definition GetSecurityTypeFromString (typeName : string) : SecurityType :=
  let t := ToLower typeName in
  if String.eqb t "share" then Share
  else if String.eqb t "etf" then ETF
  else if String.eqb t "bond" then Bond
  else if String.eqb t "currency" then Currency
  else UnknownType.

Definition GetSecurityCurrencyFromString (currencyName : string) : SecurityCurrency :=
  let c := ToUpper currencyName in
  if String.eqb c "RUB" then RUB
  else if String.eqb c "USD" then USD
  else if String.eqb c "EUR" then EUR
  else if String.eqb c "CNY" then CNY
  else UnknownCurrency.

(** ** Go runtime and standard library pieces *)

(** [error]: the program only ever reads an error's message. *)
Abbreviation error := string.

(** The order in which goroutines that append to one slice (or send on one
    channel) get to do so: a rearrangement of the tasks' contributions,
    chosen by the scheduler. *)
Definition Scheduler : Type := ∀ A : Type, list A → list A.

(** A scheduler loses and invents nothing: after [wg.Wait()] every task has
    made its contribution exactly once. *)
Definition interleaves (arrival : Scheduler) : Prop :=
  ∀ (A : Type) (l : list A), Permutation (arrival A l) l.

(** The iteration order of [for k := range m] over the keys of a map. *)
Definition MapOrder : Type := list SecurityType → list SecurityType.

(** [sort.Slice(x, less)]. Go does not fix the algorithm (nor the order of
    elements that [less] does not separate); the model is insertion into a
    sorted list, after the elements that are not greater. *)
Fixpoint insertSorted {A : Type} (less : A → A → bool) (x : A) (l : list A) : list A :=
  match l with
  | [] => [x]
  | y :: l' => if less x y then x :: y :: l' else y :: insertSorted less x l'
  end.

Definition sortSlice {A : Type} (less : A → A → bool) (l : list A) : list A :=
  foldr (insertSorted less) [] l.

(** [math.Round]: the nearest integer, halves away from zero; NaN, the
    infinities and the zeros are returned as they are.  Computed on the
    mantissa and exponent of the argument, as Go does on its bits. *)
Definition mathRound (x : float) : float :=
  match Prim2SF x with
  | S754_finite s m e =>
      if 0 <=? e then x
      else
        let d := Z.pow 2 (- e) in
        let q := Z.pos m / d in
        let r := Z.pos m mod d in
        let n := if d <=? 2 * r then q + 1 else q in
        let a := PrimFloat.of_uint63 (Uint63.of_Z n) in
        if s then PrimFloat.opp a else a
  | _ => x
  end.

(** ** Package moex *)

(** A row of the [candles] table of the exchange's answer, decoded:
    positions 0 to 3 are open, close, high and low, positions 6 and 7 are
    begin and end in the layout [2006-01-02 15:04:05].  A row that does not
    decode (a failed type assertion, a date in another layout) stops the
    process and is outside the model. *)
Record moexCandle : Type := mkCandle {
  cOpen : float;
  cClose : float;
  cHigh : float;
  cLow : float;
  cBegin : time.Time;
  cEnd : time.Time
}.

(** A row of the [history] table, decoded: position 0 is the board,
    position 3 the security id and position 11 the close (either may be
    null), positions 6, 7 and 8 are open, low and high. *)
Record moexHistoryRow : Type := mkHistoryRow {
  hBoard : string;
  hSecId : option string;
  hOpen : float;
  hLow : float;
  hHigh : float;
  hClose : option float
}.

(** The exchange, as the two GET requests see it.  An answer is the decoded
    table, or the error of [http.Get], [io.ReadAll] or [json.Unmarshal].
    - [candles engine market boardStr id from till interval]: the request
      [.../securities/<id>/candles.json?from=&till=&interval=], the dates
      formatted as days;
    - [history engine market boardStr date start]: the request
      [.../securities.json?date=&start=]. *)
Record Exchange : Type := mkExchange {
  candles : string → string → string → string → Z → Z → QuotesInterval
            → list moexCandle * option error;
  history : string → string → string → Z → Z
            → list moexHistoryRow * option error
}.

(** [getEngineAndMarket] returns engine, market and board of a security
    type. *)
Definition getEngineAndMarket (sType : SecurityType)
    : (string * string * string) * option error :=
  if String.eqb sType Share then (("stock", "shares", ""), None)
  else if String.eqb sType ETF then (("stock", "shares", "TQTF"), None)
  else if String.eqb sType Bond then (("stock", "bonds", ""), None)
  else if String.eqb sType Currency then (("currency", "index", ""), None)
  else (("", "", ""), Some ("unknown security type: " +:+ sType)).

Definition boardPath (board : string) : string :=
  if String.eqb board "" then "" else "/boards/" +:+ board.

(** The body of the goroutine of [GetSecurityQuotes]: one candle becomes
    one [SecurityQuotes] of the requested interval. *)
Definition candleQuotes (interval : QuotesInterval) (c : moexCandle) : SecurityQuotes :=
  mkQuotes interval (cBegin c) (cEnd c) (cOpen c) (cClose c) (cHigh c) (cLow c).

(** [func(i, j int) bool { return q[j].Begin.After(q[i].Begin) }] *)
Definition lessBegin (a b : SecurityQuotes) : bool :=
  time.After (qBegin b) (qBegin a).

(** The first half of [GetSecurityQuotes]: the request built from the
    security and the period, and the decoded answer. *)
Definition requestCandles (ex : Exchange) (sec : Security)
    (dateFrom dateTill : time.Time) (interval : QuotesInterval)
    : list moexCandle * option error :=
  match getEngineAndMarket (SType sec) with
  | (_, Some err) => ([], Some err)
  | ((engine, market, board), None) =>
      candles ex engine market (boardPath board) (Id sec)
        (time.day dateFrom) (time.day dateTill) interval
  end.

(** [GetSecurityQuotes] gets the quotes of the given security and interval
    for the given period from the exchange; the security is returned with
    the quotes appended. *)
Definition GetSecurityQuotes (ex : Exchange) (arrival : Scheduler) (sec : Security)
    (dateFrom dateTill : time.Time) (interval : QuotesInterval)
    : Security * option error :=
  match requestCandles ex sec dateFrom dateTill interval with
  | (_, Some err) => (sec, Some err)
  | (data, None) =>
      let quotes := arrival _ (map (candleQuotes interval) data) in
      (SetQuotesList sec (sortSlice lessBegin quotes), None)
  end.

(** [sIds[strings.ToUpper(id)]] followed by [s.SetQuotes(q)]: the map holds,
    for each id, the pointer stored last, so the last security of the list
    with this id receives the quote; an id that is not in the map changes
    nothing. *)
Fixpoint setQuotesFirst (id : string) (q : SecurityQuotes) (l : list Security)
    : list Security :=
  match l with
  | [] => []
  | s :: l' =>
      if String.eqb (Id s) id then SetQuotes s q :: l'
      else s :: setQuotesFirst id q l'
  end.

Definition setQuotesById (id : string) (q : SecurityQuotes) (sec : list Security)
    : list Security :=
  rev (setQuotesFirst id q (rev sec)).

(** The body of the goroutine of [GetQuotesForDate] for one history row. *)
Definition historyRowStep (boardToCheck : string) (date : time.Time)
    (sec : list Security) (data : moexHistoryRow) : list Security :=
  match hSecId data, hClose data with
  | Some id, Some close =>
      if String.eqb (hBoard data) boardToCheck then
        setQuotesById (ToUpper id)
          (mkQuotes IntervalDay (time.Truncate24h date)
             (time.Truncate24h (time.AddDate date 1))
             (hOpen data) close (hHigh data) (hLow data))
          sec
      else sec
  | _, _ => sec
  end.

(** How the paging of one day ends: every class was paged ([Paged]), the
    page at start 0 of some class was empty ([NoData]: look on the previous
    day), or a request failed. *)
Inductive Paging : Type :=
  | Paged (sec : list Security)
  | NoData (sec : list Security)
  | Failed (sec : list Security) (err : error).

(** [for start := 0; start < 1000; start += 100], [pages] being the number
    of turns left. *)
Fixpoint pageLoop (ex : Exchange) (arrival : Scheduler) (engine market board : string)
    (date : time.Time) (pages : nat) (start : Z) (sec : list Security) : Paging :=
  match pages with
  | O => Paged sec
  | S pages' =>
      match history ex engine market (boardPath board) (time.day date) start with
      | (_, Some err) => Failed sec err
      | ([], None) => if start =? 0 then NoData sec else Paged sec
      | (data, None) =>
          let boardToCheck := if String.eqb board "" then "TQBR" else board in
          let sec' := foldl (historyRowStep boardToCheck date) sec (arrival _ data) in
          pageLoop ex arrival engine market board date pages' (start + 100) sec'
      end
  end.

(** [for sType := range sTypes] *)
Fixpoint typesLoop (ex : Exchange) (arrival : Scheduler) (date : time.Time)
    (sTypes : list SecurityType) (sec : list Security) : Paging :=
  match sTypes with
  | [] => Paged sec
  | sType :: rest =>
      match getEngineAndMarket sType with
      | (_, Some err) => Failed sec err
      | ((engine, market, board), None) =>
          match pageLoop ex arrival engine market board date 10 0 sec with
          | Paged sec' => typesLoop ex arrival date rest sec'
          | stop => stop
          end
      end
  end.

(** The keys of [sTypes]: the types of the securities, each once. *)
Definition securityTypes (sec : list Security) : list SecurityType :=
  remove_dups (map SType sec).

(** [GetQuotesForDate] gets quotes for the given list of securities on the
    given date.  The function calls itself on the previous day while a first
    page is empty, which need not end: [fuel] bounds the number of days
    looked at, and [None] is the answer of a run that needs more. *)
Fixpoint GetQuotesForDate (fuel : nat) (ex : Exchange) (arrival : Scheduler)
    (order : MapOrder) (sec : list Security) (date : time.Time)
    : option (list Security * option error) :=
  match fuel with
  | O => None
  | S fuel' =>
      match typesLoop ex arrival date (order (securityTypes sec)) sec with
      | Paged sec' => Some (sec', None)
      | Failed sec' err => Some (sec', Some err)
      | NoData sec' =>
          GetQuotesForDate fuel' ex arrival order sec' (time.AddDate date (-1))
      end
  end.

(** ** The database *)

(** A row of [securities(id PK, name, type, currency)], without its key. *)
Record securitiesRow : Type := mkSecuritiesRow {
  col_name : string;
  col_type : string;
  col_currency : string
}.

(** A row of [security_quotes], without its key [(security, begin, interv)]. *)
Record quotesRow : Type := mkQuotesRow {
  col_end : time.Time;
  col_open : float;
  col_close : float;
  col_high : float;
  col_low : float
}.

(** The primary key of [security_quotes]: [(security, begin, interv)]. *)
Abbreviation quotesKey := (string * Z * Z)%type.

(** The two tables of [CreateDatabase], each a finite map from its primary
    key. *)
Record DB : Type := mkDB {
  securities : gmap string securitiesRow;
  security_quotes : gmap quotesKey quotesRow
}.

(** [SELECT id FROM securities WHERE type = "<sType>"]: the ids of the rows
    of that type, in the order the server returns them. *)
Definition selectIdsOfType (db : DB) (sType : SecurityType) : list string :=
  (map_to_list (filter (λ kv, col_type kv.2 = sType) (securities db))).*1.

(** [SELECT id FROM securities WHERE id = ? AND type = ?] *)
Definition selectIdOfIdAndType (db : DB) (id : string) (sType : SecurityType)
    : list string :=
  match securities db !! id with
  | Some r => if String.eqb (col_type r) sType then [id] else []
  | None => []
  end.

(** How the server compares the strings of a column with a value in a
    WHERE clause is the collation of the column.  [CreateDatabase] names
    none, so it is the default of the server, which for MySQL does not tell
    the case of letters apart.  The selects above read it as equality of
    strings ([String.eqb], the binary collation); the two selects of
    [SecurityExists] are given here for any collation [same]. *)
Definition Collation : Type := string → string → bool.

(** [SELECT id FROM securities WHERE type = "<sType>"] *)
Definition selectIdsOfType_collated (same : Collation) (db : DB)
    (sType : SecurityType) : list string :=
  (map_to_list (filter (λ kv, same (col_type kv.2) sType = true) (securities db))).*1.

(** [SELECT id FROM securities WHERE id = ? AND type = ?] *)
Definition selectIdOfIdAndType_collated (same : Collation) (db : DB) (id : string)
    (sType : SecurityType) : list string :=
  (map_to_list
     (filter (λ kv, same kv.1 id = true ∧ same (col_type kv.2) sType = true)
        (securities db))).*1.

(** [SELECT * FROM security_quotes WHERE security = ? AND begin = ? AND
    interv = ?] *)
Definition selectQuotesOfKey (db : DB) (k : quotesKey) : list quotesRow :=
  match security_quotes db !! k with
  | Some r => [r]
  | None => []
  end.

(** [SELECT interv, begin, end, open, close, high, low FROM security_quotes
    WHERE security = ?] *)
Definition selectQuotesOfSecurity (db : DB) (id : string)
    : list (quotesKey * quotesRow) :=
  map_to_list (filter (λ kv, kv.1.1.1 = id) (security_quotes db)).

(** The rows [DELETE FROM security_quotes WHERE security = ? AND begin >= ?
    AND begin <= ? AND interv = ?] removes. *)
Definition inRange (id : string) (dateFrom dateTill : time.Time)
    (interval : QuotesInterval) (k : quotesKey) : Prop :=
  k.1.1 = id ∧ dateFrom ≤ k.1.2 ∧ k.1.2 ≤ dateTill ∧ k.2 = interval.

Definition deleteQuotesInRange (db : DB) (id : string) (dateFrom dateTill : time.Time)
    (interval : QuotesInterval) : DB :=
  mkDB (securities db)
    (filter (λ kv, ¬ inRange id dateFrom dateTill interval kv.1) (security_quotes db)).

(** What makes [INSERT INTO security_quotes ... VALUES (...), (...)] pass:
    no key twice among the new rows, no key that is in the table already
    (the primary key), every security in [securities] (the foreign key). *)
Definition quotesInsertable (db : DB) (rows : list (quotesKey * quotesRow)) : Prop :=
  NoDup rows.*1
  ∧ Forall (λ k, security_quotes db !! k = None) rows.*1
  ∧ Forall (λ k : quotesKey, is_Some (securities db !! k.1.1)) rows.*1.

(** The multi-row INSERT: all the rows, or an error and none of them. *)
Definition insertQuotes (db : DB) (rows : list (quotesKey * quotesRow))
    : DB * option error :=
  if decide (quotesInsertable db rows)
  then (mkDB (securities db) (list_to_map rows ∪ security_quotes db), None)
  else (db, Some "Error 1062 or 1452: duplicate entry or foreign key constraint fails").

(** What makes [INSERT INTO securities ... VALUES (...), (...)] pass. *)
Definition securitiesInsertable (db : DB) (rows : list (string * securitiesRow)) : Prop :=
  NoDup rows.*1 ∧ Forall (λ k, securities db !! k = None) rows.*1.

Definition insertSecurities (db : DB) (rows : list (string * securitiesRow))
    : DB * option error :=
  if decide (securitiesInsertable db rows)
  then (mkDB (list_to_map rows ∪ securities db) (security_quotes db), None)
  else (db, Some "Error 1062: duplicate entry for key PRIMARY").

(** ** Package securitiesSQL *)

(** [collectErrors]: the loop over the errors received on [errChan], in
    the order of their arrival, up to the quit signal. *)
Definition collectStep (finErr : option error) (err : error) : option error :=
  match finErr with
  | None => Some err
  | Some fin => Some (fin +:+ String (ascii_of_nat 10) err)
  end.

Definition collectErrors (errs : list error) : option error :=
  foldl collectStep None errs.

(** The guards both versions of [SecurityExists] start with. *)
Definition checkKey (id : string) (sType : SecurityType) : option error :=
  if String.eqb id "" then Some "security has no id"
  else if String.eqb sType "" || String.eqb sType UnknownType
  then Some "security has no type or type is unknown"
  else None.

(** The loop [for resDB.Next()] of the earlier [SecurityExists]. *)
Fixpoint scanForId (rows : list string) (id : string) : bool :=
  match rows with
  | [] => false
  | row :: rows' => if String.eqb row id then true else scanForId rows' id
  end.

(** [SecurityExists], the earlier version: selects the ids of the given
    type and compares each with [id]. *)
Definition SecurityExists_earlier (db : DB) (id : string) (sType : SecurityType)
    : bool * option error :=
  match checkKey id sType with
  | Some err => (false, Some err)
  | None => (scanForId (selectIdsOfType db sType) id, None)
  end.

(** [SecurityExists] checks if a security with the given id and type exists
    in the database. *)
Definition SecurityExists (db : DB) (id : string) (sType : SecurityType)
    : bool * option error :=
  match checkKey id sType with
  | Some err => (false, Some err)
  | None =>
      match selectIdOfIdAndType db id sType with
      | [] => (false, None)
      | _ :: _ => (true, None)
      end
  end.

(** The two versions of [SecurityExists] under a collation [same] of the
    server: the earlier one has the server compare the type and compares
    the ids itself ([resDBRow.id == id]), the later one has the server
    compare both.  With [String.eqb] they are the two definitions above. *)
Definition SecurityExists_earlier_collated (same : Collation) (db : DB)
    (id : string) (sType : SecurityType) : bool * option error :=
  match checkKey id sType with
  | Some err => (false, Some err)
  | None => (scanForId (selectIdsOfType_collated same db sType) id, None)
  end.

Definition SecurityExists_collated (same : Collation) (db : DB)
    (id : string) (sType : SecurityType) : bool * option error :=
  match checkKey id sType with
  | Some err => (false, Some err)
  | None =>
      match selectIdOfIdAndType_collated same db id sType with
      | [] => (false, None)
      | _ :: _ => (true, None)
      end
  end.

(** [SecurityQuotesExist] checks if quotes of the security for the given
    begin date and interval exist in the database. *)
Definition SecurityQuotesExist (db : DB) (sec : Security) (date : time.Time)
    (interval : QuotesInterval) : bool * option error :=
  match selectQuotesOfKey db (Id sec, date, interval) with
  | [] => (false, None)
  | _ :: _ => (true, None)
  end.

(** The body of the goroutine of [GetSecurityData] for one row. *)
Definition rowQuotes (kv : quotesKey * quotesRow) : SecurityQuotes :=
  mkQuotes kv.1.2 kv.1.1.2 (col_end kv.2)
    (col_open kv.2) (col_close kv.2) (col_high kv.2) (col_low kv.2).

(** [GetSecurityData] fills in security data from the database. *)
Definition GetSecurityData (arrival : Scheduler) (db : DB) (sec : Security)
    : Security * option error :=
  match SecurityExists db (Id sec) (SType sec) with
  | (_, Some err) => (sec, Some err)
  | (false, None) => (sec, Some ("security " +:+ Id sec +:+ " does not exist"))
  | (true, None) =>
      match securities db !! Id sec with
      | None => (sec, Some "sql: no rows in result set")
      | Some r =>
          let sec1 := SetName sec (col_name r) in
          let sec2 := SetCurrency sec1 (GetSecurityCurrencyFromString (col_currency r)) in
          let rows := selectQuotesOfSecurity db (Id sec) in
          let sec3 := foldl SetQuotes sec2 (arrival _ (map rowQuotes rows)) in
          let q := sortSlice lessBegin (Quotes sec3) in
          (ClearAndSetQuotesList sec3 q, None)
      end
  end.

(** [GetSecuritiesData] fills in data for a list of securities: one
    goroutine per security, each sending its error, if any, to
    [collectErrors]. *)
Definition GetSecuritiesData (arrival : Scheduler) (db : DB) (sec : list Security)
    : list Security * option error :=
  let done := map (GetSecurityData arrival db) sec in
  (done.*1, collectErrors (arrival _ (omap snd done))).

(** The loop of [AddSecurities]: [args] collects the rows to insert; an
    error of [SecurityExists] returns at once. *)
Fixpoint addSecuritiesLoop (db : DB) (sec : list Security)
    (args : list (string * securitiesRow))
    : list (string * securitiesRow) * option error :=
  match sec with
  | [] => (args, None)
  | s :: rest =>
      match SecurityExists db (Id s) (SType s) with
      | (_, Some err) => (args, Some err)
      | (true, None) => addSecuritiesLoop db rest args
      | (false, None) =>
          let cur := if String.eqb (SecCurrency s) UnknownCurrency then RUB
                     else SecCurrency s in
          addSecuritiesLoop db rest
            (args ++ [(Id s, mkSecuritiesRow (Name s) (SType s) cur)])
      end
  end.

(** [AddSecurities] adds a list of securities to the database. *)
Definition AddSecurities (db : DB) (sec : list Security) : DB * option error :=
  match addSecuritiesLoop db sec [] with
  | (_, Some err) => (db, Some err)
  | ([], None) => (db, None)
  | (args, None) => insertSecurities db args
  end.

(** [AddSecurity] adds a new security to the database. *)
Definition AddSecurity (db : DB) (sec : Security) : DB * option error :=
  AddSecurities db [sec].

(** The arguments of one row of the INSERT of [UpdateSecurityQuotes]. *)
Definition quotesArgs (id : string) (interval : QuotesInterval) (q : SecurityQuotes)
    : quotesKey * quotesRow :=
  ((id, qBegin q, interval),
   mkQuotesRow (qEnd q) (qOpen q) (qClose q) (qHigh q) (qLow q)).

(** The second half of [UpdateSecurityQuotes], from
    [quotes := sec.QuotesOfInterval(interval)] on: nothing for an empty
    list, else the DELETE of the range and the INSERT of the quotes. *)
Definition storeSecurityQuotes (db : DB) (sec : Security)
    (dateFrom dateTill : time.Time) (interval : QuotesInterval)
    : DB * option error :=
  match QuotesOfInterval sec interval with
  | [] => (db, None)
  | quotes =>
      let db' := deleteQuotesInRange db (Id sec) dateFrom dateTill interval in
      insertQuotes db' (map (quotesArgs (Id sec) interval) quotes)
  end.

(** [UpdateSecurityQuotes] gets security quotes from the exchange and
    writes them down to the database. *)
Definition UpdateSecurityQuotes (ex : Exchange) (arrival : Scheduler) (db : DB)
    (sec : Security) (dateFrom dateTill : time.Time) (interval : QuotesInterval)
    : DB * Security * option error :=
  match SecurityExists db (Id sec) (SType sec) with
  | (_, Some err) => (db, sec, Some err)
  | (false, None) =>
      (db, sec, Some ("security " +:+ Id sec +:+ " does not exist"))
  | (true, None) =>
      match GetSecurityQuotes ex arrival sec dateFrom dateTill interval with
      | (sec', Some err) => (db, sec', Some err)
      | (sec', None) =>
          let (db', err) := storeSecurityQuotes db sec' dateFrom dateTill interval in
          (db', sec', err)
      end
  end.

(** [func(i, j int) bool { return res[j].Id() > res[i].Id() }] *)
Definition lessId (a b : Security) : bool := String.ltb (Id a) (Id b).

(** The greatest [end] among rows: [max(sq.end)], NULL for no row. *)
Definition maxEnd (rows : list (quotesKey * quotesRow)) : option time.Time :=
  foldl (λ m kv, match m with
                 | None => Some (col_end kv.2)
                 | Some e => Some (Z.max e (col_end kv.2))
                 end) None rows.

(** The rows the query of [GetAllSecuritiesData] returns for one security
    that passes the filters: one per quotes row whose [end] is the greatest
    of the security, or one without quotes when it has none. *)
Definition lastQuotesRows (db : DB) (id : string) : list (option SecurityQuotes) :=
  let rows := selectQuotesOfSecurity db id in
  match maxEnd rows with
  | None => [None]
  | Some e => map (λ kv, Some (rowQuotes kv)) (filter (λ kv, col_end kv.2 = e) rows)
  end.

(** The body of the goroutine of [GetAllSecuritiesData] for one row. *)
Definition rowSecurity (id : string) (r : securitiesRow) (q : option SecurityQuotes)
    : Security :=
  let sec := GetSecurity id (col_name r)
               (GetSecurityTypeFromString (col_type r))
               (GetSecurityCurrencyFromString (col_currency r)) in
  match q with
  | Some sQuotes => SetQuotes sec sQuotes
  | None => sec
  end.

(** [GetAllSecuritiesData] fills in data for all securities of the database
    (considering type and currency filters) with only the last quotes of
    each. *)
Definition GetAllSecuritiesData (arrival : Scheduler) (db : DB)
    (typeNameFilter currencyNameFilter : string) : list Security * option error :=
  if negb (String.eqb typeNameFilter "")
     && String.eqb (GetSecurityTypeFromString typeNameFilter) UnknownType
  then ([], Some ("wrong type name: " +:+ typeNameFilter))
  else if negb (String.eqb currencyNameFilter "")
     && String.eqb (GetSecurityCurrencyFromString currencyNameFilter) UnknownCurrency
  then ([], Some ("wrong currency name: " +:+ currencyNameFilter))
  else
    let selected :=
      filter (λ kv : string * securitiesRow,
                (col_type kv.2 = ToLower typeNameFilter ∨ typeNameFilter = "")
                ∧ (col_currency kv.2 = ToUpper currencyNameFilter
                   ∨ currencyNameFilter = ""))
             (securities db) in
    let rows :=
      flat_map (λ kv, map (rowSecurity kv.1 kv.2) (lastQuotesRows db kv.1))
               (map_to_list selected) in
    (sortSlice lessId (arrival _ rows), None).

(** The loop of [UpdateAllSecuritiesLastQuotes]: a security whose last day
    quotes are in the table already is passed over, the others give one row
    of the INSERT each, collected in [args]. *)
Fixpoint lastQuotesLoop (db : DB) (secList : list Security)
    (args : list (quotesKey * quotesRow))
    : list (quotesKey * quotesRow) * option error :=
  match secList with
  | [] => (args, None)
  | s :: rest =>
      let q := LastQuotes s IntervalDay in
      match SecurityQuotesExist db s (qBegin q) IntervalDay with
      | (_, Some err) => (args, Some err)
      | (true, None) => lastQuotesLoop db rest args
      | (false, None) =>
          lastQuotesLoop db rest (args ++ [quotesArgs (Id s) IntervalDay q])
      end
  end.

(** The second half of [UpdateAllSecuritiesLastQuotes], after the quotes
    were fetched into [secList]. *)
Definition storeLastQuotes (db : DB) (secList : list Security) : DB * option error :=
  match lastQuotesLoop db secList [] with
  | (_, Some err) => (db, Some err)
  | ([], None) => (db, None)
  | (args, None) => insertQuotes db args
  end.


(** *** Deleting a security *)

(** [DELETE FROM security_quotes WHERE security = ?] *)
Definition deleteQuotesOfSecurity (db : DB) (id : string) : DB :=
  mkDB (securities db)
    (filter (λ kv : quotesKey * quotesRow, kv.1.1.1 ≠ id) (security_quotes db)).

(** [DELETE FROM securities WHERE id = ?]: refused while a row of
    [security_quotes] refers to the security (the foreign key). *)
Definition deleteSecurityRow (db : DB) (id : string) : DB * option error :=
  match selectQuotesOfSecurity db id with
  | [] => (mkDB (delete id (securities db)) (security_quotes db), None)
  | _ :: _ =>
      (db, Some ("Error 1451: cannot delete a parent row: "
                 +:+ "a foreign key constraint fails"))
  end.

(** [DeleteSecurity] removes a security from the database. *)
Definition DeleteSecurity (db : DB) (sec : Security) : DB * option error :=
  match SecurityExists db (Id sec) (SType sec) with
  | (_, Some err) => (db, Some err)
  | (false, None) => (db, None)
  | (true, None) =>
      deleteSecurityRow (deleteQuotesOfSecurity db (Id sec)) (Id sec)
  end.

(** *** The earlier version: goroutines that query the database

    In the earlier version [AddSecurities], [UpdateSecurityQuotes] and
    [UpdateAllSecuritiesLastQuotes] start one goroutine per security or
    quote, each of which queries the database with two or three
    statements.  The statements of the goroutines are interleaved: each
    goroutine is a task that takes one step (one statement, or one send on
    the error channel) at a time on the shared state, and a schedule names
    the task that steps next.  As with the earlier [SecurityExists], a
    value that the query text is built from is read as the literal it
    stands for. *)

Section Goroutines.
Context {Shared Task : Type}.
Variable step : Shared → Task → Shared * Task.

(** The task at position [i] takes one step; a position that names no task
    changes nothing. *)
Definition stepAt (i : nat) (st : Shared * list Task) : Shared * list Task :=
  match st.2 !! i with
  | None => st
  | Some t => let (sh, t') := step st.1 t in (sh, <[i := t']> st.2)
  end.

(** The tasks step in the order of the schedule. *)
Definition runSchedule (schedule : list nat) (st : Shared * list Task)
    : Shared * list Task :=
  foldl (λ st i, stepAt i st) st schedule.

End Goroutines.

(** The row [AddSecurity] inserts for a security: one without currency
    is stored with RUB. *)
Definition securityArgs (s : Security) : string * securitiesRow :=
  (Id s,
   mkSecuritiesRow (Name s) (SType s)
     (if String.eqb (SecCurrency s) UnknownCurrency then RUB else SecCurrency s)).

(** The goroutine of the earlier [AddSecurities] for one security, between
    its statements: before the SELECT of [SecurityExists], before the
    INSERT, before the error is sent on [errChan], and at its end. *)
Inductive addTask : Type :=
  | ToCheck (s : Security)
  | ToInsert (s : Security)
  | ToSend (err : error)
  | Finished.

(** One step of [AddSecurity], the earlier version, inside the goroutine;
    the shared state is the database and the errors [collectErrors] has
    received so far. *)
Definition addStep (sh : DB * list error) (t : addTask)
    : (DB * list error) * addTask :=
  match t with
  | ToCheck s =>
      match SecurityExists_earlier sh.1 (Id s) (SType s) with
      | (_, Some err) => (sh, ToSend err)
      | (true, None) => (sh, Finished)
      | (false, None) => (sh, ToInsert s)
      end
  | ToInsert s =>
      match insertSecurities sh.1 [securityArgs s] with
      | (db', Some err) => ((db', sh.2), ToSend err)
      | (db', None) => ((db', sh.2), Finished)
      end
  | ToSend err => ((sh.1, sh.2 ++ [err]), Finished)
  | Finished => (sh, Finished)
  end.

(** The goroutine has returned ([defer wg.Done()]). *)
Definition isFinished (t : addTask) : bool :=
  match t with Finished => true | _ => false end.

(** [AddSecurities], the earlier version: one goroutine per security, each
    running [AddSecurity] and sending its error, if any, to
    [collectErrors].  [wg.Wait()] returns when every goroutine is at its
    end: a schedule that leaves one on its way is no run ([None]). *)
Definition AddSecurities_earlier (schedule : list nat) (db : DB) (sec : list Security)
    : option (DB * option error) :=
  let st := runSchedule addStep schedule ((db, []), map ToCheck sec) in
  if forallb isFinished st.2 then Some (st.1.1, collectErrors st.1.2) else None.

(** The goroutine that stores one quote [q] of a security [s] in the
    earlier [UpdateSecurityQuotes] and [UpdateAllSecuritiesLastQuotes],
    between its statements: before the SELECT of [SecurityQuotesExist],
    before the DELETE of the old quote, before the INSERT, and at its
    end. *)
Inductive quotesTask : Type :=
  | ToLook (s : Security) (q : SecurityQuotes)
  | ToDelete (s : Security) (q : SecurityQuotes)
  | ToStore (s : Security) (q : SecurityQuotes)
  | Stored.

(** [DELETE FROM security_quotes WHERE security = "<id>" AND begin =
    "<begin>" AND interv = "<interv>"] *)
Definition deleteQuotesOfKey (db : DB) (k : quotesKey) : DB :=
  mkDB (securities db) (delete k (security_quotes db)).

(** One step of that goroutine.  The shared state is the database and
    whether [log.Fatal] has ended the process, after which nothing steps.
    With [replace] a quote that exists is deleted and written anew
    ([UpdateSecurityQuotes]); without, it is left as it is
    ([UpdateAllSecuritiesLastQuotes]). *)
Definition quotesStep (replace : bool) (interval : QuotesInterval)
    (sh : DB * bool) (t : quotesTask) : (DB * bool) * quotesTask :=
  if sh.2 then (sh, t)
  else
    match t with
    | ToLook s q =>
        match SecurityQuotesExist sh.1 s (qBegin q) interval with
        | (_, Some _) => ((sh.1, true), t)
        | (true, None) => (sh, if replace then ToDelete s q else Stored)
        | (false, None) => (sh, ToStore s q)
        end
    | ToDelete s q =>
        ((deleteQuotesOfKey sh.1 (Id s, qBegin q, interval), false), ToStore s q)
    | ToStore s q =>
        match insertQuotes sh.1 [quotesArgs (Id s) interval q] with
        | (db', Some _) => ((db', true), t)
        | (db', None) => ((db', false), Stored)
        end
    | Stored => (sh, Stored)
    end.

(** The goroutine has returned ([defer wg.Done()]). *)
Definition isStored (t : quotesTask) : bool :=
  match t with Stored => true | _ => false end.

(** How a run of such goroutines ends: [wg.Wait()] returns, or [log.Fatal]
    has ended the process. *)
Inductive Ending : Type := Returned | Died.

(** The goroutines of the items [(s, q)], run by [schedule]: the answer is
    the database they leave and how the run ended, or [None] for a schedule
    that ends before they do. *)
Definition storeQuotes (replace : bool) (interval : QuotesInterval)
    (schedule : list nat) (db : DB) (items : list (Security * SecurityQuotes))
    : option (DB * Ending) :=
  let st := runSchedule (quotesStep replace interval) schedule
              ((db, false), map (λ x, ToLook x.1 x.2) items) in
  if st.1.2 then Some (st.1.1, Died)
  else if forallb isStored st.2 then Some (st.1.1, Returned)
  else None.

(** The second half of the earlier [UpdateSecurityQuotes]: one goroutine
    per quote of the interval. *)
Definition storeSecurityQuotes_earlier (schedule : list nat) (db : DB)
    (sec : Security) (interval : QuotesInterval) : option (DB * Ending) :=
  storeQuotes true interval schedule db
    (map (λ q, (sec, q)) (QuotesOfInterval sec interval)).

(** The second half of the earlier [UpdateAllSecuritiesLastQuotes]: one
    goroutine per security, for its last day quotes. *)
Definition storeLastQuotes_earlier (schedule : list nat) (db : DB)
    (secList : list Security) : option (DB * Ending) :=
  storeQuotes false IntervalDay schedule db
    (map (λ s, (s, LastQuotes s IntervalDay)) secList).

(** ** Package main: the two analytic loops *)

(** [(q.Close - price) / price * 100], guarded by [price != 0.0]. *)
Definition changeFrom (price close : float) : float :=
  if negb (PrimFloat.eqb price 0%float)
  then PrimFloat.mul (PrimFloat.div (PrimFloat.sub close price) price) 100%float
  else 0%float.

(** [expSecurityQuotes], with the two changes as the numbers that the
    handler then prints with two decimals. *)
Record expSecurityQuotes : Type := mkExp {
  expQuotes : SecurityQuotes;
  Change : float;
  TotalChange : float
}.

(** The variables of the loop of [getSecurityDataHandler]. *)
Record changesState : Type := mkChanges {
  startPrice : float;
  prevPrice : float;
  expSeqQuotes : list expSecurityQuotes
}.

(** One turn of the loop over the quotes of the interval. *)
Definition changesStep (dateFrom dateTill : time.Time) (st : changesState)
    (q : SecurityQuotes) : changesState :=
  if time.After dateFrom (qEnd q) || time.After (qEnd q) dateTill then st
  else
    let totalChange := changeFrom (startPrice st) (qClose q) in
    let startPrice' :=
      if negb (PrimFloat.eqb (startPrice st) 0%float) then startPrice st
      else qClose q in
    let change := changeFrom (prevPrice st) (qClose q) in
    mkChanges startPrice' (qClose q)
      (expSeqQuotes st ++ [mkExp q change totalChange]).

(** The loop of [getSecurityDataHandler] that derives the changes of the
    quotes whose end lies between [dateFrom] and [dateTill]. *)
Definition deriveChanges (quotes : list SecurityQuotes) (dateFrom dateTill : time.Time)
    : list expSecurityQuotes :=
  expSeqQuotes (foldl (changesStep dateFrom dateTill)
                  (mkChanges 0%float 0%float []) quotes).

(** [secPrices] of [securityListHandler]. *)
Record secPrices : Type := mkSecPrices {
  sp_id : string;
  priceBegin : float;
  priceEnd : float;
  change : float
}.

(** [math.Round((priceEnd-priceBegin)/priceBegin*10000) / 100], guarded by
    [priceBegin > 0.0]. *)
Definition periodChange (priceBegin priceEnd : float) : float :=
  if PrimFloat.ltb 0%float priceBegin
  then PrimFloat.div
         (mathRound (PrimFloat.mul
                       (PrimFloat.div (PrimFloat.sub priceEnd priceBegin) priceBegin)
                       10000%float))
         100%float
  else 0%float.

(** The goroutine of [securityListHandler] after the quotes of the security
    were updated. *)
Definition securityPrices (sec : Security) (dateFrom dateTill : time.Time) : secPrices :=
  let priceBegin :=
    qOpen (QuotesForDate sec IntervalDay
             (time.AddDate (time.Truncate24h dateFrom) 1)) in
  let priceEnd :=
    qClose (QuotesForDate sec IntervalDay
              (time.AddDate (time.Truncate24h dateTill) 1)) in
  mkSecPrices (Id sec) priceBegin priceEnd (periodChange priceBegin priceEnd).

(** The [less] of the [sort.Slice] of [securityListHandler]. *)
Definition lessChange (a b : secPrices) : bool :=
  PrimFloat.ltb (change a) (change b)
  || (PrimFloat.eqb (change a) (change b) && String.ltb (sp_id a) (sp_id b)).

(** The ranking of [securityListHandler]: [updated] are the securities
    whose quotes were updated without an error (the others are ignored),
    each with the quotes it then holds. *)
Definition rankPeriodChange (arrival : Scheduler) (updated : list Security)
    (dateFrom dateTill : time.Time) : list secPrices :=
  let secQuotes := arrival _ (map (λ sec, securityPrices sec dateFrom dateTill) updated) in
  sortSlice lessChange secQuotes.

(** ** Package main: the result file of securityListHandler *)

(** [strings.Split(fileName, ".")[0]]: the part before the first dot, the
    whole name when it has none. *)
Fixpoint beforeDot (s : string) : string :=
  match s with
  | EmptyString => EmptyString
  | String c s' => if Ascii.eqb c "." then EmptyString else String c (beforeDot s')
  end.

(** The name of the file [securityListHandler] writes the ranking to. *)
Definition resultFileName (fileName : string) : string :=
  beforeDot fileName +:+ "_result.txt".

(** ** Package main: the handlers that add and delete a security *)

(** What a handler answers: the status it writes, with the [err] header
    it has set or the address it redirects to. *)
Inductive Response : Type :=
  | StatusOK
  | StatusNoContent (err : string)
  | StatusPermanentRedirect (url : string).

(** [addSecurityHandler] adds a new security to the database; the four
    strings are the values of [id], [name], [type] and [currency] of the
    query. *)
Definition addSecurityHandler (db : DB) (id name typeName currencyName : string)
    : DB * Response :=
  if String.eqb id "" || String.eqb name "" || String.eqb typeName ""
     || String.eqb currencyName ""
  then (db, StatusNoContent "not enough values")
  else
    let sType := GetSecurityTypeFromString typeName in
    if String.eqb sType UnknownType
    then (db, StatusNoContent ("unknown type " +:+ typeName))
    else
      let cur := GetSecurityCurrencyFromString currencyName in
      if String.eqb cur UnknownCurrency
      then (db, StatusNoContent ("unknown currency " +:+ currencyName))
      else
        let sec := GetSecurity id name sType cur in
        match AddSecurity db sec with
        | (db', Some err) => (db', StatusNoContent err)
        | (db', None) => (db', StatusOK)
        end.

(** [deleteSecurityHandler] deletes a security from the database; the two
    strings are the values of [id] and [type] of the query. *)
Definition deleteSecurityHandler (db : DB) (id typeString : string) : DB * Response :=
  if String.eqb id "" || String.eqb typeString ""
  then (db, StatusNoContent "not enough values")
  else
    let sType := GetSecurityTypeFromString typeString in
    if String.eqb sType UnknownType
    then (db, StatusNoContent ("unknown type " +:+ typeString))
    else
      let sec := GetQuickSecurity id sType in
      match DeleteSecurity db sec with
      | (db', Some err) => (db', StatusNoContent err)
      | (db', None) => (db', StatusPermanentRedirect "/securities")
      end.

(** * Vocabulary of the statements *)

(** ** Order *)

(** [a] may stand before [b] in a slice sorted by [less]: [b] is not less
    than [a]. *)
Definition inOrder {A : Type} (less : A → A → bool) (a b : A) : Prop :=
  less b a = false.

(** Two neighbours of a list sorted ascending by begin. *)
Definition ascendingBegin (a b : SecurityQuotes) : Prop := qBegin a ≤ qBegin b.

#[global] Instance ascendingBegin_dec : RelDecision ascendingBegin.
Proof. intros a b. unfold ascendingBegin. apply _. Defined.

#[global] Instance ascendingBegin_trans : Transitive ascendingBegin.
Proof. intros a b c. unfold ascendingBegin. lia. Qed.

(** The invariant of a quote series as claimed: ascending begins, and no
    two quotes of one interval with the same begin. *)
Definition seriesInvariant (l : list SecurityQuotes) : Prop :=
  Sorted ascendingBegin l
  ∧ NoDup (map (λ q, (qInterval q, qBegin q)) l).

(** [a] may stand before [b] in the ranking: the change of [b] is not
    smaller, and where the changes are equal the id of [b] is not
    smaller. *)
Definition rankedBefore (a b : secPrices) : Prop :=
  PrimFloat.ltb (change b) (change a) = false
  ∧ (PrimFloat.eqb (change b) (change a) = true →
     String.ltb (sp_id b) (sp_id a) = false).

(** ** Schedulers and map iteration *)

(** The scheduler that lets the goroutines append in the order they were
    started, and the one that lets the last started append first. *)
Definition fifo : Scheduler := λ _ l, l.
Definition lifo : Scheduler := λ _ l, rev l.

(** An iteration over the keys of a map visits each key once. *)
Definition iterates (order : MapOrder) : Prop :=
  ∀ l, Permutation (order l) l.

(** ** QuotesForDate *)

(** A quote the search of [QuotesForDate] accepts: of the interval, and
    ending not after the date. *)
Definition qualifies (interval : QuotesInterval) (date : time.Time)
    (q : SecurityQuotes) : Prop :=
  qInterval q = interval ∧ qEnd q ≤ date.

(** The property as claimed: whenever some quote qualifies, the answer is
    a qualifying quote of the security with the greatest end; when none
    does, it is the zero value. *)
Definition QuotesForDate_claim (s : Security) (interval : QuotesInterval)
    (date : time.Time) : Prop :=
  let r := QuotesForDate s interval date in
  ((∃ q, q ∈ Quotes s ∧ qualifies interval date q) →
   r ∈ Quotes s ∧ qualifies interval date r
   ∧ ∀ q, q ∈ Quotes s → qualifies interval date q → qEnd q ≤ qEnd r)
  ∧ ((∀ q, q ∈ Quotes s → ¬ qualifies interval date q) → r = zeroQuotes).

(** ** The changes of getSecurityDataHandler *)

(** A quote the loop keeps: its end lies in [dateFrom, dateTill]. *)
Definition inWindow (dateFrom dateTill : time.Time) (q : SecurityQuotes) : Prop :=
  dateFrom ≤ qEnd q ∧ qEnd q ≤ dateTill.

(** The changes as claimed: the first retained quote has both changes 0;
    every later one has the day change from the close before it and the
    total change from the close of the first retained quote, which is the
    baseline throughout. *)
Definition DeriveChanges_claim (quotes : list SecurityQuotes)
    (dateFrom dateTill : time.Time) : Prop :=
  let kept := filter (inWindow dateFrom dateTill) quotes in
  let out := deriveChanges quotes dateFrom dateTill in
  map expQuotes out = kept
  ∧ match kept with
    | [] => True
    | q0 :: rest =>
        map Change out
        = 0%float :: zip_with changeFrom (map qClose kept) (map qClose rest)
        ∧ map TotalChange out
          = 0%float :: map (λ q, changeFrom (qClose q0) (qClose q)) rest
    end.

(** The loop, turn by turn over the retained quotes: [start] and [prev] are
    [startPrice] and [prevPrice] on entry. *)
Fixpoint changesFrom (start prev : float) (kept : list SecurityQuotes)
    : list expSecurityQuotes :=
  match kept with
  | [] => []
  | q :: kept' =>
      mkExp q (changeFrom prev (qClose q)) (changeFrom start (qClose q))
      :: changesFrom
           (if negb (PrimFloat.eqb start 0%float) then start else qClose q)
           (qClose q) kept'
  end.

(** ** Errors of the operations over a list of securities *)

(** The line feed, and the messages of a list joined line by line. *)
Definition newline : string := String (ascii_of_nat 10) EmptyString.

Definition joinLines (msgs : list string) : string := String.concat newline msgs.

(** [msg] contains [part]. *)
Definition contains (msg part : string) : Prop :=
  ∃ before after, msg = before +:+ part +:+ after.

(** What is claimed of an operation [run] over a list that applies
    [perItem] to each security: no error when no item fails, and when every
    item fails one error whose message contains the message of each. *)
Definition fanOut_claim (run : list Security → option error)
    (perItem : Security → option error) (sec : list Security) : Prop :=
  (Forall (λ s, perItem s = None) sec → run sec = None)
  ∧ (∀ errs, map perItem sec = map Some errs →
       ∃ msg, run sec = Some msg ∧ Forall (contains msg) errs).

(** ** SecurityExists *)

(** The property as claimed: the two versions return the same pair. *)
Definition SecurityExists_claim (same : Collation) (db : DB) (id : string)
    (sType : SecurityType) : Prop :=
  SecurityExists_earlier_collated same db id sType
  = SecurityExists_collated same db id sType.

(** ** UpdateSecurityQuotes *)

(** The property as claimed: for a registered security, when the exchange
    answers with no candle, the call returns [nil] and every persisted
    quote is as it was. *)
Definition UpdateSecurityQuotes_claim (ex : Exchange) (arrival : Scheduler)
    (db : DB) (sec : Security) (dateFrom dateTill : time.Time)
    (interval : QuotesInterval) : Prop :=
  SecurityExists db (Id sec) (SType sec) = (true, None) →
  requestCandles ex sec dateFrom dateTill interval = ([], None) →
  let result := UpdateSecurityQuotes ex arrival db sec dateFrom dateTill interval in
  result.2 = None ∧ security_quotes result.1.1 = security_quotes db.

(** ** UpdateAllSecuritiesLastQuotes *)

(** The row [UpdateAllSecuritiesLastQuotes] inserts for a security: its
    last day quotes, keyed by the security, their begin and the day
    interval. *)
Definition lastQuotesRow (s : Security) : quotesKey * quotesRow :=
  quotesArgs (Id s) IntervalDay (LastQuotes s IntervalDay).

(** The rows of the securities whose last day quotes are not in the
    table. *)
Fixpoint newLastQuotes (db : DB) (secList : list Security)
    : list (quotesKey * quotesRow) :=
  match secList with
  | [] => []
  | s :: rest =>
      match security_quotes db !! (lastQuotesRow s).1 with
      | Some _ => newLastQuotes db rest
      | None => lastQuotesRow s :: newLastQuotes db rest
      end
  end.

(** ** GetQuotesForDate *)

(** On day [d] the history of the class of [sType] has a first page that
    is not empty. *)
Definition hasFirstPage (ex : Exchange) (d : Z) (sType : SecurityType) : Prop :=
  ∀ engine market board,
    getEngineAndMarket sType = ((engine, market, board), None) →
    (history ex engine market (boardPath board) d 0).1 ≠ [].

(** The termination as claimed: when for each class some day on or before
    the date has a first page that is not empty, the function returns.
    (For one class among several the requirement is weaker still.) *)
Definition GetQuotesForDate_claim (ex : Exchange) (arrival : Scheduler)
    (order : MapOrder) (sec : list Security) (date : time.Time) : Prop :=
  (∀ sType, sType ∈ securityTypes sec →
            ∃ n : nat, hasFirstPage ex (time.day date - Z.of_nat n) sType) →
  ∃ fuel result, GetQuotesForDate fuel ex arrival order sec date = Some result.

(** The securities a paging ends with, and the paging that ends on an
    empty first page. *)
Definition pagingSec (p : Paging) : list Security :=
  match p with
  | Paged sec | NoData sec | Failed sec _ => sec
  end.

Definition isNoData (p : Paging) : Prop :=
  match p with NoData _ => True | _ => False end.

(** Two exchanges with the same history pages at the starts 0, 100, ...,
    900. *)
Definition samePages (ex ex' : Exchange) : Prop :=
  ∀ engine market boardStr d k,
    0 ≤ k < 10 →
    history ex engine market boardStr d (100 * k)
    = history ex' engine market boardStr d (100 * k).

(** ** Names of types and currencies *)

(** A name made of ASCII characters only: on these [strings.ToUpper] and
    [strings.ToLower] change the letters a-z and A-Z and nothing else. *)
Fixpoint isASCII (s : string) : bool :=
  match s with
  | EmptyString => true
  | String c s' => (nat_of_ascii c <? 128)%nat && isASCII s'
  end.

(** The types [getEngineAndMarket] knows. *)
Definition knownTypes : list SecurityType := [Share; ETF; Bond; Currency].

(** ** What the columns and the statement texts hold

    Three conventions of the embedding hold of the values described here,
    and the theorems that depend on them assume these values: a column
    gives back what was written to it; a value that [fmt.Sprintf] puts into
    a statement text is read as the literal it stands for; and
    [strings.ToUpper] is the change of the letters a-z. *)

(** A value that stands for itself between the double quotes of a
    statement text: printable ASCII characters, neither the double quote
    nor the backslash. *)
Fixpoint plainLiteral (s : string) : bool :=
  match s with
  | EmptyString => true
  | String c s' =>
      let n := nat_of_ascii c in
      (32 <=? n)%nat && (n <? 127)%nat && negb (n =? 34)%nat && negb (n =? 92)%nat
      && plainLiteral s'
  end.

(** A string that a [VARCHAR(width)] column takes whole: ASCII characters,
    not more than the column has room for. *)
Definition fitsColumn (width : nat) (s : string) : Prop :=
  isASCII s = true ∧ (String.length s ≤ width)%nat.

(** A security whose row the INSERT of the earlier [AddSecurity], built
    with [fmt.Sprintf], writes as it is: id, name and type stand for
    themselves in the text and fit their columns ([VARCHAR(20)],
    [VARCHAR(150)], [VARCHAR(20)]), and the currency is one of the
    package. *)
Definition splicedSecurity (s : Security) : Prop :=
  (plainLiteral (Id s) = true ∧ (String.length (Id s) ≤ 20)%nat)
  ∧ (plainLiteral (Name s) = true ∧ (String.length (Name s) ≤ 150)%nat)
  ∧ (plainLiteral (SType s) = true ∧ (String.length (SType s) ≤ 20)%nat)
  ∧ SecCurrency s ∈ [RUB; USD; EUR; CNY; UnknownCurrency].

(** The ids, types and currencies of the table [securities] are ASCII. *)
Definition asciiSecurities (db : DB) : Prop :=
  ∀ id r, securities db !! id = Some r →
          isASCII id = true ∧ isASCII (col_type r) = true
          ∧ isASCII (col_currency r) = true.

(** The binary64 nearest to [k / 10^6]. *)
Definition decimal6 (k : Z) : float :=
  let m := PrimFloat.of_uint63 (Uint63.of_Z (Z.abs k)) in
  PrimFloat.div (if k <? 0 then PrimFloat.opp m else m) 1000000%float.

(** A price that a [DECIMAL(14,6)] column gives back as it was written, and
    that ["%f"] prints as the column reads it: the binary64 nearest to a
    decimal with at most eight digits before the point and six after. *)
Definition heldByDecimal (x : float) : Prop :=
  ∃ k : Z, - 10 ^ 14 < k < 10 ^ 14 ∧ x = decimal6 k.

(** An instant in the range of a [DATETIME] column, years 1000 to 9999. *)
Definition heldByDatetime (t : time.Time) : Prop :=
  time.Date 1000 1 1 0 0 0 ≤ t ≤ time.Date 9999 12 31 23 59 59.

(** A quote that a row of [security_quotes] gives back as it was written,
    with the interval ([TINYINT UNSIGNED]) it is stored under. *)
Definition heldByQuotes (interval : QuotesInterval) (q : SecurityQuotes) : Prop :=
  0 ≤ interval ≤ 255
  ∧ heldByDatetime (qBegin q) ∧ heldByDatetime (qEnd q)
  ∧ heldByDecimal (qOpen q) ∧ heldByDecimal (qClose q)
  ∧ heldByDecimal (qHigh q) ∧ heldByDecimal (qLow q).

(** The rows of a page that make a goroutine of [GetQuotesForDate] append
    (the board is the one looked for, id and close are not null) name no
    security twice: their ids are ASCII and differ by more than the case
    of letters.  The goroutines of such a page append to the quotes of
    different securities, so that none of the appends, made without a
    mutex, meets another. *)
Definition namesOnce (boardToCheck : string) (rows : list moexHistoryRow) : Prop :=
  let ids :=
    omap hSecId
      (filter (λ row, hBoard row = boardToCheck ∧ is_Some (hClose row)) rows) in
  Forall (λ id, isASCII id = true) ids ∧ NoDup (map ToUpper ids).

(** ** The quotes GetQuotesForDate adds *)

(** A day quote as [GetQuotesForDate] builds them for a day not after
    [date]: from midnight to the next midnight. *)
Definition dayQuotesUpTo (date : time.Time) (q : SecurityQuotes) : Prop :=
  qInterval q = IntervalDay
  ∧ time.Truncate24h (qBegin q) = qBegin q
  ∧ qEnd q = time.AddDate (qBegin q) 1
  ∧ qBegin q ≤ date.

(** [s'] is [s] with such quotes appended, and nothing else changed. *)
Definition dayQuotesAdded (date : time.Time) (s s' : Security) : Prop :=
  Id s' = Id s ∧ Name s' = Name s ∧ SType s' = SType s
  ∧ SecCurrency s' = SecCurrency s
  ∧ ∃ added, Quotes s' = Quotes s ++ added ∧ Forall (dayQuotesUpTo date) added.

(** A security of the list with the id [id] holds the quote [q]. *)
Definition holdsQuote (id : string) (q : SecurityQuotes) (sec : list Security) : Prop :=
  ∃ s, s ∈ sec ∧ Id s = id ∧ q ∈ Quotes s.

(** ** The tables *)

(** The foreign key of [security_quotes]: every quote belongs to a
    registered security. *)
Definition foreignKey (db : DB) : Prop :=
  ∀ k v, security_quotes db !! k = Some v → is_Some (securities db !! k.1.1).

(** The rows of the securities of the list that [SecurityExists] does not
    find. *)
Fixpoint newSecurities (db : DB) (sec : list Security)
    : list (string * securitiesRow) :=
  match sec with
  | [] => []
  | s :: rest =>
      match SecurityExists db (Id s) (SType s) with
      | (false, None) => securityArgs s :: newSecurities db rest
      | _ => newSecurities db rest
      end
  end.

(** The database [db'] holds what [db] held, and besides only rows of the
    securities of [sec]. *)
Definition securitiesAdded (db : DB) (sec : list Security) (db' : DB) : Prop :=
  security_quotes db' = security_quotes db
  ∧ (∀ id r, securities db !! id = Some r → securities db' !! id = Some r)
  ∧ (∀ id r, securities db' !! id = Some r →
       securities db !! id = Some r ∨ ∃ s, s ∈ sec ∧ (id, r) = securityArgs s).

(** The filters of [GetAllSecuritiesData]: an empty filter lets every row
    pass. *)
Definition passesFilters (typeNameFilter currencyNameFilter : string)
    (r : securitiesRow) : Prop :=
  (col_type r = ToLower typeNameFilter ∨ typeNameFilter = "")
  ∧ (col_currency r = ToUpper currencyNameFilter ∨ currencyNameFilter = "").

(** The filters name a type and a currency the package knows, or are
    empty. *)
Definition knownFilters (typeNameFilter currencyNameFilter : string) : Prop :=
  (typeNameFilter = "" ∨ GetSecurityTypeFromString typeNameFilter ≠ UnknownType)
  ∧ (currencyNameFilter = ""
     ∨ GetSecurityCurrencyFromString currencyNameFilter ≠ UnknownCurrency).

(** What [GetAllSecuritiesData] makes of a row [r] of [securities] with
    the key [id]: the security [s] of the answer, with at most one quote,
    a quote of the table with the greatest end of the security. *)
Definition lastQuotesOf (db : DB) (id : string) (r : securitiesRow) (s : Security)
    : Prop :=
  Id s = ToUpper id ∧ Name s = col_name r
  ∧ SType s = GetSecurityTypeFromString (col_type r)
  ∧ SecCurrency s = GetSecurityCurrencyFromString (col_currency r)
  ∧ ((Quotes s = [] ∧ selectQuotesOfSecurity db id = [])
     ∨ ∃ kv, kv ∈ selectQuotesOfSecurity db id
             ∧ Quotes s = [rowQuotes kv]
             ∧ ∀ kv', kv' ∈ selectQuotesOfSecurity db id → col_end kv'.2 ≤ col_end kv.2).

(** ** Goroutines and their turns *)

(** A schedule in which each of [n] goroutines gets at least [k] turns. *)
Definition givesTurns (k n : nat) (schedule : list nat) : Prop :=
  ∀ i, (i < n)%nat → (k ≤ count_occ Nat.eq_dec schedule i)%nat.

(** The turns a goroutine of [AddSecurities] still needs. *)
Definition turnsLeft (t : addTask) : nat :=
  match t with
  | ToCheck _ => 3
  | ToInsert _ => 2
  | ToSend _ => 1
  | Finished => 0
  end.

(** The message a goroutine is still to send when it is not yet past the
    guards of [SecurityExists], or has failed. *)
Definition owed (t : addTask) : option error :=
  match t with
  | ToCheck s => checkKey (Id s) (SType s)
  | ToSend err => Some err
  | ToInsert _ | Finished => None
  end.

(** A goroutine of [AddSecurities] whose key [SecurityExists] turns
    down: it is never about to insert. *)
Definition turnedDown (t : addTask) : Prop :=
  match t with
  | ToCheck s => is_Some (checkKey (Id s) (SType s))
  | ToInsert _ => False
  | ToSend _ | Finished => True
  end.

(** What a goroutine of the earlier [AddSecurities] has achieved for its
    security [s], the shared state being [sh]: once past its statements,
    a security with a good key is registered, and one with a key that
    [SecurityExists] turns down has had its error received when the
    goroutine is at its end. *)
Definition addTaskDone (sh : DB * list error) (s : Security) (t : addTask) : Prop :=
  match t with
  | ToCheck s' => s' = s
  | ToInsert s' => s' = s ∧ checkKey (Id s) (SType s) = None
  | ToSend _ =>
      checkKey (Id s) (SType s) = None → is_Some (securities sh.1 !! Id s)
  | Finished =>
      (checkKey (Id s) (SType s) = None → is_Some (securities sh.1 !! Id s))
      ∧ (checkKey (Id s) (SType s) ≠ None → sh.2 ≠ [])
  end.

(** The row a goroutine stores for its item. *)
Definition itemRow (interval : QuotesInterval) (x : Security * SecurityQuotes)
    : quotesKey * quotesRow :=
  quotesArgs (Id x.1) interval x.2.

(** The quotes of the table when every goroutine is at its end: with
    [replace] the rows of the items over the table, without the table over
    the rows of the items. *)
Definition quotesStored (replace : bool) (interval : QuotesInterval) (db : DB)
    (items : list (Security * SecurityQuotes)) : gmap quotesKey quotesRow :=
  if replace
  then list_to_map (map (itemRow interval) items) ∪ security_quotes db
  else security_quotes db ∪ list_to_map (map (itemRow interval) items).

(** What a goroutine has achieved for its item [x], [db0] being the
    database at the start and [db] the one now. *)
Definition quotesTaskDone (replace : bool) (interval : QuotesInterval) (db0 db : DB)
    (x : Security * SecurityQuotes) (t : quotesTask) : Prop :=
  let k := (itemRow interval x).1 in
  match t with
  | ToLook s q => (s, q) = x ∧ security_quotes db !! k = security_quotes db0 !! k
  | ToDelete s q => (s, q) = x ∧ replace = true
  | ToStore s q =>
      (s, q) = x ∧ security_quotes db !! k = None
      ∧ (replace = false → security_quotes db0 !! k = None)
  | Stored => security_quotes db !! k = quotesStored replace interval db0 [x] !! k
  end.

(** The turns such a goroutine still needs. *)
Definition quotesTurnsLeft (t : quotesTask) : nat :=
  match t with
  | ToLook _ _ => 3
  | ToDelete _ _ => 2
  | ToStore _ _ => 1
  | Stored => 0
  end.

(** * Sample data *)

(** The day candles of GAZP of January 3 and 4, 2022. *)
Definition twoCandles : list moexCandle :=
  [mkCandle 340%float 342%float 345%float 338%float
     (time.Date 2022 1 3 0 0 0) (time.Date 2022 1 3 23 59 59);
   mkCandle 342%float 350%float 351%float 341%float
     (time.Date 2022 1 4 0 0 0) (time.Date 2022 1 4 23 59 59)].

(** An exchange that answers every candles request with [twoCandles], and
    every history request with an empty table. *)
Definition exTwoCandles : Exchange :=
  mkExchange (λ _ _ _ _ _ _ _, (twoCandles, None)) (λ _ _ _ _ _, ([], None)).

(** An exchange whose candles table holds the same candle twice. *)
Definition exRepeatedCandle : Exchange :=
  mkExchange (λ _ _ _ _ _ _ _, (take 1 twoCandles ++ take 1 twoCandles, None))
    (λ _ _ _ _ _, ([], None)).

(** An exchange that has no candles and no history for any request. *)
Definition exNothing : Exchange :=
  mkExchange (λ _ _ _ _ _ _ _, ([], None)) (λ _ _ _ _ _, ([], None)).

(** An exchange whose share market has one row, for SBER, on the first
    page of every even day, and whose bond market has one row on the first
    page of every odd day; nothing else. *)
Definition exAlternating : Exchange :=
  mkExchange (λ _ _ _ _ _ _ _, ([], None))
    (λ engine market boardStr d start,
       if (start =? 0)
          && ((String.eqb market "shares" && Z.even d)
              || (String.eqb market "bonds" && Z.odd d))
       then ([mkHistoryRow "TQBR" (Some "SBER") 250%float 249%float 252%float
                (Some 251%float)], None)
       else ([], None)).

(** An exchange that has rows for GAZP and LKOH on the first page of
    Friday, February 4, 2022, and nothing on any other day. *)
Definition exFriday : Exchange :=
  mkExchange (λ _ _ _ _ _ _ _, ([], None))
    (λ engine market boardStr d start,
       if (d =? time.day (time.Date 2022 2 4 0 0 0)) && (start =? 0)
       then ([mkHistoryRow "TQBR" (Some "GAZP") 320%float 318%float 326%float
                (Some 324.5%float);
              mkHistoryRow "TQBR" (Some "LKOH") 6900%float 6890%float 7020%float
                (Some 7010%float)], None)
       else ([], None)).

(** A database with GAZP registered as a share and the two day quotes of
    [twoCandles] persisted. *)
Definition dbGAZP : DB :=
  mkDB {[ "GAZP" := mkSecuritiesRow "Gazprom shares" "share" "RUB" ]}
    (list_to_map
       (map (quotesArgs "GAZP" IntervalDay)
          (map (candleQuotes IntervalDay) twoCandles))).

(** A security holding the two day quotes of [twoCandles]. *)
Definition secTwoQuotes : Security :=
  SetQuotesList (GetQuickSecurity "GAZP" Share)
    (map (candleQuotes IntervalDay) twoCandles).

(** GAZP holding the first of these two quotes only, that of January 3. *)
Definition secOneQuote : Security :=
  SetQuotesList (GetQuickSecurity "GAZP" Share)
    (map (candleQuotes IntervalDay) (take 1 twoCandles)).

(** A collation that tells strings apart except for the case of the
    letters a-z, as the default collations of MySQL do on ASCII strings. *)
Definition asciiCaseInsensitive : Collation :=
  λ a b, String.eqb (ToUpper a) (ToUpper b).

(** A security with one day quote that ends one second before the zero
    Time: December 31 of the year before year 1, 23:59:59. *)
Definition secBeforeZero : Security :=
  mkSecurity "GAZP" "" Share RUB
    [mkQuotes IntervalDay (time.Date 0 12 31 0 0 0) (time.Date 0 12 31 23 59 59)
       100%float 101%float 102%float 99%float].

(** Three day quotes with the closes 0, 5 and 10, ending on the first
    three days after the zero Time. *)
Definition quotesFromZero : list SecurityQuotes :=
  [mkQuotes IntervalDay 0 86399 0%float 0%float 0%float 0%float;
   mkQuotes IntervalDay 86400 172799 5%float 5%float 5%float 5%float;
   mkQuotes IntervalDay 172800 259199 10%float 10%float 10%float 10%float].

(** Securities A and B, each with one day quote for January 3, 2022:
    A opens at 10 and closes at 12, B opens at 50 and closes at 45. *)
Definition secA : Security :=
  mkSecurity "A" "" Share UnknownCurrency
    [mkQuotes IntervalDay (time.Date 2022 1 3 0 0 0) (time.Date 2022 1 3 23 59 59)
       10%float 12%float 12%float 10%float].

Definition secB : Security :=
  mkSecurity "B" "" Share UnknownCurrency
    [mkQuotes IntervalDay (time.Date 2022 1 3 0 0 0) (time.Date 2022 1 3 23 59 59)
       50%float 45%float 50%float 45%float].

(** Two securities that [SecurityExists] turns down: one without an id,
    one of unknown type. *)
Definition secNoId : Security := GetQuickSecurity "" Share.
Definition secNoType : Security := GetQuickSecurity "GAZP" UnknownType.

(** A share and a bond. *)
Definition shareAndBond : list Security :=
  [GetQuickSecurity "GAZP" Share; GetQuickSecurity "SU26238RMFS4" Bond].

(** * Properties *)

(** ** Sorting *)

Section SortSlice.
Context {A : Type} (less : A → A → bool).

Lemma insertSorted_perm (x : A) (l : list A) :
  Permutation (insertSorted less x l) (x :: l).
Proof.
  induction l as [|y l IH]; simpl; [reflexivity|].
  destruct (less x y); [reflexivity|].
  rewrite IH. apply perm_swap.
Qed.

Lemma sortSlice_perm (l : list A) : Permutation (sortSlice less l) l.
Proof.
  induction l as [|x l IH]; simpl; [constructor|].
  rewrite insertSorted_perm. by constructor.
Qed.

Hypothesis less_asym : ∀ a b, less a b = true → less b a = false.

Lemma insertSorted_HdRel (a x : A) (l : list A) :
  inOrder less a x → HdRel (inOrder less) a l → HdRel (inOrder less) a (insertSorted less x l).
Proof.
  intros Hax Hal. destruct l as [|y l]; simpl.
  - by constructor.
  - destruct (less x y); constructor; [done|]. by inversion Hal.
Qed.

Lemma insertSorted_sorted (x : A) (l : list A) :
  Sorted (inOrder less) l → Sorted (inOrder less) (insertSorted less x l).
Proof.
  induction 1 as [|y l Hl IH Hy]; simpl.
  - repeat constructor.
  - destruct (less x y) eqn:Hxy.
    + constructor; [by constructor|]. constructor. by apply less_asym.
    + constructor; [done|]. by apply insertSorted_HdRel.
Qed.

Lemma sortSlice_sorted (l : list A) : Sorted (inOrder less) (sortSlice less l).
Proof.
  induction l as [|x l IH]; simpl; [constructor|].
  by apply insertSorted_sorted.
Qed.
End SortSlice.

Lemma lessBegin_asym (a b : SecurityQuotes) :
  lessBegin a b = true → lessBegin b a = false.
Proof. unfold lessBegin, time.After. lia. Qed.

Lemma sortSlice_lessBegin_sorted (l : list SecurityQuotes) :
  Sorted ascendingBegin (sortSlice lessBegin l).
Proof.
  eapply Sorted_ind with (P := Sorted ascendingBegin);
    [constructor| |apply (sortSlice_sorted lessBegin lessBegin_asym)].
  intros a l' _ IH Hd. constructor; [done|].
  destruct Hd as [|b l'' Hab]; constructor.
  unfold inOrder, lessBegin, time.After in Hab. unfold ascendingBegin. lia.
Qed.

(** ** binary64 comparisons *)

Lemma SFcompare_antisym (x y : spec_float) :
  SFcompare y x = CompOpp <$> SFcompare x y.
Proof.
  destruct x as [sx|sx| |sx mx ex], y as [sy|sy| |sy my ey]; simpl; try done;
    try (by destruct sx); try (by destruct sy); try (by destruct sx, sy).
  rewrite (Z.compare_antisym ex ey).
  change (PosDef.Pos.compare_cont Eq my mx) with (Pos.compare my mx).
  change (PosDef.Pos.compare_cont Eq mx my) with (Pos.compare mx my).
  rewrite (Pos.compare_antisym mx my).
  destruct sx, sy; simpl; try done;
    destruct (ex ?= ey); simpl; try done; by destruct (mx ?= my)%positive.
Qed.

Lemma float_ltb_asym (x y : float) :
  PrimFloat.ltb x y = true → PrimFloat.ltb y x = false.
Proof.
  rewrite !FloatAxioms.ltb_spec. unfold SFltb. rewrite (SFcompare_antisym (Prim2SF x)).
  by destruct (SFcompare (Prim2SF x) (Prim2SF y)) as [[]|].
Qed.

Lemma float_ltb_not_eqb (x y : float) :
  PrimFloat.ltb x y = true → PrimFloat.eqb y x = false.
Proof.
  rewrite FloatAxioms.ltb_spec, FloatAxioms.eqb_spec. unfold SFltb, SFeqb. rewrite (SFcompare_antisym (Prim2SF x)).
  by destruct (SFcompare (Prim2SF x) (Prim2SF y)) as [[]|].
Qed.

Lemma float_eqb_not_ltb (x y : float) :
  PrimFloat.eqb x y = true → PrimFloat.ltb y x = false.
Proof.
  rewrite FloatAxioms.ltb_spec, FloatAxioms.eqb_spec. unfold SFltb, SFeqb. rewrite (SFcompare_antisym (Prim2SF x)).
  by destruct (SFcompare (Prim2SF x) (Prim2SF y)) as [[]|].
Qed.

Lemma string_ltb_asym (a b : string) :
  String.ltb a b = true → String.ltb b a = false.
Proof.
  unfold String.ltb. rewrite (String.compare_antisym a b).
  by destruct (String.compare b a).
Qed.

Lemma lessChange_asym (a b : secPrices) :
  lessChange a b = true → lessChange b a = false.
Proof.
  unfold lessChange. intros H.
  apply orb_true_iff in H as [H|H].
  - rewrite (float_ltb_asym _ _ H), (float_ltb_not_eqb _ _ H). done.
  - apply andb_true_iff in H as [He Hs].
    rewrite (float_eqb_not_ltb _ _ He), (string_ltb_asym _ _ Hs).
    by destruct (PrimFloat.eqb (change b) (change a)).
Qed.

(** ** QuotesForDate and LastQuotes *)

Lemma quotesForDateStep_keep interval date acc q :
  ¬ (qualifies interval date q ∧ qEnd acc ≤ qEnd q) →
  quotesForDateStep interval date acc q = acc.
Proof.
  unfold quotesForDateStep, qualifies, time.After. intros H.
  destruct (qInterval q =? interval) eqn:Hi; simpl; [|done].
  destruct (date <? qEnd q) eqn:Hd; simpl; [done|].
  destruct (qEnd q <? qEnd acc) eqn:He; [done|]. lia.
Qed.

Lemma quotesForDateStep_take interval date acc q :
  qualifies interval date q → qEnd acc ≤ qEnd q →
  quotesForDateStep interval date acc q = q.
Proof.
  unfold quotesForDateStep, qualifies, time.After. intros [Hi Hd] He.
  replace (qInterval q =? interval) with true by lia.
  replace (date <? qEnd q) with false by lia.
  replace (qEnd q <? qEnd acc) with false by lia. done.
Qed.

Lemma quotesForDate_fold interval date (l : list SecurityQuotes) :
  ∀ acc,
    let r := foldl (quotesForDateStep interval date) acc l in
    qEnd acc ≤ qEnd r
    ∧ (∀ q, q ∈ l → qualifies interval date q → qEnd q ≤ qEnd r)
    ∧ ((r = acc ∧ ∀ q, q ∈ l → qualifies interval date q → qEnd q < qEnd acc)
       ∨ (r ∈ l ∧ qualifies interval date r)).
Proof.
  induction l as [|q l IH]; intros acc; simpl.
  - split; [lia|]. split; [by intros q ?%elem_of_nil|].
    left. split; [done|]. by intros q ?%elem_of_nil.
  - destruct (decide (qualifies interval date q ∧ qEnd acc ≤ qEnd q)) as [[Hq Hle]|Hno].
    + rewrite (quotesForDateStep_take _ _ _ _ Hq Hle).
      destruct (IH q) as (Hge & Hmax & Hres).
      split; [lia|]. split.
      * intros q' [->|Hin]%elem_of_cons ?; [done|by apply Hmax].
      * right. destruct Hres as [[-> _]|[Hin Hr]].
        -- split; [by left|done].
        -- split; [by right|done].
    + rewrite (quotesForDateStep_keep _ _ _ _ Hno).
      destruct (IH acc) as (Hge & Hmax & Hres).
      split; [done|]. split.
      * intros q' [->|Hin]%elem_of_cons Hq'; [|by apply Hmax].
        destruct (decide (qEnd acc ≤ qEnd q)); [by destruct Hno|lia].
      * destruct Hres as [[Hr Hlt]|[Hin Hr]].
        -- left. split; [done|].
           intros q' [->|Hin]%elem_of_cons Hq'; [|by apply Hlt].
           destruct (decide (qEnd acc ≤ qEnd q)); [by destruct Hno|lia].
        -- right. split; [by right|done].
Qed.

(** C10, counterexample: the only day quote of [secBeforeZero] ends before
    January 1, 2024, yet [QuotesForDate] for that date answers the zero
    value, which is no quote of the security: the search starts from the
    zero value, whose end, the zero Time, is after the quote's end. *)
Lemma QuotesForDate_before_zero_time :
  ¬ QuotesForDate_claim secBeforeZero IntervalDay (time.Date 2024 1 1 0 0 0).
Proof.
  intros [Hsome _].
  destruct Hsome as (Hin & _).
  - eexists. split; [by apply list_elem_of_singleton|]. by vm_compute.
  - change (QuotesForDate secBeforeZero IntervalDay (time.Date 2024 1 1 0 0 0))
      with zeroQuotes in Hin.
    apply list_elem_of_singleton in Hin.
    apply (f_equal qInterval) in Hin. discriminate Hin.
Qed.

(** C10, amended: [QuotesForDate] is a total function that returns a quote
    and no error.  If some quote of the interval ends not after the date
    and not before the zero Time, the answer is a quote of the security, of
    that interval, ending not after the date, and no such quote ends later.
    If no quote of the interval ends not after the date, or all that do end
    before the zero Time, the answer is the zero value (interval 0, zero
    begin and end, all prices 0), so its close is 0.  [LastQuotes] is
    [QuotesForDate] at January 1, 3000. *)
Theorem QuotesForDate_last (s : Security) (interval : QuotesInterval)
    (date : time.Time) :
  let r := QuotesForDate s interval date in
  ((∃ q, q ∈ Quotes s ∧ qualifies interval date q ∧ time.zero ≤ qEnd q) →
   r ∈ Quotes s ∧ qualifies interval date r
   ∧ ∀ q, q ∈ Quotes s → qualifies interval date q → qEnd q ≤ qEnd r)
  ∧ ((∀ q, q ∈ Quotes s → qualifies interval date q → qEnd q < time.zero) →
     r = zeroQuotes ∧ qClose r = 0%float)
  ∧ ((∀ q, q ∈ Quotes s → ¬ qualifies interval date q) →
     r = zeroQuotes ∧ qClose r = 0%float)
  ∧ zeroQuotes = mkQuotes 0 time.zero time.zero 0%float 0%float 0%float 0%float
  ∧ LastQuotes s interval = QuotesForDate s interval (time.Date 3000 1 1 0 0 0).
Proof.
  intros r.
  destruct (quotesForDate_fold interval date (Quotes s) zeroQuotes)
    as (Hge & Hmax & Hres).
  fold (QuotesForDate s interval date) in Hge, Hmax, Hres. fold r in Hge, Hmax, Hres.
  change (qEnd zeroQuotes) with 0 in Hge, Hres. unfold time.zero.
  assert ((∀ q, q ∈ Quotes s → qualifies interval date q → qEnd q < 0) →
          r = zeroQuotes ∧ qClose r = 0%float) as Hzero.
  { intros Hall. destruct Hres as [[Hr _]|[Hin Hr]]; [by rewrite Hr|].
    specialize (Hall r Hin Hr). lia. }
  split; [|split; [done|split; [|done]]].
  - intros (q & Hin & Hq & Hz).
    destruct Hres as [[_ Hlt]|[Hr Hqr]]; [|done].
    specialize (Hlt q Hin Hq). lia.
  - intros Hnone. apply Hzero. intros q Hin Hq. by destruct (Hnone q Hin).
Qed.

(** ** The changes of getSecurityDataHandler *)

Lemma changesStep_fold dateFrom dateTill (quotes : list SecurityQuotes) :
  ∀ st,
    expSeqQuotes (foldl (changesStep dateFrom dateTill) st quotes)
    = (expSeqQuotes st
       ++ changesFrom (startPrice st) (prevPrice st)
            (filter (inWindow dateFrom dateTill) quotes))%list.
Proof.
  induction quotes as [|q quotes IH]; intros st; simpl.
  - by rewrite app_nil_r.
  - rewrite IH. unfold changesStep, time.After.
    destruct (decide (inWindow dateFrom dateTill q)) as [Hin|Hout].
    + rewrite (filter_cons_True _ _ _ Hin). destruct Hin.
      replace (qEnd q <? dateFrom) with false by lia.
      replace (dateTill <? qEnd q) with false by lia.
      simpl. by rewrite <- app_assoc.
    + rewrite (filter_cons_False _ _ _ Hout). unfold inWindow in Hout.
      destruct (qEnd q <? dateFrom) eqn:H1; simpl; [done|].
      destruct (dateTill <? qEnd q) eqn:H2; [done|]. lia.
Qed.

Lemma deriveChanges_changesFrom quotes dateFrom dateTill :
  deriveChanges quotes dateFrom dateTill
  = changesFrom 0%float 0%float (filter (inWindow dateFrom dateTill) quotes).
Proof. unfold deriveChanges. by rewrite changesStep_fold. Qed.

Lemma changesFrom_quotes start prev kept :
  map expQuotes (changesFrom start prev kept) = kept.
Proof.
  revert start prev. induction kept as [|q kept IH]; intros; simpl; [done|].
  by rewrite IH.
Qed.

Lemma changesFrom_Change start prev kept :
  map Change (changesFrom start prev kept)
  = zip_with changeFrom (prev :: map qClose kept) (map qClose kept).
Proof.
  revert start prev. induction kept as [|q kept IH]; intros; simpl; [done|].
  by rewrite IH.
Qed.

Lemma changesFrom_TotalChange_started start prev kept :
  PrimFloat.eqb start 0%float = false →
  map TotalChange (changesFrom start prev kept)
  = map (λ q, changeFrom start (qClose q)) kept.
Proof.
  intros Hs. revert prev. induction kept as [|q kept IH]; intros; simpl; [done|].
  rewrite Hs. simpl. by rewrite IH.
Qed.

Lemma changeFrom_zero price close :
  PrimFloat.eqb price 0%float = true → changeFrom price close = 0%float.
Proof. unfold changeFrom. by intros ->. Qed.

Lemma changeFrom_nonzero price close :
  PrimFloat.eqb price 0%float = false →
  changeFrom price close
  = PrimFloat.mul (PrimFloat.div (PrimFloat.sub close price) price) 100%float.
Proof. unfold changeFrom. by intros ->. Qed.

Lemma changesFrom_TotalChange_waiting start prev pre q0 post :
  PrimFloat.eqb start 0%float = true →
  Forall (λ q, PrimFloat.eqb (qClose q) 0%float = true) pre →
  PrimFloat.eqb (qClose q0) 0%float = false →
  map TotalChange (changesFrom start prev (pre ++ q0 :: post))
  = (map (λ _, 0%float) pre
     ++ 0%float :: map (λ q, changeFrom (qClose q0) (qClose q)) post)%list.
Proof.
  intros Hs Hpre H0. revert start prev Hs.
  induction Hpre as [|q pre Hq Hpre IH]; intros start prev Hs; simpl.
  - rewrite Hs, (changeFrom_zero _ _ Hs). simpl.
    by rewrite changesFrom_TotalChange_started.
  - rewrite Hs, (changeFrom_zero _ _ Hs). simpl. by rewrite IH.
Qed.

Lemma changesFrom_TotalChange_never start prev kept :
  PrimFloat.eqb start 0%float = true →
  Forall (λ q, PrimFloat.eqb (qClose q) 0%float = true) kept →
  map TotalChange (changesFrom start prev kept) = map (λ _, 0%float) kept.
Proof.
  intros Hs Hk. revert start prev Hs.
  induction Hk as [|q kept Hq Hk IH]; intros start prev Hs; simpl; [done|].
  rewrite Hs, (changeFrom_zero _ _ Hs). simpl. by rewrite IH.
Qed.

Lemma StronglySorted_filter {A : Type} (R : relation A) (P : A → Prop)
    `{!∀ x, Decision (P x)} (l : list A) :
  StronglySorted R l → StronglySorted R (filter P l).
Proof.
  induction 1 as [|x l Hl IH Hx]; [constructor|].
  rewrite filter_cons. destruct (decide (P x)); [|done].
  constructor; [done|]. rewrite Forall_forall in Hx. apply Forall_forall.
  intros y [_ Hy]%list_elem_of_filter. by apply Hx.
Qed.

Lemma Sorted_ascendingBegin_filter (P : SecurityQuotes → Prop)
    `{!∀ q, Decision (P q)} (l : list SecurityQuotes) :
  Sorted ascendingBegin l → Sorted ascendingBegin (filter P l).
Proof.
  intros Hl. apply StronglySorted_Sorted. apply StronglySorted_filter.
  apply Sorted_StronglySorted; [apply _|done].
Qed.

(** C3, counterexample: when the first retained quote closes at 0, the
    loop takes the next close that is not 0 as [startPrice]: for the closes
    0, 5, 10 the total changes are 0, 0, 100, where a baseline fixed at
    the first close would give 0, 0, 0. *)
Lemma deriveChanges_baseline_moves :
  map TotalChange (deriveChanges quotesFromZero 0 259199)
  = [0%float; 0%float; 100%float]
  ∧ ¬ DeriveChanges_claim quotesFromZero 0 259199.
Proof.
  split; [by vm_compute|].
  intros [_ H]. vm_compute in H. destruct H as [_ H].
  apply (f_equal (λ l, match l with
                       | [_; _; x] => PrimFloat.eqb x 0%float
                       | _ => true
                       end)) in H.
  vm_compute in H. discriminate H.
Qed.

(** C3, amended: [deriveChanges] retains exactly the quotes whose end lies
    in the window, in the order of the series, which is ascending by begin
    when the series is.  The day change of a
    retained quote is [(close - prevClose) / prevClose * 100] for the close
    of the retained quote before it, and 0 for the first one or after a
    close of 0.  The baseline is the close of the first retained quote
    whose close is not 0: the total change is 0 up to and including that
    quote, [(close - baseline) / baseline * 100] after it, and 0 throughout
    when every close is 0.  A divisor of 0 always gives 0.  The closes
    100, 110, 99 give the day changes 0, 10, -10 and the total changes
    0, 10, -1. *)
Theorem deriveChanges_spec (quotes : list SecurityQuotes)
    (dateFrom dateTill : time.Time) :
  let kept := filter (inWindow dateFrom dateTill) quotes in
  let out := deriveChanges quotes dateFrom dateTill in
  map expQuotes out = kept
  ∧ (Sorted ascendingBegin quotes → Sorted ascendingBegin (map expQuotes out))
  ∧ map Change out
    = zip_with changeFrom (0%float :: map qClose kept) (map qClose kept)
  ∧ (∀ pre q0 post,
       kept = (pre ++ q0 :: post)%list →
       Forall (λ q, PrimFloat.eqb (qClose q) 0%float = true) pre →
       PrimFloat.eqb (qClose q0) 0%float = false →
       map TotalChange out
       = (map (λ _, 0%float) pre
          ++ 0%float :: map (λ q, changeFrom (qClose q0) (qClose q)) post)%list)
  ∧ (Forall (λ q, PrimFloat.eqb (qClose q) 0%float = true) kept →
     map TotalChange out = map (λ _, 0%float) kept)
  ∧ (∀ price close,
       (PrimFloat.eqb price 0%float = true → changeFrom price close = 0%float)
       ∧ (PrimFloat.eqb price 0%float = false →
          changeFrom price close
          = PrimFloat.mul (PrimFloat.div (PrimFloat.sub close price) price)
              100%float))
  ∧ (map qClose kept = [100%float; 110%float; 99%float] →
     map Change out = [0%float; 10%float; (-10)%float]
     ∧ map TotalChange out = [0%float; 10%float; (-1)%float]).
Proof.
  intros kept out. unfold out. rewrite deriveChanges_changesFrom. fold kept.
  split; [apply changesFrom_quotes|].
  split; [rewrite changesFrom_quotes; apply Sorted_ascendingBegin_filter|].
  split; [apply changesFrom_Change|].
  split; [by intros pre q0 post -> Hpre H0; apply changesFrom_TotalChange_waiting|].
  split; [by apply changesFrom_TotalChange_never|].
  split; [intros; split; [apply changeFrom_zero|apply changeFrom_nonzero]|].
  intros Hc. rewrite changesFrom_Change, Hc.
  split; [by vm_compute|].
  destruct kept as [|a [|b [|c [|d kept']]]]; try discriminate Hc.
  injection Hc as Ha Hb Hc. simpl. rewrite Ha, Hb, Hc. by vm_compute.
Qed.

(** ** Sortedness of the quotes of a security *)

Lemma fifo_interleaves : interleaves fifo.
Proof. by intros A l. Qed.

Lemma lifo_interleaves : interleaves lifo.
Proof. intros A l. symmetry. apply Permutation_rev. Qed.

Lemma foldl_SetQuotes (l : list SecurityQuotes) (s : Security) :
  foldl SetQuotes s l
  = mkSecurity (Id s) (Name s) (SType s) (SecCurrency s) (Quotes s ++ l).
Proof.
  revert s. induction l as [|q l IH]; intros s; simpl.
  - rewrite app_nil_r. by destruct s.
  - rewrite IH. simpl. by rewrite <- app_assoc.
Qed.

Lemma selectQuotesOfSecurity_NoDup (db : DB) (id : string) :
  NoDup (map (λ q, (qInterval q, qBegin q))
           (map rowQuotes (selectQuotesOfSecurity db id))).
Proof.
  unfold selectQuotesOfSecurity. rewrite map_map.
  set (m := filter _ _).
  apply (NoDup_fmap_2_strong
           (λ kv : quotesKey * quotesRow, (qInterval (rowQuotes kv), qBegin (rowQuotes kv)))
           (map_to_list m)); [|apply NoDup_map_to_list].
  intros [k1 v1] [k2 v2] H1 H2 Heq. simpl in Heq.
  apply elem_of_map_to_list in H1, H2.
  apply map_lookup_filter_Some in H1 as [H1 Hid1], H2 as [H2 Hid2].
  simpl in Hid1, Hid2.
  assert (k1 = k2) as ->.
  { destruct k1 as [[i1 b1] n1], k2 as [[i2 b2] n2]. simpl in *. congruence. }
  congruence.
Qed.

Lemma GetSecurityQuotes_appends (ex : Exchange) (arrival : Scheduler) (sec sec' : Security)
    (dateFrom dateTill : time.Time) (interval : QuotesInterval) :
  GetSecurityQuotes ex arrival sec dateFrom dateTill interval = (sec', None) →
  ∃ data,
    requestCandles ex sec dateFrom dateTill interval = (data, None)
    ∧ Quotes sec'
      = Quotes sec ++ sortSlice lessBegin (arrival _ (map (candleQuotes interval) data)).
Proof.
  unfold GetSecurityQuotes.
  destruct (requestCandles ex sec dateFrom dateTill interval) as [data [err|]];
    [done|].
  intros [= <-]. by exists data.
Qed.

Lemma GetSecurityData_quotes (arrival : Scheduler) (db : DB) (sec sec' : Security) :
  GetSecurityData arrival db sec = (sec', None) →
  Quotes sec'
  = sortSlice lessBegin
      (Quotes sec
       ++ arrival _ (map rowQuotes (selectQuotesOfSecurity db (Id sec)))).
Proof.
  unfold GetSecurityData.
  destruct (SecurityExists db (Id sec) (SType sec)) as [[|] [err|]]; try done.
  destruct (securities db !! Id sec) as [r|]; [|done].
  intros [= <-]. by rewrite foldl_SetQuotes.
Qed.

(** C4, counterexample: [GetSecurityQuotes] appends what it fetched to the
    quotes the security holds already, and removes no duplicate.  Fetching
    the same two candles twice into one security leaves four quotes that
    are neither sorted nor free of repeated begins; and one answer of the
    exchange with a repeated candle leaves a repeated begin in a security
    that held no quotes. *)
Lemma GetSecurityQuotes_twice_unsorted :
  let from := time.Date 2022 1 1 0 0 0 in
  let till := time.Date 2022 1 31 0 0 0 in
  let fetch ex sec := GetSecurityQuotes ex fifo sec from till IntervalDay in
  let once := fetch exTwoCandles (GetQuickSecurity "GAZP" Share) in
  let twice := fetch exTwoCandles once.1 in
  let repeated := fetch exRepeatedCandle (GetQuickSecurity "GAZP" Share) in
  once.2 = None ∧ twice.2 = None ∧ repeated.2 = None
  ∧ ¬ Sorted ascendingBegin (Quotes twice.1)
  ∧ ¬ NoDup (map (λ q, (qInterval q, qBegin q)) (Quotes twice.1))
  ∧ ¬ seriesInvariant (Quotes twice.1)
  ∧ ¬ seriesInvariant (Quotes repeated.1).
Proof.
  intros from till fetch once twice repeated.
  assert (¬ Sorted ascendingBegin (Quotes twice.1)) as Hs.
  { intros H. apply (bool_decide_pack _) in H. by vm_compute in H. }
  assert (¬ NoDup (map (λ q, (qInterval q, qBegin q)) (Quotes twice.1))) as Hd.
  { intros H. apply (bool_decide_pack _) in H. by vm_compute in H. }
  assert (¬ NoDup (map (λ q, (qInterval q, qBegin q)) (Quotes repeated.1))) as Hr.
  { intros H. apply (bool_decide_pack _) in H. by vm_compute in H. }
  repeat split; try done; by intros [? ?].
Qed.

(** C4, amended: whatever the order in which the per-row goroutines
    append, [GetSecurityData] leaves the whole quote list of the security
    sorted ascending by begin, a rearrangement of the quotes it held
    followed by the rows of the table, and [GetSecurityQuotes] appends to
    the quotes the security held the fetched quotes sorted ascending by
    begin, so that the list of a security that held none is sorted.
    Neither removes a duplicate: a security that held no quotes has no two
    quotes of one interval with the same begin after [GetSecurityData]
    (the primary key of the table), and after [GetSecurityQuotes] when no
    two candles of the answer have the same begin. *)
Theorem quotes_sorted_after_load (arrival : Scheduler) (ex : Exchange) (db : DB)
    (sec sec' : Security) (dateFrom dateTill : time.Time)
    (interval : QuotesInterval) :
  interleaves arrival →
  (GetSecurityData arrival db sec = (sec', None) →
   Sorted ascendingBegin (Quotes sec')
   ∧ Permutation (Quotes sec')
       (Quotes sec ++ map rowQuotes (selectQuotesOfSecurity db (Id sec)))
   ∧ (Quotes sec = [] → seriesInvariant (Quotes sec')))
  ∧ (GetSecurityQuotes ex arrival sec dateFrom dateTill interval = (sec', None) →
     ∃ data fetched,
       requestCandles ex sec dateFrom dateTill interval = (data, None)
       ∧ Quotes sec' = Quotes sec ++ fetched
       ∧ Sorted ascendingBegin fetched
       ∧ Permutation fetched (map (candleQuotes interval) data)
       ∧ (Quotes sec = [] → Sorted ascendingBegin (Quotes sec'))
       ∧ (Quotes sec = [] → NoDup (map cBegin data) →
          seriesInvariant (Quotes sec'))).
Proof.
  intros Harr. split.
  - intros H%GetSecurityData_quotes. rewrite H.
    assert (Permutation
              (sortSlice lessBegin
                 (Quotes sec
                  ++ arrival _ (map rowQuotes (selectQuotesOfSecurity db (Id sec)))))
              (Quotes sec ++ map rowQuotes (selectQuotesOfSecurity db (Id sec))))
      as Hperm.
    { rewrite sortSlice_perm. by rewrite (Harr _ _). }
    split; [apply sortSlice_lessBegin_sorted|]. split; [done|].
    intros Hnil. split; [apply sortSlice_lessBegin_sorted|].
    rewrite Hperm, Hnil. simpl. apply selectQuotesOfSecurity_NoDup.
  - intros (data & Hreq & Hq)%GetSecurityQuotes_appends.
    exists data, (sortSlice lessBegin (arrival _ (map (candleQuotes interval) data))).
    assert (Permutation
              (sortSlice lessBegin (arrival _ (map (candleQuotes interval) data)))
              (map (candleQuotes interval) data)) as Hperm.
    { rewrite sortSlice_perm. by rewrite (Harr _ _). }
    split; [done|]. split; [done|].
    split; [apply sortSlice_lessBegin_sorted|]. split; [done|].
    split.
    + intros Hnil. rewrite Hq, Hnil. apply sortSlice_lessBegin_sorted.
    + intros Hnil Hnd. rewrite Hq, Hnil. simpl.
      split; [apply sortSlice_lessBegin_sorted|].
      rewrite Hperm, map_map. simpl.
      apply (NoDup_fmap_2 (λ b : Z, (interval, b))) in Hnd.
      by rewrite <- list_fmap_compose in Hnd.
Qed.

(** The theorem at work: GAZP loaded from [dbGAZP], the rows handed over
    last first. *)
Lemma quotes_sorted_after_load_witness :
  let loaded := (GetSecurityData lifo dbGAZP (GetQuickSecurity "GAZP" Share)).1 in
  interleaves lifo ∧ seriesInvariant (Quotes loaded) ∧ length (Quotes loaded) = 2%nat.
Proof.
  split; [exact lifo_interleaves|]. split; [|by vm_compute].
  apply (quotes_sorted_after_load lifo exTwoCandles dbGAZP
           (GetQuickSecurity "GAZP" Share) _ 0 0 IntervalDay lifo_interleaves);
    [by vm_compute|done].
Defined.

(** ** The ranking of securityListHandler *)

Lemma inOrder_rankedBefore (a b : secPrices) :
  inOrder lessChange a b → rankedBefore a b.
Proof.
  unfold inOrder, lessChange, rankedBefore. intros H.
  apply orb_false_iff in H as [H1 H2]. split; [done|].
  intros He. by rewrite He in H2.
Qed.

Lemma Sorted_weaken {A : Type} (R S : A → A → Prop) (l : list A) :
  (∀ a b, R a b → S a b) → Sorted R l → Sorted S l.
Proof.
  intros HRS. induction 1 as [|a l Hl IH Hd]; constructor; [done|].
  destruct Hd; constructor. by apply HRS.
Qed.

(** C8: for the securities whose quotes were updated, whatever the order
    in which their goroutines append, the ranking holds one entry per
    security, with the open of the quotes found for the first day as
    [priceBegin], the close of the quotes found for the last day as
    [priceEnd], and [change = round((priceEnd - priceBegin) / priceBegin *
    10000) / 100] when [priceBegin > 0] and 0 otherwise; the entries are
    sorted ascending by change, equal changes ascending by id.  A (10, 12)
    and B (50, 45) give the changes 20 and -10 and the order B, A. *)
Theorem rankPeriodChange_spec (arrival : Scheduler) (updated : list Security)
    (dateFrom dateTill : time.Time) :
  interleaves arrival →
  let ranked := rankPeriodChange arrival updated dateFrom dateTill in
  Permutation ranked (map (λ sec, securityPrices sec dateFrom dateTill) updated)
  ∧ Forall (λ r,
      (PrimFloat.ltb 0%float (priceBegin r) = true →
       change r
       = PrimFloat.div
           (mathRound
              (PrimFloat.mul
                 (PrimFloat.div (PrimFloat.sub (priceEnd r) (priceBegin r))
                    (priceBegin r))
                 10000%float))
           100%float)
      ∧ (PrimFloat.ltb 0%float (priceBegin r) = false → change r = 0%float))
      ranked
  ∧ Sorted rankedBefore ranked
  ∧ rankPeriodChange arrival [secA; secB]
      (time.Date 2022 1 3 0 0 0) (time.Date 2022 1 3 23 59 59)
    = [mkSecPrices "B" 50%float 45%float (-10)%float;
       mkSecPrices "A" 10%float 12%float 20%float].
Proof.
  intros Harr ranked.
  assert (Permutation ranked
            (map (λ sec, securityPrices sec dateFrom dateTill) updated)) as Hperm.
  { unfold ranked, rankPeriodChange. rewrite sortSlice_perm. apply Harr. }
  split; [done|]. split; [|split].
  - rewrite Hperm. apply Forall_forall. intros r Hin.
    apply list_elem_of_In, in_map_iff in Hin as (sec & <- & _).
    unfold securityPrices, periodChange.
    simpl. split; by intros ->.
  - apply (Sorted_weaken (inOrder lessChange)); [apply inOrder_rankedBefore|].
    apply sortSlice_sorted, lessChange_asym.
  - unfold rankPeriodChange.
    set (prices := map _ [secA; secB]).
    destruct (Permutation_length_2_inv
                (Permutation_sym (Harr _ prices))) as [-> | ->];
      by vm_compute.
Qed.

(** The theorem at work: A and B ranked, the entries handed over last
    first. *)
Lemma rankPeriodChange_spec_witness :
  interleaves lifo
  ∧ map sp_id
      (rankPeriodChange lifo [secA; secB]
         (time.Date 2022 1 3 0 0 0) (time.Date 2022 1 3 23 59 59))
    = ["B"; "A"].
Proof.
  split; [exact lifo_interleaves|].
  pose proof (rankPeriodChange_spec lifo [secA; secB]
                (time.Date 2022 1 3 0 0 0) (time.Date 2022 1 3 23 59 59)
                lifo_interleaves) as (_ & _ & _ & H).
  by rewrite H.
Defined.

(** ** The two versions of SecurityExists *)

Lemma scanForId_elem (rows : list string) (id : string) :
  scanForId rows id = true ↔ id ∈ rows.
Proof.
  induction rows as [|row rows IH]; simpl.
  - split; [done|by intros ?%elem_of_nil].
  - destruct (String.eqb_spec row id) as [->|Hne].
    + split; [by left|done].
    + rewrite IH. split; [by right|].
      by intros [->|?]%elem_of_cons.
Qed.

Lemma selectIdsOfType_elem (db : DB) (sType : SecurityType) (id : string) :
  id ∈ selectIdsOfType db sType
  ↔ ∃ r, securities db !! id = Some r ∧ col_type r = sType.
Proof.
  unfold selectIdsOfType. rewrite list_elem_of_fmap. split.
  - intros ([id' r] & -> & Hin). simpl.
    apply elem_of_map_to_list, map_lookup_filter_Some in Hin as [Hl Ht].
    by exists r.
  - intros (r & Hl & Ht). exists (id, r). split; [done|].
    by apply elem_of_map_to_list, map_lookup_filter_Some.
Qed.

Lemma selectIdOfIdAndType_nonempty (db : DB) (id : string) (sType : SecurityType) :
  selectIdOfIdAndType db id sType ≠ []
  ↔ ∃ r, securities db !! id = Some r ∧ col_type r = sType.
Proof.
  unfold selectIdOfIdAndType. destruct (securities db !! id) as [r|].
  - destruct (String.eqb_spec (col_type r) sType) as [Ht|Ht].
    + split; [by exists r|done].
    + split; [done|]. by intros (r' & [= <-] & ?).
  - split; [done|]. by intros (r' & ? & ?).
Qed.

Lemma checkKey_rejects (id : string) (sType : SecurityType) :
  (∃ err, checkKey id sType = Some err)
  ↔ id = "" ∨ sType = "" ∨ sType = UnknownType.
Proof.
  unfold checkKey.
  destruct (String.eqb_spec id "") as [->|Hid].
  { split; [by left|by eexists]. }
  destruct (String.eqb_spec sType "") as [->|Hty]; simpl.
  { split; [by right; left|by eexists]. }
  destruct (String.eqb_spec sType UnknownType) as [->|Hun].
  { split; [by right; right|by eexists]. }
  split; [by intros [? ?]|]. by intros [?|[?|?]].
Qed.

Lemma selectIdsOfType_collated_elem (same : Collation) (db : DB)
    (sType : SecurityType) (id : string) :
  id ∈ selectIdsOfType_collated same db sType
  ↔ ∃ r, securities db !! id = Some r ∧ same (col_type r) sType = true.
Proof.
  unfold selectIdsOfType_collated. rewrite list_elem_of_fmap. split.
  - intros ([id' r] & -> & Hin). simpl.
    apply elem_of_map_to_list, map_lookup_filter_Some in Hin as [Hl Ht].
    by exists r.
  - intros (r & Hl & Ht). exists (id, r). split; [done|].
    by apply elem_of_map_to_list, map_lookup_filter_Some.
Qed.

Lemma selectIdOfIdAndType_collated_nonempty (same : Collation) (db : DB)
    (id : string) (sType : SecurityType) :
  selectIdOfIdAndType_collated same db id sType ≠ []
  ↔ ∃ id' r, securities db !! id' = Some r
             ∧ same id' id = true ∧ same (col_type r) sType = true.
Proof.
  unfold selectIdOfIdAndType_collated. split.
  - intros Hne.
    destruct (map_to_list _) as [|[id' r] rows] eqn:Hrows; [done|].
    assert ((id', r) ∈ (id', r) :: rows) as Hin by by left.
    rewrite <- Hrows in Hin.
    apply elem_of_map_to_list, map_lookup_filter_Some in Hin as [Hl [Hi Ht]].
    by exists id', r.
  - intros (id' & r & Hl & Hi & Ht) Hnil.
    apply fmap_nil_inv in Hnil.
    assert ((id', r) ∈ map_to_list
              (filter (λ kv, same kv.1 id = true ∧ same (col_type kv.2) sType = true)
                 (securities db))) as Hin
      by by apply elem_of_map_to_list, map_lookup_filter_Some.
    rewrite Hnil in Hin. by apply elem_of_nil in Hin.
Qed.

Lemma SecurityExists_earlier_collated_found (same : Collation) (db : DB)
    (id : string) (sType : SecurityType) (found : bool) :
  SecurityExists_earlier_collated same db id sType = (found, None) →
  found = true ↔ ∃ r, securities db !! id = Some r ∧ same (col_type r) sType = true.
Proof.
  unfold SecurityExists_earlier_collated.
  destruct (checkKey id sType); [done|]. intros [= <-].
  by rewrite scanForId_elem, selectIdsOfType_collated_elem.
Qed.

Lemma SecurityExists_collated_found (same : Collation) (db : DB)
    (id : string) (sType : SecurityType) (found : bool) :
  SecurityExists_collated same db id sType = (found, None) →
  found = true ↔ ∃ id' r, securities db !! id' = Some r
                          ∧ same id' id = true ∧ same (col_type r) sType = true.
Proof.
  unfold SecurityExists_collated.
  destruct (checkKey id sType); [done|].
  rewrite <- selectIdOfIdAndType_collated_nonempty.
  destruct (selectIdOfIdAndType_collated same db id sType); intros [= <-]; by split.
Qed.

Lemma SecurityExists_collated_binary (db : DB) (id : string) (sType : SecurityType) :
  SecurityExists_earlier_collated String.eqb db id sType
  = SecurityExists_earlier db id sType
  ∧ SecurityExists_collated String.eqb db id sType = SecurityExists db id sType.
Proof.
  split.
  - unfold SecurityExists_earlier_collated, SecurityExists_earlier.
    destruct (checkKey id sType); [done|]. f_equal.
    apply eq_true_iff_eq.
    rewrite !scanForId_elem, selectIdsOfType_collated_elem, selectIdsOfType_elem.
    split; intros (r & Hr & Ht); exists r; split; try done; by apply String.eqb_eq.
  - pose proof (SecurityExists_collated_found String.eqb db id sType) as Hc.
    pose proof (selectIdOfIdAndType_nonempty db id sType) as Hs.
    unfold SecurityExists_collated, SecurityExists in *.
    destruct (checkKey id sType); [done|].
    assert ((∃ id' r, securities db !! id' = Some r
                      ∧ String.eqb id' id = true ∧ String.eqb (col_type r) sType = true)
            ↔ ∃ r, securities db !! id = Some r ∧ col_type r = sType) as Hsame.
    { split.
      - intros (id' & r & Hr & Hi%String.eqb_eq & Ht%String.eqb_eq). subst. by exists r.
      - intros (r & Hr & Ht). exists id, r. by rewrite !String.eqb_eq. }
    destruct (selectIdOfIdAndType_collated String.eqb db id sType) as [|x xs],
      (selectIdOfIdAndType db id sType) as [|y ys]; try done.
    + assert (false = true) as Hno; [|done].
      apply (Hc false eq_refl), Hsame, Hs. done.
    + assert (∃ r, securities db !! id = Some r ∧ col_type r = sType) as H
        by (apply Hsame, (Hc true eq_refl); done).
      by apply Hs in H.
Qed.

(** C9, amended: let the server compare strings by any collation under
    which a string is the same as itself, and let the type be one that
    stands for itself in the text of the earlier query.  Both versions of
    [SecurityExists] return an error, the same one, exactly for an empty id
    and for an empty or unknown type, whatever the database holds.
    Otherwise neither returns an error; the later version returns [true]
    exactly when some row has an id and a type that the collation takes for
    the id and the type asked for, the earlier one exactly when the row
    with the very id asked for has such a type.  So what the earlier
    version finds the later one finds, and the two agree whenever a row
    that the later version matches is there under the very id asked for:
    always, when the server compares strings as they are, where the two
    versions are the ones of the other sections. *)
Theorem SecurityExists_versions_agree (same : Collation) (db : DB) (id : string)
    (sType : SecurityType) :
  (∀ s, same s s = true) →
  plainLiteral sType = true →
  let earlier := SecurityExists_earlier_collated same db id sType in
  let later := SecurityExists_collated same db id sType in
  ((∃ err, later = (false, Some err)) ↔ id = "" ∨ sType = "" ∨ sType = UnknownType)
  ∧ (∀ err db',
       later = (false, Some err) ∨ earlier = (false, Some err) →
       SecurityExists_collated same db' id sType = (false, Some err)
       ∧ SecurityExists_earlier_collated same db' id sType = (false, Some err))
  ∧ (∀ found,
       later = (found, None) →
       (found = true
        ↔ ∃ id' r, securities db !! id' = Some r
                   ∧ same id' id = true ∧ same (col_type r) sType = true))
  ∧ (∀ found,
       earlier = (found, None) →
       (found = true
        ↔ ∃ r, securities db !! id = Some r ∧ same (col_type r) sType = true))
  ∧ (earlier = (true, None) → later = (true, None))
  ∧ ((∀ id' r, securities db !! id' = Some r →
               same id' id = true → same (col_type r) sType = true →
               ∃ r', securities db !! id = Some r' ∧ same (col_type r') sType = true) →
     earlier = later)
  ∧ (SecurityExists_earlier_collated String.eqb db id sType
     = SecurityExists_earlier db id sType
     ∧ SecurityExists_collated String.eqb db id sType = SecurityExists db id sType
     ∧ SecurityExists_earlier db id sType = SecurityExists db id sType).
Proof.
  intros Hrefl _ earlier later.
  pose proof (checkKey_rejects id sType) as Hrej.
  pose proof (SecurityExists_earlier_collated_found same db id sType) as He.
  pose proof (SecurityExists_collated_found same db id sType) as Hl.
  fold earlier in He. fold later in Hl.
  assert (earlier = (true, None) → later = (true, None)) as Himp.
  { intros Hearlier. destruct (proj1 (He true Hearlier) eq_refl) as (r & Hr & Ht).
    unfold earlier, later, SecurityExists_earlier_collated, SecurityExists_collated in *.
    destruct (checkKey id sType); [done|].
    destruct (selectIdOfIdAndType_collated same db id sType) eqn:Hsel; [|done].
    exfalso. eapply selectIdOfIdAndType_collated_nonempty; [|exact Hsel].
    exists id, r. by rewrite Hrefl. }
  split; [|split; [|split; [|split; [|split; [|split]]]]]; try done.
  - unfold later, SecurityExists_collated.
    destruct (checkKey id sType) as [err|].
    + split; [intros _; apply Hrej; by eexists|by eexists].
    + split.
      * intros [err H]. by destruct (selectIdOfIdAndType_collated same db id sType).
      * intros H. apply Hrej in H as [? [=]].
  - intros err db'.
    unfold later, earlier, SecurityExists_collated, SecurityExists_earlier_collated.
    destruct (checkKey id sType) as [err'|].
    + by intros [[= <-]|[= <-]].
    + intros [H|H]; [|done].
      by destruct (selectIdOfIdAndType_collated same db id sType).
  - intros Hcond.
    destruct earlier as [be [ee|]] eqn:Hearlier, later as [bl [el|]] eqn:Hlater.
    + unfold earlier, later, SecurityExists_collated, SecurityExists_earlier_collated in *.
      destruct (checkKey id sType); [congruence|].
      by destruct (selectIdOfIdAndType_collated same db id sType).
    + exfalso.
      unfold earlier, later, SecurityExists_collated, SecurityExists_earlier_collated in *.
      by destruct (checkKey id sType).
    + exfalso.
      unfold earlier, later, SecurityExists_collated, SecurityExists_earlier_collated in *.
      destruct (checkKey id sType); [done|].
      by destruct (selectIdOfIdAndType_collated same db id sType).
    + f_equal. apply eq_true_iff_eq.
      rewrite (He be eq_refl), (Hl bl eq_refl). split.
      * intros (r & Hr & Ht). exists id, r. by rewrite Hrefl.
      * intros (id' & r & Hr & Hi & Ht). by apply (Hcond id' r).
  - pose proof (SecurityExists_collated_binary db id sType) as [H1 H2].
    split; [done|]. split; [done|].
    unfold SecurityExists_earlier, SecurityExists.
    pose proof (selectIdOfIdAndType_nonempty db id sType) as Hsel.
    pose proof (scanForId_elem (selectIdsOfType db sType) id) as Hscan.
    rewrite selectIdsOfType_elem in Hscan.
    destruct (checkKey id sType) as [err|]; [done|].
    destruct (selectIdOfIdAndType db id sType) as [|row rows].
    + destruct (scanForId _ id); [|done].
      destruct (proj2 Hsel (proj1 Hscan eq_refl)). done.
    + rewrite (proj2 Hscan); [done|]. by apply Hsel.
Qed.

(** The theorem at work: GAZP asked for in capitals, as it is stored,
    under a collation that ignores the case of letters. *)
Lemma SecurityExists_versions_agree_witness :
  (∀ s, asciiCaseInsensitive s s = true)
  ∧ plainLiteral Share = true
  ∧ SecurityExists_earlier_collated asciiCaseInsensitive dbGAZP "GAZP" Share
    = SecurityExists_collated asciiCaseInsensitive dbGAZP "GAZP" Share
  ∧ SecurityExists_collated asciiCaseInsensitive dbGAZP "GAZP" Share = (true, None).
Proof.
  assert (∀ s, asciiCaseInsensitive s s = true) as Hrefl
    by (intros s; apply String.eqb_refl).
  split; [done|]. split; [done|]. split; [|by vm_compute].
  destruct (SecurityExists_versions_agree asciiCaseInsensitive dbGAZP "GAZP" Share
              Hrefl eq_refl) as (_ & _ & _ & _ & _ & Hagree & _).
  apply Hagree. intros id' r Hr _ Ht. exists r. split; [|done]. revert Hr.
  unfold dbGAZP. cbn [securities].
  intros [<- <-]%lookup_singleton_Some. apply lookup_singleton_eq.
Defined.

(** C9, counterexample: GAZP is stored in capitals and asked for in small
    letters, the server comparing strings without regard to the case of
    letters: the earlier version, which compares the ids itself, does not
    find it, the later one does. *)
Lemma SecurityExists_versions_differ_by_case :
  ¬ SecurityExists_claim asciiCaseInsensitive dbGAZP "gazp" Share.
Proof. unfold SecurityExists_claim. by vm_compute. Qed.

(** ** Errors of the operations over a list of securities *)

Lemma string_app_cons (x : ascii) (a b : string) :
  String x a +:+ b = String x (a +:+ b).
Proof. reflexivity. Qed.

Lemma string_app_assoc (a b c : string) : (a +:+ b) +:+ c = a +:+ b +:+ c.
Proof.
  induction a as [|x a IH]; [done|]. by rewrite !string_app_cons, IH.
Qed.

Lemma string_app_length (a b : string) :
  String.length (a +:+ b) = (String.length a + String.length b)%nat.
Proof.
  induction a as [|x a IH]; [done|]. rewrite string_app_cons. simpl.
  by rewrite IH.
Qed.

Lemma contains_length (msg part : string) :
  contains msg part → (String.length part ≤ String.length msg)%nat.
Proof. intros (before & after & ->). rewrite !string_app_length. lia. Qed.

Lemma string_app_nil_r (a : string) : a +:+ "" = a.
Proof.
  induction a as [|x a IH]; [done|]. by rewrite string_app_cons, IH.
Qed.

Lemma joinLines_cons (msg msg' : string) (msgs : list string) :
  joinLines (msg :: msg' :: msgs) = msg +:+ newline +:+ joinLines (msg' :: msgs).
Proof. reflexivity. Qed.

Lemma collectStep_Some (fin err : error) :
  collectStep (Some fin) err = Some (fin +:+ newline +:+ err).
Proof. reflexivity. Qed.

Lemma collectErrors_from (fin : error) (errs : list error) :
  foldl collectStep (Some fin) errs = Some (joinLines (fin :: errs)).
Proof.
  revert fin. induction errs as [|err errs IH]; intros fin; [done|].
  change (foldl collectStep (Some fin) (err :: errs))
    with (foldl collectStep (collectStep (Some fin) err) errs).
  rewrite collectStep_Some, IH. f_equal.
  destruct errs as [|err' errs]; [done|].
  by rewrite !joinLines_cons, !string_app_assoc.
Qed.

Lemma collectErrors_joinLines (errs : list error) :
  collectErrors errs
  = match errs with [] => None | _ :: _ => Some (joinLines errs) end.
Proof.
  unfold collectErrors. destruct errs as [|err errs]; [done|].
  apply collectErrors_from.
Qed.

Lemma joinLines_contains (errs : list error) (err : error) :
  err ∈ errs → contains (joinLines errs) err.
Proof.
  induction errs as [|e errs IH]; [by intros ?%elem_of_nil|].
  intros [->|Hin]%elem_of_cons.
  - destruct errs as [|e' errs].
    + exists "", "". by rewrite string_app_nil_r.
    + by exists "", (newline +:+ joinLines (e' :: errs)).
  - destruct (IH Hin) as (before & after & Heq).
    destruct errs as [|e' errs]; [by apply elem_of_nil in Hin|].
    rewrite joinLines_cons, Heq.
    exists (e +:+ newline +:+ before), after. by rewrite !string_app_assoc.
Qed.

Lemma omap_all_Some {A B : Type} (f : A → option B) (l : list A) (ys : list B) :
  map f l = map Some ys → omap f l = ys.
Proof.
  revert ys. induction l as [|x l IH]; intros [|y ys] H; try done.
  simpl in *. injection H as Hx Hl. rewrite Hx. f_equal. by apply IH.
Qed.

Lemma omap_all_None {A B : Type} (f : A → option B) (l : list A) :
  Forall (λ x, f x = None) l → omap f l = [].
Proof. induction 1 as [|x l Hx Hl IH]; simpl; [done|]. rewrite Hx. exact IH. Qed.

Lemma omap_snd_map {A B C : Type} (g : A → B * option C) (l : list A) :
  omap snd (map g l) = omap (λ x, (g x).2) l.
Proof.
  induction l as [|x l IH]; simpl; [done|].
  destruct (g x) as [b [c|]]; simpl; [f_equal|]; apply IH.
Qed.

Lemma addSecuritiesLoop_first_error (db : DB) (pre : list Security) (s : Security)
    (post : list Security) (err : error) :
  Forall (λ s', (SecurityExists db (Id s') (SType s')).2 = None) pre →
  (SecurityExists db (Id s) (SType s)).2 = Some err →
  ∀ args, (addSecuritiesLoop db (pre ++ s :: post) args).2 = Some err.
Proof.
  intros Hpre Hs. induction Hpre as [|s' pre Hs' Hpre IH]; intros args; simpl.
  - by destruct (SecurityExists db (Id s) (SType s)) as [[|] [e|]].
  - destruct (SecurityExists db (Id s') (SType s')) as [[|] [e|]]; try done;
      apply IH.
Qed.

(** C6, counterexample: [AddSecurities] checks the securities one after
    the other and returns at the first error.  Given the two securities
    above, each of which [AddSecurity] alone refuses with a message of its
    own, it returns the first message only; the second is not part of
    it. *)
Lemma AddSecurities_stops_at_first_error :
  (AddSecurity dbGAZP secNoId).2 = Some "security has no id"
  ∧ (AddSecurity dbGAZP secNoType).2
    = Some "security has no type or type is unknown"
  ∧ (AddSecurities dbGAZP [secNoId; secNoType]).2 = Some "security has no id"
  ∧ ¬ fanOut_claim (λ sec, (AddSecurities dbGAZP sec).2)
        (λ s, (AddSecurity dbGAZP s).2) [secNoId; secNoType].
Proof.
  repeat split; try by vm_compute.
  intros [_ H].
  destruct (H ["security has no id"; "security has no type or type is unknown"])
    as (msg & Hmsg & Hall); [by vm_compute|].
  vm_compute in Hmsg. injection Hmsg as <-.
  apply Forall_cons in Hall as [_ Hall]. apply Forall_cons in Hall as [Hc _].
  apply contains_length in Hc. vm_compute in Hc. lia.
Qed.

(** C6, amended: [GetSecuritiesData] runs [GetSecurityData] on every
    security of the list, whatever fails; its error is [nil] when no
    security fails, and when every one fails it is the messages of all of
    them, joined by line feeds in the order of their arrival, so that it
    contains each.  [AddSecurities] is no such operation: it stops at the
    first security that [SecurityExists] turns down and returns that
    error alone, the database unchanged. *)
Theorem GetSecuritiesData_collects_errors (arrival : Scheduler) (db : DB)
    (sec : list Security) :
  interleaves arrival →
  let perItem := λ s, (GetSecurityData arrival db s).2 in
  (GetSecuritiesData arrival db sec).1
  = map (λ s, (GetSecurityData arrival db s).1) sec
  ∧ (Forall (λ s, perItem s = None) sec →
     (GetSecuritiesData arrival db sec).2 = None)
  ∧ (∀ errs, map perItem sec = map Some errs → sec ≠ [] →
       ∃ arrived,
         Permutation arrived errs
         ∧ length arrived = length sec
         ∧ (GetSecuritiesData arrival db sec).2 = Some (joinLines arrived)
         ∧ Forall (contains (joinLines arrived)) errs)
  ∧ (∀ pre s post err,
       sec = pre ++ s :: post →
       Forall (λ s', (SecurityExists db (Id s') (SType s')).2 = None) pre →
       (SecurityExists db (Id s) (SType s)).2 = Some err →
       AddSecurities db sec = (db, Some err)).
Proof.
  intros Harr perItem. unfold GetSecuritiesData.
  simpl. rewrite omap_snd_map.
  set (f := λ s : Security, (GetSecurityData arrival db s).2).
  split; [|split; [|split]].
  - change (map (GetSecurityData arrival db) sec).*1
      with (map fst (map (GetSecurityData arrival db) sec)).
    by rewrite map_map.
  - intros Hnone. rewrite (omap_all_None f _ Hnone).
    pose proof (Harr _ (@nil error)) as Hp. apply Permutation_nil_r in Hp.
    by rewrite Hp.
  - intros errs Herrs Hne. rewrite (omap_all_Some f _ _ Herrs).
    exists (arrival _ errs).
    pose proof (Harr _ errs) as Hp.
    assert (length errs = length sec) as Hlen.
    { apply (f_equal length) in Herrs. by rewrite !length_map in Herrs. }
    split; [done|]. split; [by rewrite Hp|].
    rewrite collectErrors_joinLines.
    destruct (arrival error errs) as [|e arrived] eqn:Harrived.
    { apply Permutation_nil_l in Hp. subst errs. by destruct sec. }
    split; [done|]. apply Forall_forall. intros err' Hin.
    apply joinLines_contains. by rewrite Hp.
  - intros pre s post err -> Hpre Hs. unfold AddSecurities.
    pose proof (addSecuritiesLoop_first_error db pre s post err Hpre Hs []) as H.
    destruct (addSecuritiesLoop db (pre ++ s :: post) []) as [args e].
    simpl in H. subst e. by destruct args.
Qed.

(** The theorem at work: two securities that both fail to load. *)
Lemma GetSecuritiesData_collects_errors_witness :
  interleaves lifo
  ∧ ∃ arrived,
      Permutation arrived
        ["security has no id"; "security has no type or type is unknown"]
      ∧ (GetSecuritiesData lifo dbGAZP [secNoId; secNoType]).2
        = Some (joinLines arrived)
      ∧ contains (joinLines arrived) "security has no id"
      ∧ contains (joinLines arrived) "security has no type or type is unknown".
Proof.
  split; [exact lifo_interleaves|].
  destruct (GetSecuritiesData_collects_errors lifo dbGAZP [secNoId; secNoType]
              lifo_interleaves) as (_ & _ & H & _).
  destruct (H ["security has no id"; "security has no type or type is unknown"])
    as (arrived & Hperm & _ & Herr & Hall); [by vm_compute|done|].
  exists arrived. split; [done|]. split; [done|].
  apply Forall_cons in Hall as [H1 Hall]. apply Forall_cons in Hall as [H2 _].
  by split.
Defined.

(** ** UpdateSecurityQuotes: replacing a range *)

Lemma quotesArgs_inRange (id : string) (dateFrom dateTill : time.Time)
    (interval : QuotesInterval) (quotes : list SecurityQuotes) (k : quotesKey) :
  Forall (λ q, dateFrom ≤ qBegin q ∧ qBegin q ≤ dateTill) quotes →
  k ∈ (map (quotesArgs id interval) quotes).*1 →
  inRange id dateFrom dateTill interval k.
Proof.
  intros Hall Hk. apply list_elem_of_fmap in Hk as ([k' v] & -> & Hin).
  apply list_elem_of_In, in_map_iff in Hin as (q & Hq & Hin).
  apply list_elem_of_In in Hin.
  rewrite Forall_forall in Hall. specialize (Hall q Hin).
  injection Hq as <- _. unfold inRange. simpl. tauto.
Qed.

Lemma delete_after_insert (m : gmap quotesKey quotesRow)
    (rows : list (quotesKey * quotesRow)) (P : quotesKey * quotesRow → Prop)
    `{!∀ kv, Decision (P kv)} :
  (∀ k v, k ∈ rows.*1 → ¬ P (k, v)) →
  filter P (list_to_map rows ∪ filter P m) = filter P m.
Proof.
  intros Hrows. apply map_eq. intros k. apply option_eq. intros v.
  rewrite !map_lookup_filter_Some, lookup_union_Some_raw, map_lookup_filter_Some.
  split.
  - intros [[Hl|[_ [Hm _]]] Hk]; [|done].
    destruct (Hrows k v); [|done]. apply list_elem_of_fmap. exists (k, v).
    split; [done|]. by apply elem_of_list_to_map_2.
  - intros [Hm Hk]. split; [|done]. right. split; [|done].
    apply not_elem_of_list_to_map_1. intros Hin. by apply (Hrows k v).
Qed.

Lemma deleteQuotesInRange_twice (db : DB) (id : string) (dateFrom dateTill : time.Time)
    (interval : QuotesInterval) :
  deleteQuotesInRange (deleteQuotesInRange db id dateFrom dateTill interval)
    id dateFrom dateTill interval
  = deleteQuotesInRange db id dateFrom dateTill interval.
Proof.
  unfold deleteQuotesInRange. simpl. f_equal.
  apply map_eq. intros k. apply option_eq. intros v.
  rewrite !map_lookup_filter_Some. tauto.
Qed.

Lemma insertQuotes_error (db db' : DB) (rows : list (quotesKey * quotesRow))
    (err : error) :
  insertQuotes db rows = (db', Some err) → db' = db.
Proof.
  unfold insertQuotes. destruct (decide (quotesInsertable db rows)); congruence.
Qed.

Lemma insertQuotes_done (db db' : DB) (rows : list (quotesKey * quotesRow)) :
  insertQuotes db rows = (db', None) →
  quotesInsertable db rows
  ∧ db' = mkDB (securities db) (list_to_map rows ∪ security_quotes db).
Proof.
  unfold insertQuotes. destruct (decide (quotesInsertable db rows)); [|done].
  by intros [= <-].
Qed.

(** C1: storing the same fetched quotes over the same range a second time
    changes nothing.  When every quote of the interval that the security
    holds begins within [dateFrom, dateTill], the second half of
    [UpdateSecurityQuotes], run on the database the first run left, leaves
    that same database and returns the same error or [nil]: the persisted
    quotes, those of the security and interval among them, are the ones
    the first run left. *)
Theorem storeSecurityQuotes_idempotent (db : DB) (sec : Security)
    (dateFrom dateTill : time.Time) (interval : QuotesInterval) :
  Forall (λ q, dateFrom ≤ qBegin q ∧ qBegin q ≤ dateTill)
    (QuotesOfInterval sec interval) →
  let once := storeSecurityQuotes db sec dateFrom dateTill interval in
  let twice := storeSecurityQuotes once.1 sec dateFrom dateTill interval in
  twice = once
  ∧ security_quotes twice.1 = security_quotes once.1
  ∧ filter (λ kv : quotesKey * quotesRow, kv.1.1.1 = Id sec ∧ kv.1.2 = interval)
      (security_quotes twice.1)
    = filter (λ kv : quotesKey * quotesRow, kv.1.1.1 = Id sec ∧ kv.1.2 = interval)
        (security_quotes once.1).
Proof.
  intros Hall once twice.
  assert (twice = once) as Heq; [|by rewrite Heq].
  unfold twice, once, storeSecurityQuotes.
  destruct (QuotesOfInterval sec interval) as [|q quotes] eqn:Hq; [done|].
  set (rows := map (quotesArgs (Id sec) interval) (q :: quotes)).
  set (db1 := deleteQuotesInRange db (Id sec) dateFrom dateTill interval).
  destruct (insertQuotes db1 rows) as [db2 [err|]] eqn:Hins; cbn [fst].
  - apply insertQuotes_error in Hins as Hdb2. subst db2.
    unfold db1 at 1. by rewrite deleteQuotesInRange_twice.
  - apply insertQuotes_done in Hins as Hdb2. destruct Hdb2 as [_ ->].
    assert (deleteQuotesInRange
              (mkDB (securities db1) (list_to_map rows ∪ security_quotes db1))
              (Id sec) dateFrom dateTill interval = db1) as ->; [|done].
    unfold deleteQuotesInRange at 1. cbn [securities security_quotes].
    unfold db1, deleteQuotesInRange. cbn [securities security_quotes]. f_equal.
    apply delete_after_insert. intros k v Hk Hno. apply Hno. simpl.
    by eapply quotesArgs_inRange.
Qed.

(** The theorem at work: the two quotes of January 2022 stored twice over
    the whole month. *)
Lemma storeSecurityQuotes_idempotent_witness :
  let from := time.Date 2022 1 1 0 0 0 in
  let till := time.Date 2022 1 31 23 59 59 in
  let once := storeSecurityQuotes dbGAZP secTwoQuotes from till IntervalDay in
  Forall (λ q, from ≤ qBegin q ∧ qBegin q ≤ till)
    (QuotesOfInterval secTwoQuotes IntervalDay)
  ∧ storeSecurityQuotes once.1 secTwoQuotes from till IntervalDay = once
  ∧ once.2 = None.
Proof.
  intros from till once.
  assert (Forall (λ q, from ≤ qBegin q ∧ qBegin q ≤ till)
            (QuotesOfInterval secTwoQuotes IntervalDay)) as Hall.
  { repeat constructor; by vm_compute. }
  split; [done|]. split; [|by vm_compute].
  apply (storeSecurityQuotes_idempotent dbGAZP secTwoQuotes from till IntervalDay Hall).
Defined.

Lemma quotesOfInterval_app (interval : QuotesInterval) (l l' : list SecurityQuotes) :
  quotesOfInterval interval (l ++ l')
  = quotesOfInterval interval l ++ quotesOfInterval interval l'.
Proof.
  induction l as [|q l IH]; simpl; [done|].
  destruct (qInterval q =? interval); simpl; by rewrite IH.
Qed.

Lemma GetSecurityQuotes_nothing (ex : Exchange) (arrival : Scheduler) (sec : Security)
    (dateFrom dateTill : time.Time) (interval : QuotesInterval) :
  interleaves arrival →
  requestCandles ex sec dateFrom dateTill interval = ([], None) →
  GetSecurityQuotes ex arrival sec dateFrom dateTill interval = (sec, None).
Proof.
  intros Harr Hreq. unfold GetSecurityQuotes. rewrite Hreq. simpl.
  pose proof (Harr _ (@nil SecurityQuotes)) as Hp.
  apply Permutation_nil_r in Hp. rewrite Hp. simpl.
  unfold SetQuotesList. rewrite app_nil_r. by destruct sec.
Qed.

(** C2, counterexample: the exchange has no candle for GAZP, yet the call,
    which returns [nil], deletes the persisted quote of January 4.  The
    security came holding its quote of January 3; [GetSecurityQuotes]
    appends the answer to what the security holds, so the list that the
    code calls [quotes] is not empty: the range is deleted and the quote
    held is written. *)
Lemma UpdateSecurityQuotes_empty_answer_rewrites :
  ¬ UpdateSecurityQuotes_claim exNothing lifo dbGAZP secOneQuote
      (time.Date 2022 1 1 0 0 0) (time.Date 2022 1 31 23 59 59) IntervalDay.
Proof.
  intros Hclaim. destruct Hclaim as [_ Hsame]; [by vm_compute|by vm_compute|].
  apply (f_equal (λ m, m !! ("GAZP", time.Date 2022 1 4 0 0 0, IntervalDay))) in Hsame.
  by vm_compute in Hsame.
Qed.

(** C2, amended: for a registered security, when the quotes of the interval
    that the security holds after the fetch (the list that
    [UpdateSecurityQuotes] calls [quotes]) are none, the call returns [nil]
    and the database it was given.  When the exchange answers with no
    candle, the security is returned as it came, and the database and the
    error are what the second half of the function makes of the quotes it
    came with: with none of the interval, nothing is deleted and nothing
    inserted, so every persisted quote, those beginning in
    [dateFrom, dateTill] included, is as it was; with some, and [nil]
    returned, the table holds under the keys of the range the rows of
    these quotes and no other. *)
Theorem UpdateSecurityQuotes_nothing_fetched (ex : Exchange) (arrival : Scheduler)
    (db : DB) (sec : Security) (dateFrom dateTill : time.Time)
    (interval : QuotesInterval) :
  SecurityExists db (Id sec) (SType sec) = (true, None) →
  (∀ sec',
     GetSecurityQuotes ex arrival sec dateFrom dateTill interval = (sec', None) →
     QuotesOfInterval sec' interval = [] →
     UpdateSecurityQuotes ex arrival db sec dateFrom dateTill interval
     = (db, sec', None))
  ∧ (interleaves arrival →
     requestCandles ex sec dateFrom dateTill interval = ([], None) →
     let held := QuotesOfInterval sec interval in
     let rows : gmap quotesKey quotesRow :=
       list_to_map (map (quotesArgs (Id sec) interval) held) in
     let result := UpdateSecurityQuotes ex arrival db sec dateFrom dateTill interval in
     result.1.2 = sec
     ∧ (result.1.1, result.2) = storeSecurityQuotes db sec dateFrom dateTill interval
     ∧ (held = [] → result = (db, sec, None))
     ∧ (held ≠ [] → result.2 = None →
        ∀ k, inRange (Id sec) dateFrom dateTill interval k →
             security_quotes result.1.1 !! k = rows !! k)).
Proof.
  intros Hreg.
  assert (∀ sec',
            GetSecurityQuotes ex arrival sec dateFrom dateTill interval = (sec', None) →
            QuotesOfInterval sec' interval = [] →
            UpdateSecurityQuotes ex arrival db sec dateFrom dateTill interval
            = (db, sec', None)) as Hempty.
  { intros sec' Hget Hnone. unfold UpdateSecurityQuotes.
    rewrite Hreg, Hget. unfold storeSecurityQuotes. by rewrite Hnone. }
  split; [done|].
  intros Harr Hreq held rows result.
  pose proof (GetSecurityQuotes_nothing ex arrival sec dateFrom dateTill interval
                Harr Hreq) as Hget.
  assert (result = ((storeSecurityQuotes db sec dateFrom dateTill interval).1, sec,
                    (storeSecurityQuotes db sec dateFrom dateTill interval).2))
    as Hresult.
  { unfold result, UpdateSecurityQuotes. rewrite Hreg, Hget.
    by destruct (storeSecurityQuotes db sec dateFrom dateTill interval). }
  split; [by rewrite Hresult|]. split; [|split].
  - rewrite Hresult. cbn [fst snd].
    by destruct (storeSecurityQuotes db sec dateFrom dateTill interval).
  - intros Hnone. by apply Hempty.
  - intros Hheld Hnil k Hk. rewrite Hresult in *. cbn [fst snd] in *.
    unfold storeSecurityQuotes in *. fold held in Hnil |- *.
    destruct held as [|q quotes] eqn:Hq; [done|].
    set (args := map (quotesArgs (Id sec) interval) (q :: quotes)) in *.
    destruct (insertQuotes (deleteQuotesInRange db (Id sec) dateFrom dateTill interval)
                args) as [db' err] eqn:Hins.
    cbn [fst snd] in *. subst err.
    apply insertQuotes_done in Hins as [_ ->]. cbn [security_quotes].
    unfold rows. fold args.
    destruct (list_to_map args !! k) as [v|] eqn:Hv.
    + by apply lookup_union_Some_l.
    + apply lookup_union_None. split; [done|].
      apply map_lookup_filter_None_2. right. intros v _ Hno. by apply Hno.
Qed.

(** The theorem at work: GAZP, holding no quotes, updated from an exchange
    without candles; the two persisted quotes of the range stay. *)
Lemma UpdateSecurityQuotes_nothing_fetched_witness :
  let from := time.Date 2022 1 1 0 0 0 in
  let till := time.Date 2022 1 31 23 59 59 in
  let sec := GetQuickSecurity "GAZP" Share in
  SecurityExists dbGAZP (Id sec) (SType sec) = (true, None)
  ∧ UpdateSecurityQuotes exNothing lifo dbGAZP sec from till IntervalDay
    = (dbGAZP, sec, None)
  ∧ size (security_quotes dbGAZP) = 2%nat.
Proof.
  intros from till sec.
  assert (SecurityExists dbGAZP (Id sec) (SType sec) = (true, None)) as Hreg
    by (by vm_compute).
  split; [done|]. split; [|by vm_compute].
  destruct (UpdateSecurityQuotes_nothing_fetched exNothing lifo dbGAZP sec from till
              IntervalDay Hreg) as [_ Hnothing].
  destruct (Hnothing lifo_interleaves eq_refl) as (_ & _ & Hsame & _).
  by apply Hsame.
Defined.

(** ** UpdateAllSecuritiesLastQuotes: adding the last quotes *)

Lemma lastQuotesLoop_newLastQuotes (db : DB) (secList : list Security) :
  ∀ args, lastQuotesLoop db secList args = (args ++ newLastQuotes db secList, None).
Proof.
  induction secList as [|s rest IH]; intros args; simpl.
  - by rewrite app_nil_r.
  - unfold SecurityQuotesExist, selectQuotesOfKey.
    change (Id s, qBegin (LastQuotes s IntervalDay), IntervalDay)
      with (lastQuotesRow s).1.
    destruct (security_quotes db !! (lastQuotesRow s).1); rewrite IH; [done|].
    by rewrite <- app_assoc.
Qed.

Lemma newLastQuotes_elem (db : DB) (secList : list Security)
    (row : quotesKey * quotesRow) :
  row ∈ newLastQuotes db secList
  ↔ ∃ s, s ∈ secList ∧ row = lastQuotesRow s
         ∧ security_quotes db !! (lastQuotesRow s).1 = None.
Proof.
  induction secList as [|s rest IH]; cbn [newLastQuotes].
  - split; [by intros ?%elem_of_nil|]. by intros (s & ?%elem_of_nil & _).
  - destruct (security_quotes db !! (lastQuotesRow s).1) eqn:Hs.
    + rewrite IH. split.
      * intros (s' & Hin & Hrow & Hnone). exists s'. split; [by right|done].
      * intros (s' & [->|Hin]%elem_of_cons & Hrow & Hnone); [congruence|].
        by exists s'.
    + rewrite elem_of_cons, IH. split.
      * intros [->|(s' & Hin & Hrow & Hnone)].
        -- exists s. split; [by left|done].
        -- exists s'. split; [by right|done].
      * intros (s' & [->|Hin]%elem_of_cons & Hrow & Hnone); [by left|].
        right. by exists s'.
Qed.

Lemma newLastQuotes_keys (db : DB) (secList : list Security) (k : quotesKey) :
  k ∈ (newLastQuotes db secList).*1 →
  security_quotes db !! k = None ∧ k.1.1 ∈ map Id secList.
Proof.
  intros ([k' v] & -> & Hin)%list_elem_of_fmap.
  apply newLastQuotes_elem in Hin as (s & Hin & Hrow & Hnone).
  rewrite Hrow. split; [done|]. simpl.
  apply list_elem_of_In, in_map, list_elem_of_In, Hin.
Qed.

Lemma newLastQuotes_NoDup (db : DB) (secList : list Security) :
  NoDup (map Id secList) → NoDup (newLastQuotes db secList).*1.
Proof.
  induction secList as [|s rest IH]; cbn [newLastQuotes map]; [constructor|].
  intros [Hs Hrest]%NoDup_cons.
  destruct (security_quotes db !! (lastQuotesRow s).1); [by apply IH|].
  rewrite fmap_cons. apply NoDup_cons. split; [|by apply IH].
  intros Hin%newLastQuotes_keys. by destruct Hin as [_ Hin].
Qed.

Lemma storeLastQuotes_cases (db : DB) (secList : list Security) :
  let rows := newLastQuotes db secList in
  (storeLastQuotes db secList = (db, None) ∧ rows = [])
  ∨ (∃ err, storeLastQuotes db secList = (db, Some err)
            ∧ ¬ quotesInsertable db rows)
  ∨ (storeLastQuotes db secList
     = (mkDB (securities db) (list_to_map rows ∪ security_quotes db), None)
     ∧ quotesInsertable db rows).
Proof.
  intros rows. unfold storeLastQuotes.
  rewrite lastQuotesLoop_newLastQuotes. rewrite app_nil_l. fold rows.
  destruct rows as [|row rows'] eqn:Hrows; [by left|]. right.
  unfold insertQuotes.
  destruct (decide (quotesInsertable db (row :: rows'))) as [Hins|Hins].
  - by right.
  - left. by eexists.
Qed.




(** ** GetQuotesForDate: paging and looking on the previous day *)

Lemma setQuotesFirst_types id q (l : list Security) :
  map SType (setQuotesFirst id q l) = map SType l.
Proof.
  induction l as [|s l IH]; simpl; [done|].
  destruct (String.eqb (Id s) id); simpl; [done|]. by rewrite IH.
Qed.

Lemma setQuotesById_types id q (sec : list Security) :
  map SType (setQuotesById id q sec) = map SType sec.
Proof.
  unfold setQuotesById.
  by rewrite map_rev, setQuotesFirst_types, <- map_rev, rev_involutive.
Qed.

Lemma historyRowStep_types boardToCheck date sec data :
  map SType (historyRowStep boardToCheck date sec data) = map SType sec.
Proof.
  unfold historyRowStep.
  destruct (hSecId data), (hClose data); try done.
  destruct (String.eqb (hBoard data) boardToCheck); [|done].
  apply setQuotesById_types.
Qed.

Lemma historyRows_types boardToCheck date (rows : list moexHistoryRow) :
  ∀ sec, map SType (foldl (historyRowStep boardToCheck date) sec rows)
         = map SType sec.
Proof.
  induction rows as [|data rows IH]; intros sec; simpl; [done|].
  by rewrite IH, historyRowStep_types.
Qed.

Lemma pageLoop_types ex arrival engine market board date (pages : nat) :
  ∀ start sec,
    map SType (pagingSec (pageLoop ex arrival engine market board date pages start sec))
    = map SType sec.
Proof.
  induction pages as [|pages IH]; intros start sec; simpl; [done|].
  destruct (history ex engine market (boardPath board) (time.day date) start)
    as [[|data rows] [err|]]; try done.
  - by destruct (start =? 0).
  - by rewrite IH, historyRows_types.
Qed.

Lemma typesLoop_types ex arrival date (sTypes : list SecurityType) :
  ∀ sec, map SType (pagingSec (typesLoop ex arrival date sTypes sec))
         = map SType sec.
Proof.
  induction sTypes as [|sType rest IH]; intros sec; cbn [typesLoop]; [done|].
  destruct (getEngineAndMarket sType) as [[[engine market] board] [err|]];
    [done|].
  pose proof (pageLoop_types ex arrival engine market board date 10 0 sec) as Hp.
  destruct (pageLoop ex arrival engine market board date 10 0 sec);
    cbn [pagingSec] in *; try done.
  by rewrite IH.
Qed.

(** Paging stops at an empty page: with [NoData] at start 0, else done. *)
Lemma pageLoop_empty_page ex arrival engine market board date pages start sec :
  history ex engine market (boardPath board) (time.day date) start = ([], None) →
  pageLoop ex arrival engine market board date (S pages) start sec
  = if start =? 0 then NoData sec else Paged sec.
Proof. simpl. by intros ->. Qed.

Lemma pageLoop_later_pages ex arrival engine market board date (pages : nat) :
  ∀ start sec,
    0 < start →
    ¬ isNoData (pageLoop ex arrival engine market board date pages start sec).
Proof.
  induction pages as [|pages IH]; intros start sec Hstart; simpl; [tauto|].
  destruct (history ex engine market (boardPath board) (time.day date) start)
    as [[|data rows] [err|]]; simpl; try tauto.
  - replace (start =? 0) with false by lia. simpl. tauto.
  - apply IH. lia.
Qed.

Lemma pageLoop_first_page ex arrival engine market board date sec :
  (history ex engine market (boardPath board) (time.day date) 0).1 ≠ [] →
  ¬ isNoData (pageLoop ex arrival engine market board date 10 0 sec).
Proof.
  intros Hpage. simpl.
  destruct (history ex engine market (boardPath board) (time.day date) 0)
    as [[|data rows] [err|]]; simpl in *; try tauto.
  apply (pageLoop_later_pages ex arrival engine market board date 9). lia.
Qed.

Lemma typesLoop_all_first_pages ex arrival date (sTypes : list SecurityType) :
  ∀ sec,
    Forall (hasFirstPage ex (time.day date)) sTypes →
    ¬ isNoData (typesLoop ex arrival date sTypes sec).
Proof.
  induction sTypes as [|sType rest IH]; intros sec Hall; [simpl; tauto|].
  apply Forall_cons in Hall as [Hfirst Hall].
  cbn [typesLoop].
  destruct (getEngineAndMarket sType) as [[[engine market] board] [err|]] eqn:He;
    [simpl; tauto|].
  pose proof (pageLoop_first_page ex arrival engine market board date sec
                (Hfirst engine market board He)) as Hp.
  destruct (pageLoop ex arrival engine market board date 10 0 sec);
    simpl in Hp; simpl; try tauto.
  by apply IH.
Qed.

Lemma day_previous (date : time.Time) :
  time.day (time.AddDate date (-1)) = time.day date - 1.
Proof.
  unfold time.day, time.AddDate, time.secondsPerDay.
  replace (date + 86400 * -1) with (date + (-1) * 86400) by lia.
  rewrite Z.div_add by lia. lia.
Qed.

Lemma GetQuotesForDate_more_fuel ex arrival order (fuel : nat) :
  ∀ sec date result fuel',
    GetQuotesForDate fuel ex arrival order sec date = Some result →
    (fuel ≤ fuel')%nat →
    GetQuotesForDate fuel' ex arrival order sec date = Some result.
Proof.
  induction fuel as [|fuel IH]; intros sec date result fuel' Hrun Hle; [done|].
  destruct fuel' as [|fuel']; [lia|]. simpl in *.
  destruct (typesLoop ex arrival date (order (securityTypes sec)) sec);
    try done.
  apply IH; [done|lia].
Qed.

Lemma GetQuotesForDate_within ex arrival order (n : nat) :
  iterates order →
  ∀ sec date,
    (∀ sType, sType ∈ securityTypes sec →
              hasFirstPage ex (time.day date - Z.of_nat n) sType) →
    ∃ result, GetQuotesForDate (S n) ex arrival order sec date = Some result.
Proof.
  intros Horder. induction n as [|n IH]; intros sec date Hdata.
  - assert (¬ isNoData (typesLoop ex arrival date (order (securityTypes sec)) sec))
      as Hno.
    { apply typesLoop_all_first_pages, Forall_forall. intros sType Hin.
      replace (time.day date) with (time.day date - Z.of_nat 0) by lia.
      apply Hdata. by rewrite <- (Horder _). }
    simpl. destruct (typesLoop _ _ _ _ _); simpl in Hno; by eauto.
  - cbn [GetQuotesForDate].
    pose proof (typesLoop_types ex arrival date (order (securityTypes sec)) sec)
      as Htypes.
    destruct (typesLoop ex arrival date (order (securityTypes sec)) sec)
      as [sec'|sec'|sec' err]; [by eauto| |by eauto].
    apply IH. intros sType Hin. rewrite day_previous.
    replace (time.day date - 1 - Z.of_nat n) with (time.day date - Z.of_nat (S n))
      by lia.
    apply Hdata. unfold securityTypes in *. simpl in Htypes. by rewrite <- Htypes.
Qed.

Lemma pageLoop_samePages ex ex' arrival engine market board date (pages : nat) :
  samePages ex ex' →
  ∀ k sec,
    0 ≤ k → k + Z.of_nat pages ≤ 10 →
    pageLoop ex arrival engine market board date pages (100 * k) sec
    = pageLoop ex' arrival engine market board date pages (100 * k) sec.
Proof.
  intros Hsame. induction pages as [|pages IH]; intros k sec Hk Hle; [done|].
  cbn [pageLoop]. rewrite (Hsame _ _ _ _ k) by lia.
  destruct (history ex' engine market (boardPath board) (time.day date) (100 * k))
    as [[|data rows] [err|]]; try done.
  replace (100 * k + 100) with (100 * (k + 1)) by lia.
  apply IH; lia.
Qed.

Lemma typesLoop_samePages ex ex' arrival date (sTypes : list SecurityType) :
  samePages ex ex' →
  ∀ sec, typesLoop ex arrival date sTypes sec = typesLoop ex' arrival date sTypes sec.
Proof.
  intros Hsame. induction sTypes as [|sType rest IH]; intros sec; [done|].
  cbn [typesLoop].
  destruct (getEngineAndMarket sType) as [[[engine market] board] [err|]]; [done|].
  pose proof (pageLoop_samePages ex ex' arrival engine market board date 10
                Hsame 0 sec) as Hp.
  change (100 * 0) with 0 in Hp. rewrite Hp by lia.
  by destruct (pageLoop ex' arrival engine market board date 10 0 sec).
Qed.

Lemma GetQuotesForDate_samePages ex ex' arrival order (fuel : nat) :
  samePages ex ex' →
  ∀ sec date,
    GetQuotesForDate fuel ex arrival order sec date
    = GetQuotesForDate fuel ex' arrival order sec date.
Proof.
  intros Hsame. induction fuel as [|fuel IH]; intros sec date; [done|].
  cbn [GetQuotesForDate]. rewrite (typesLoop_samePages ex ex') by done.
  by destruct (typesLoop ex' arrival date (order (securityTypes sec)) sec).
Qed.

Lemma typesLoop_shareAndBond (date : time.Time) :
  typesLoop exAlternating fifo date (securityTypes shareAndBond) shareAndBond
  = NoData shareAndBond.
Proof.
  change (securityTypes shareAndBond) with [Share; Bond].
  cbn [typesLoop]. change (getEngineAndMarket Share) with (("stock", "shares", ""), @None error).
  change (getEngineAndMarket Bond) with (("stock", "bonds", ""), @None error).
  cbn [pageLoop history exAlternating].
  change (String.eqb "shares" "shares") with true.
  change (String.eqb "shares" "bonds") with false.
  change (String.eqb "bonds" "shares") with false.
  change (String.eqb "bonds" "bonds") with true.
  rewrite <- (Z.negb_even (time.day date)).
  destruct (Z.even (time.day date)); by vm_compute.
Qed.

Lemma GetQuotesForDate_shareAndBond (fuel : nat) :
  ∀ date, GetQuotesForDate fuel exAlternating fifo (λ l, l) shareAndBond date = None.
Proof.
  induction fuel as [|fuel IH]; intros date; [done|].
  cbn [GetQuotesForDate]. rewrite typesLoop_shareAndBond. apply IH.
Qed.

(** C7, counterexample: a first page for each class, on different days,
    does not end the search.  For a share and a bond, on an exchange whose
    share market has a first page on the even days only and whose bond
    market on the odd days only, either class has a first page on the day
    asked for or on the day before, and yet on every day the first page of
    one of them is empty: the function looks on the previous day again and
    again, and no number of days is enough. *)
Lemma GetQuotesForDate_one_class_is_not_enough :
  ¬ GetQuotesForDate_claim exAlternating fifo (λ l, l) shareAndBond
      (time.Date 2022 2 4 0 0 0).
Proof.
  intros Hclaim. destruct Hclaim as (fuel & result & Hrun).
  - intros sType Hin. change (securityTypes shareAndBond) with [Share; Bond] in Hin.
    apply elem_of_cons in Hin as [->|Hin].
    + exists 1%nat. intros engine market board [= <- <- <-]. by vm_compute.
    + apply list_elem_of_singleton in Hin as ->.
      exists 0%nat. intros engine market board [= <- <- <-]. by vm_compute.
  - by rewrite GetQuotesForDate_shareAndBond in Hrun.
Qed.

(** C7, amended: [GetQuotesForDate] asks, for each class, for the pages at
    the starts 0, 100, ..., 900 and no other (two exchanges with the same
    pages there give the same answer); an empty page ends the paging of the
    class, and the empty page at start 0 makes the function call itself for
    the previous calendar day.  When on some day on or before the date
    every class among the securities has a first page that is not empty,
    the function returns: looking [n] days back is enough when that day is
    the [n]-th before the date. *)
Theorem GetQuotesForDate_terminates (ex : Exchange) (arrival : Scheduler)
    (order : MapOrder) (sec : list Security) (date : time.Time) (n : nat) :
  iterates order →
  (∀ sType, sType ∈ securityTypes sec →
            hasFirstPage ex (time.day date - Z.of_nat n) sType) →
  (∃ result, ∀ fuel, (n < fuel)%nat →
               GetQuotesForDate fuel ex arrival order sec date = Some result)
  ∧ (∀ ex' fuel, samePages ex ex' →
       GetQuotesForDate fuel ex' arrival order sec date
       = GetQuotesForDate fuel ex arrival order sec date)
  ∧ (∀ engine market board pages start sec0,
       history ex engine market (boardPath board) (time.day date) start = ([], None) →
       pageLoop ex arrival engine market board date (S pages) start sec0
       = if start =? 0 then NoData sec0 else Paged sec0)
  ∧ (∀ fuel sec',
       typesLoop ex arrival date (order (securityTypes sec)) sec = NoData sec' →
       GetQuotesForDate (S fuel) ex arrival order sec date
       = GetQuotesForDate fuel ex arrival order sec' (time.AddDate date (-1))
       ∧ time.day (time.AddDate date (-1)) = time.day date - 1).
Proof.
  intros Horder Hdata. split; [|split; [|split]].
  - destruct (GetQuotesForDate_within ex arrival order n Horder sec date Hdata)
      as [result Hrun].
    exists result. intros fuel Hfuel.
    apply (GetQuotesForDate_more_fuel ex arrival order (S n)); [done|lia].
  - intros ex' fuel Hsame. symmetry. by apply GetQuotesForDate_samePages.
  - intros. by apply pageLoop_empty_page.
  - intros fuel sec' Hno. split; [|apply day_previous].
    cbn [GetQuotesForDate]. by rewrite Hno.
Qed.

(** The theorem at work: asked on Sunday, February 6, 2022, the function
    finds the quotes of Friday, two days back. *)
Lemma GetQuotesForDate_terminates_witness :
  let sunday := time.Date 2022 2 6 12 0 0 in
  let sec := [GetQuickSecurity "GAZP" Share; GetQuickSecurity "LKOH" Share] in
  iterates (λ l, l)
  ∧ (∀ sType, sType ∈ securityTypes sec →
              hasFirstPage exFriday (time.day sunday - Z.of_nat 2) sType)
  ∧ ∃ result,
      GetQuotesForDate 3 exFriday lifo (λ l, l) sec sunday = Some result
      ∧ result.2 = None
      ∧ map (λ s, qClose (LastQuotes s IntervalDay)) result.1
        = [324.5%float; 7010%float].
Proof.
  intros sunday sec.
  assert (iterates (λ l, l)) as Horder by (by intros l).
  assert (∀ sType, sType ∈ securityTypes sec →
                   hasFirstPage exFriday (time.day sunday - Z.of_nat 2) sType)
    as Hdata.
  { intros sType Hin. change (securityTypes sec) with [Share] in Hin.
    apply list_elem_of_singleton in Hin as ->.
    intros engine market board [= <- <- <-]. by vm_compute. }
  split; [done|]. split; [done|].
  destruct (GetQuotesForDate_terminates exFriday lifo (λ l, l) sec sunday 2
              Horder Hdata) as ([result Hrun] & _).
  exists result. specialize (Hrun 3%nat ltac:(lia)).
  split; [done|].
  vm_compute in Hrun. injection Hrun as <-. split; by vm_compute.
Defined.

(** * Further properties *)

(** ** Package securities *)

Lemma quotesOfInterval_elem (interval : QuotesInterval) (l : list SecurityQuotes)
    (q : SecurityQuotes) :
  q ∈ quotesOfInterval interval l ↔ q ∈ l ∧ qInterval q = interval.
Proof.
  induction l as [|q' l IH]; cbn [quotesOfInterval].
  - split; [by intros ?%elem_of_nil|]. by intros [?%elem_of_nil _].
  - destruct (qInterval q' =? interval) eqn:Hq.
    + apply Z.eqb_eq in Hq. rewrite !elem_of_cons, IH. split.
      * intros [->|[? ?]]; [split; [by left|done]|split; [by right|done]].
      * intros [[->|?] ?]; [by left|by right].
    + apply Z.eqb_neq in Hq. rewrite elem_of_cons, IH. split.
      * intros [? ?]. split; [by right|done].
      * intros [[->|?] ?]; [done|done].
Qed.

(** X1: of the quotes of the interval that end not after the date,
    [QuotesForDate] answers with the one that ends last, and of several
    that end at that time with the one that stands last in the list.  A
    quote [q] of the security that qualifies and ends not before the zero
    Time is the answer when no qualifying quote before it in the list ends
    later and every qualifying quote after it ends earlier. *)
Theorem QuotesForDate_later_wins (s : Security) (interval : QuotesInterval)
    (date : time.Time) (before after : list SecurityQuotes) (q : SecurityQuotes) :
  Quotes s = before ++ q :: after →
  qualifies interval date q →
  time.zero ≤ qEnd q →
  (∀ q', q' ∈ before → qualifies interval date q' → qEnd q' ≤ qEnd q) →
  (∀ q', q' ∈ after → qualifies interval date q' → qEnd q' < qEnd q) →
  QuotesForDate s interval date = q.
Proof.
  intros Hs Hq Hz Hbefore Hafter. unfold QuotesForDate.
  rewrite Hs, foldl_app. cbn [foldl].
  destruct (quotesForDate_fold interval date before zeroQuotes) as (_ & _ & Hres).
  cbn zeta in Hres.
  set (found := foldl (quotesForDateStep interval date) zeroQuotes before) in *.
  assert (qEnd found ≤ qEnd q) as Hle.
  { destruct Hres as [[-> _]|[Hin Hf]]; [exact Hz|by apply Hbefore]. }
  rewrite (quotesForDateStep_take _ _ _ _ Hq Hle).
  destruct (quotesForDate_fold interval date after q) as (Hge & _ & Hres').
  cbn zeta in Hge, Hres'.
  destruct Hres' as [[-> _]|[Hin Hr]]; [done|].
  specialize (Hafter _ Hin Hr). lia.
Qed.

(** The theorem at work: two day quotes of January 3, 2022 that end at the
    same time; the second is the answer. *)
Lemma QuotesForDate_later_wins_witness :
  let morning := mkQuotes IntervalDay (time.Date 2022 1 3 0 0 0)
                   (time.Date 2022 1 3 23 59 59) 340%float 341%float 345%float 338%float in
  let evening := mkQuotes IntervalDay (time.Date 2022 1 3 0 0 0)
                   (time.Date 2022 1 3 23 59 59) 340%float 342%float 345%float 338%float in
  let s := mkSecurity "GAZP" "" Share RUB [morning; evening] in
  qualifies IntervalDay (time.Date 2022 1 4 0 0 0) evening
  ∧ QuotesForDate s IntervalDay (time.Date 2022 1 4 0 0 0) = evening.
Proof.
  intros morning evening s.
  assert (qualifies IntervalDay (time.Date 2022 1 4 0 0 0) evening) as Hq
    by (by vm_compute).
  split; [done|].
  apply (QuotesForDate_later_wins s IntervalDay _ [morning] [] evening eq_refl Hq).
  - by vm_compute.
  - intros q' ->%list_elem_of_singleton _. by vm_compute.
  - by intros q' ?%elem_of_nil.
Defined.

Lemma lowerAscii_upperAscii (c : ascii) : lowerAscii (upperAscii c) = lowerAscii c.
Proof. destruct c as [[] [] [] [] [] [] [] []]; by vm_compute. Qed.

Lemma upperAscii_lowerAscii (c : ascii) : upperAscii (lowerAscii c) = upperAscii c.
Proof. destruct c as [[] [] [] [] [] [] [] []]; by vm_compute. Qed.

Lemma ToUpper_idemp (s : string) : ToUpper (ToUpper s) = ToUpper s.
Proof.
  induction s as [|c s IH]; simpl; [done|]. rewrite IH. f_equal.
  destruct c as [[] [] [] [] [] [] [] []]; by vm_compute.
Qed.

Lemma ToLower_idemp (s : string) : ToLower (ToLower s) = ToLower s.
Proof.
  induction s as [|c s IH]; simpl; [done|]. rewrite IH. f_equal.
  destruct c as [[] [] [] [] [] [] [] []]; by vm_compute.
Qed.

Lemma ToLower_ToUpper (s : string) : ToLower (ToUpper s) = ToLower s.
Proof.
  induction s as [|c s IH]; simpl; [done|].
  by rewrite IH, lowerAscii_upperAscii.
Qed.

Lemma ToUpper_ToLower (s : string) : ToUpper (ToLower s) = ToUpper s.
Proof.
  induction s as [|c s IH]; simpl; [done|].
  by rewrite IH, upperAscii_lowerAscii.
Qed.

(** X2: whatever the name, [GetSecurityTypeFromString] and
    [GetSecurityCurrencyFromString] answer with one of the constants of the
    package; each constant is the name of itself, so that parsing what was
    parsed changes nothing; and for a name of ASCII characters the case of
    its letters makes no difference. *)
Theorem type_and_currency_names (name : string) :
  let sType := GetSecurityTypeFromString name in
  let currency := GetSecurityCurrencyFromString name in
  sType ∈ [Share; ETF; Bond; Currency; UnknownType]
  ∧ currency ∈ [RUB; USD; EUR; CNY; UnknownCurrency]
  ∧ GetSecurityTypeFromString sType = sType
  ∧ GetSecurityCurrencyFromString currency = currency
  ∧ (isASCII name = true →
     GetSecurityTypeFromString (ToUpper name) = sType
     ∧ GetSecurityTypeFromString (ToLower name) = sType
     ∧ GetSecurityCurrencyFromString (ToUpper name) = currency
     ∧ GetSecurityCurrencyFromString (ToLower name) = currency).
Proof.
  intros sType currency.
  assert (sType ∈ [Share; ETF; Bond; Currency; UnknownType]) as Ht.
  { unfold sType, GetSecurityTypeFromString.
    repeat (destruct (String.eqb _ _)); apply list_elem_of_In; simpl; tauto. }
  assert (currency ∈ [RUB; USD; EUR; CNY; UnknownCurrency]) as Hc.
  { unfold currency, GetSecurityCurrencyFromString.
    repeat (destruct (String.eqb _ _)); apply list_elem_of_In; simpl; tauto. }
  split; [done|]. split; [done|]. split; [|split].
  - repeat (apply elem_of_cons in Ht as [->|Ht]; [by vm_compute|]).
    by apply elem_of_nil in Ht.
  - repeat (apply elem_of_cons in Hc as [->|Hc]; [by vm_compute|]).
    by apply elem_of_nil in Hc.
  - intros _. unfold sType, currency, GetSecurityTypeFromString,
      GetSecurityCurrencyFromString.
    by rewrite ToLower_ToUpper, ToUpper_ToLower, ToUpper_idemp, ToLower_idemp.
Qed.

(** ** Package moex *)

Lemma GetSecurityQuotes_keeps (ex : Exchange) (arrival : Scheduler) (sec : Security)
    (dateFrom dateTill : time.Time) (interval : QuotesInterval) :
  let sec' := (GetSecurityQuotes ex arrival sec dateFrom dateTill interval).1 in
  Id sec' = Id sec ∧ Name sec' = Name sec ∧ SType sec' = SType sec
  ∧ SecCurrency sec' = SecCurrency sec.
Proof.
  unfold GetSecurityQuotes.
  by destruct (requestCandles ex sec dateFrom dateTill interval) as [data [err|]].
Qed.

Lemma getEngineAndMarket_known (sType : SecurityType) :
  (getEngineAndMarket sType).2 = None ↔ sType ∈ knownTypes.
Proof.
  unfold getEngineAndMarket, knownTypes.
  destruct (String.eqb sType Share) eqn:H1;
    [apply String.eqb_eq in H1; subst; split; [set_solver|done]|].
  destruct (String.eqb sType ETF) eqn:H2;
    [apply String.eqb_eq in H2; subst; split; [set_solver|done]|].
  destruct (String.eqb sType Bond) eqn:H3;
    [apply String.eqb_eq in H3; subst; split; [set_solver|done]|].
  destruct (String.eqb sType Currency) eqn:H4;
    [apply String.eqb_eq in H4; subst; split; [set_solver|done]|].
  apply String.eqb_neq in H1, H2, H3, H4. split; [done|].
  intros Hin. repeat (apply elem_of_cons in Hin as [->|Hin]; [done|]).
  by apply elem_of_nil in Hin.
Qed.

Lemma getEngineAndMarket_unknown (sType : SecurityType) :
  sType ∉ knownTypes →
  getEngineAndMarket sType = (("", "", ""), Some ("unknown security type: " +:+ sType)).
Proof.
  intros Hno. pose proof (getEngineAndMarket_known sType) as Hk.
  unfold getEngineAndMarket in *.
  repeat (destruct (String.eqb sType _); [destruct Hno; by apply Hk|]). done.
Qed.

(** X3: [GetSecurityQuotes] changes nothing of a security but its
    quotes, and nothing at all when it fails.  For a security whose type is
    none of share, etf, bond and currency it fails with "unknown security
    type: <type>", whatever the exchange (no request is made); for a
    security of one of the four types its error is the error of the
    request. *)
Theorem GetSecurityQuotes_errors (ex : Exchange) (arrival : Scheduler) (sec : Security)
    (dateFrom dateTill : time.Time) (interval : QuotesInterval) :
  let sec' := (GetSecurityQuotes ex arrival sec dateFrom dateTill interval).1 in
  let err := (GetSecurityQuotes ex arrival sec dateFrom dateTill interval).2 in
  (Id sec' = Id sec ∧ Name sec' = Name sec ∧ SType sec' = SType sec
   ∧ SecCurrency sec' = SecCurrency sec)
  ∧ (err ≠ None → sec' = sec)
  ∧ (SType sec ∉ knownTypes →
     err = Some ("unknown security type: " +:+ SType sec))
  ∧ (SType sec ∈ knownTypes →
     ∃ engine market board,
       getEngineAndMarket (SType sec) = ((engine, market, board), None)
       ∧ err = (candles ex engine market (boardPath board) (Id sec)
                  (time.day dateFrom) (time.day dateTill) interval).2).
Proof.
  intros sec' err.
  split; [apply GetSecurityQuotes_keeps|]. unfold sec', err, GetSecurityQuotes.
  split; [|split].
  - by destruct (requestCandles ex sec dateFrom dateTill interval) as [data [e|]].
  - intros Hno. unfold requestCandles.
    by rewrite (getEngineAndMarket_unknown _ Hno).
  - intros Hk%getEngineAndMarket_known. unfold requestCandles.
    destruct (getEngineAndMarket (SType sec)) as [[[engine market] board] [e|]];
      [done|].
    exists engine, market, board. split; [done|].
    by destruct (candles ex engine market (boardPath board) (Id sec) (time.day dateFrom)
                (time.day dateTill) interval) as [data [e|]].
Qed.

Lemma typesLoop_Paged_known ex arrival date (sTypes : list SecurityType) :
  ∀ sec sec', typesLoop ex arrival date sTypes sec = Paged sec' →
              Forall (λ t, t ∈ knownTypes) sTypes.
Proof.
  induction sTypes as [|sType rest IH]; intros sec sec'; cbn [typesLoop];
    [constructor|].
  pose proof (getEngineAndMarket_known sType) as Hk.
  destruct (getEngineAndMarket sType) as [[[engine market] board] [err|]];
    [done|].
  destruct (pageLoop ex arrival engine market board date 10 0 sec) as [sec1| |];
    try done.
  intros H%IH. constructor; [by apply Hk|done].
Qed.

Lemma securityTypes_elem (sec : list Security) (s : Security) :
  s ∈ sec → SType s ∈ securityTypes sec.
Proof.
  intros Hin. unfold securityTypes. apply elem_of_remove_dups.
  apply list_elem_of_fmap. by exists s.
Qed.

(** X4: when a security of the list has a type that is none of the
    four, [GetQuotesForDate] does not return [nil], however many days it
    may look back and in whatever order it visits the types: it returns an
    error, or goes on to earlier days. *)
Theorem GetQuotesForDate_unknown_type (fuel : nat) (ex : Exchange) (arrival : Scheduler)
    (order : MapOrder) (sec : list Security) (date : time.Time) (s : Security) :
  iterates order →
  s ∈ sec → SType s ∉ knownTypes →
  ∀ sec', GetQuotesForDate fuel ex arrival order sec date ≠ Some (sec', None).
Proof.
  intros Hord Hin Hno.
  assert (∀ types, securityTypes sec = types →
            ∀ sec0 date0 sec', securityTypes sec0 = types →
              GetQuotesForDate fuel ex arrival order sec0 date0 ≠ Some (sec', None))
    as H; [|intros sec'; by apply (H _ eq_refl)].
  intros types Htypes.
  induction fuel as [|fuel IH]; intros sec0 date0 sec' Hsame; cbn [GetQuotesForDate];
    [done|].
  pose proof (typesLoop_types ex arrival date0 (order (securityTypes sec0)) sec0) as Ht.
  destruct (typesLoop ex arrival date0 (order (securityTypes sec0)) sec0)
    as [sec1|sec1|sec1 err] eqn:Hloop; cbn [pagingSec] in Ht.
  - intros _. apply typesLoop_Paged_known in Hloop.
    rewrite Forall_forall in Hloop. apply Hno, Hloop.
    rewrite (Hord _), Hsame, <- Htypes. by apply securityTypes_elem.
  - apply IH. unfold securityTypes. by rewrite Ht.
  - done.
Qed.

(** The theorem at work: a share and a security of unknown type, on the
    Friday for which the exchange has rows. *)
Lemma GetQuotesForDate_unknown_type_witness :
  let date := time.Date 2022 2 4 0 0 0 in
  iterates id
  ∧ GetQuotesForDate 3 exFriday fifo id
      [GetQuickSecurity "GAZP" Share; secNoType] date
    ≠ Some ([GetQuickSecurity "GAZP" Share; secNoType], None).
Proof.
  intros date. split; [by intros l|].
  apply (GetQuotesForDate_unknown_type 3 exFriday fifo id _ date secNoType).
  - by intros l.
  - set_solver.
  - unfold knownTypes. intros Hin.
    repeat (apply elem_of_cons in Hin as [Hin|Hin]; [done|]).
    by apply elem_of_nil in Hin.
Defined.

Lemma dayQuotesAdded_refl (date : time.Time) (s : Security) : dayQuotesAdded date s s.
Proof.
  repeat split. exists []. split; [by rewrite app_nil_r|constructor].
Qed.

Lemma dayQuotesAdded_trans (d1 d2 : time.Time) (s1 s2 s3 : Security) :
  d1 ≤ d2 →
  dayQuotesAdded d2 s1 s2 → dayQuotesAdded d1 s2 s3 → dayQuotesAdded d2 s1 s3.
Proof.
  intros Hd (Hi & Hn & Ht & Hc & a1 & Hq1 & Ha1) (Hi' & Hn' & Ht' & Hc' & a2 & Hq2 & Ha2).
  unfold dayQuotesAdded. rewrite Hi', Hn', Ht', Hc', Hq2, Hq1.
  repeat split; try done. exists (a1 ++ a2). split; [by rewrite app_assoc|].
  apply Forall_app. split; [done|].
  eapply Forall_impl; [exact Ha2|]. intros q (? & ? & ? & ?).
  repeat split; try done. lia.
Qed.

Lemma Forall2_dayQuotesAdded_refl (date : time.Time) (sec : list Security) :
  Forall2 (dayQuotesAdded date) sec sec.
Proof. induction sec; constructor; [apply dayQuotesAdded_refl|done]. Qed.

Lemma Forall2_dayQuotesAdded_trans (d1 d2 : time.Time) (l1 l2 l3 : list Security) :
  d1 ≤ d2 →
  Forall2 (dayQuotesAdded d2) l1 l2 → Forall2 (dayQuotesAdded d1) l2 l3 →
  Forall2 (dayQuotesAdded d2) l1 l3.
Proof.
  intros Hd H12. revert l3. induction H12 as [|s1 s2 l1 l2 Hs H12 IH]; intros l3 H23.
  - inversion H23. constructor.
  - inversion H23 as [|? s3 ? l3' Hs' H23']; subst. constructor; [|by apply IH].
    by eapply dayQuotesAdded_trans.
Qed.

Lemma Forall2_rev {A : Type} (R : A → A → Prop) (l l' : list A) :
  Forall2 R l l' → Forall2 R (rev l) (rev l').
Proof.
  induction 1 as [|x y l l' Hxy H IH]; simpl; [constructor|].
  apply Forall2_app; [done|]. by repeat constructor.
Qed.

Lemma dayQuotes_of_date (date : time.Time) (o c h l : float) :
  dayQuotesUpTo date
    (mkQuotes IntervalDay (time.Truncate24h date)
       (time.Truncate24h (time.AddDate date 1)) o c h l).
Proof.
  unfold dayQuotesUpTo, time.Truncate24h, time.AddDate, time.secondsPerDay.
  cbn [qInterval qBegin qEnd]. split; [done|]. split; [|split].
  - rewrite (Z.mul_comm 86400 (date / 86400)), Z.div_mul; lia.
  - replace (date + 86400 * 1) with (date + 1 * 86400) by lia.
    rewrite Z.div_add; lia.
  - apply Z.mul_div_le. lia.
Qed.

Lemma setQuotesFirst_added (date : time.Time) (id : string) (q : SecurityQuotes)
    (l : list Security) :
  dayQuotesUpTo date q → Forall2 (dayQuotesAdded date) l (setQuotesFirst id q l).
Proof.
  intros Hq. induction l as [|s l IH]; simpl; [constructor|].
  destruct (String.eqb (Id s) id).
  - constructor; [|apply Forall2_dayQuotesAdded_refl].
    repeat split. exists [q]. split; [done|]. by constructor.
  - constructor; [apply dayQuotesAdded_refl|done].
Qed.

Lemma historyRowStep_added (boardToCheck : string) (date : time.Time)
    (sec : list Security) (data : moexHistoryRow) :
  Forall2 (dayQuotesAdded date) sec (historyRowStep boardToCheck date sec data).
Proof.
  unfold historyRowStep.
  destruct (hSecId data) as [id|], (hClose data) as [close|];
    try apply Forall2_dayQuotesAdded_refl.
  destruct (String.eqb (hBoard data) boardToCheck);
    [|apply Forall2_dayQuotesAdded_refl].
  unfold setQuotesById. rewrite <- (rev_involutive sec) at 1.
  apply Forall2_rev, setQuotesFirst_added, dayQuotes_of_date.
Qed.

Lemma historyRows_added (boardToCheck : string) (date : time.Time)
    (rows : list moexHistoryRow) :
  ∀ sec, Forall2 (dayQuotesAdded date) sec
           (foldl (historyRowStep boardToCheck date) sec rows).
Proof.
  induction rows as [|data rows IH]; intros sec; simpl.
  - apply Forall2_dayQuotesAdded_refl.
  - eapply (Forall2_dayQuotesAdded_trans date date); [lia| |apply IH].
    apply historyRowStep_added.
Qed.

Lemma pageLoop_added ex arrival engine market board date (pages : nat) :
  ∀ start sec,
    Forall2 (dayQuotesAdded date) sec
      (pagingSec (pageLoop ex arrival engine market board date pages start sec)).
Proof.
  induction pages as [|pages IH]; intros start sec; simpl.
  - apply Forall2_dayQuotesAdded_refl.
  - destruct (history ex engine market (boardPath board) (time.day date) start)
      as [[|data rows] [err|]]; try apply Forall2_dayQuotesAdded_refl.
    + destruct (start =? 0); apply Forall2_dayQuotesAdded_refl.
    + eapply (Forall2_dayQuotesAdded_trans date date); [lia| |apply IH].
      apply historyRows_added.
Qed.

Lemma typesLoop_added ex arrival date (sTypes : list SecurityType) :
  ∀ sec, Forall2 (dayQuotesAdded date) sec
           (pagingSec (typesLoop ex arrival date sTypes sec)).
Proof.
  induction sTypes as [|sType rest IH]; intros sec; cbn [typesLoop].
  - apply Forall2_dayQuotesAdded_refl.
  - destruct (getEngineAndMarket sType) as [[[engine market] board] [err|]];
      [apply Forall2_dayQuotesAdded_refl|].
    pose proof (pageLoop_added ex arrival engine market board date 10 0 sec) as Hp.
    destruct (pageLoop ex arrival engine market board date 10 0 sec) as [sec1| |];
      cbn [pagingSec] in *; try done.
    eapply (Forall2_dayQuotesAdded_trans date date); [lia|exact Hp|apply IH].
Qed.

(** X5: whatever [GetQuotesForDate] returns, [nil] or an error, the
    securities are the ones it was given, in their order, with their ids,
    names, types and currencies; each holds the quotes it held, and after
    them only day quotes of calendar days not after the date, each from
    midnight to the next midnight (counted from the zero Time).  This holds
    for every order in which the rows of a page are handled. *)
Theorem GetQuotesForDate_appends_day_quotes (fuel : nat) (ex : Exchange)
    (arrival : Scheduler) (order : MapOrder) (sec sec' : list Security)
    (date : time.Time) (err : option error) :
  GetQuotesForDate fuel ex arrival order sec date = Some (sec', err) →
  Forall2 (dayQuotesAdded date) sec sec'.
Proof.
  revert sec date. induction fuel as [|fuel IH]; intros sec date; cbn [GetQuotesForDate];
    [done|].
  pose proof (typesLoop_added ex arrival date (order (securityTypes sec)) sec) as Ht.
  destruct (typesLoop ex arrival date (order (securityTypes sec)) sec)
    as [sec1|sec1|sec1 e]; cbn [pagingSec] in Ht.
  - by intros [= <- _].
  - intros H%IH.
    eapply (Forall2_dayQuotesAdded_trans (time.AddDate date (-1)) date);
      [unfold time.AddDate, time.secondsPerDay; lia|exact Ht|exact H].
  - by intros [= <- _].
Qed.

(** The theorem at work: GAZP and LKOH asked for on Sunday, February 6,
    2022: each receives the quote of the Friday before. *)
Lemma GetQuotesForDate_appends_day_quotes_witness :
  let date := time.Date 2022 2 6 12 0 0 in
  let sec := [GetQuickSecurity "GAZP" Share; GetQuickSecurity "LKOH" Share] in
  ∃ sec', GetQuotesForDate 5 exFriday lifo id sec date = Some (sec', None)
          ∧ Forall2 (dayQuotesAdded date) sec sec'
          ∧ map (λ s, length (Quotes s)) sec' = [1%nat; 1%nat].
Proof.
  intros date sec. eexists. split; [by vm_compute|]. split; [|by vm_compute].
  by apply (GetQuotesForDate_appends_day_quotes 5 exFriday lifo id sec _ date None).
Defined.

Lemma holdsQuote_added (date : time.Time) (id : string) (q : SecurityQuotes)
    (sec sec' : list Security) :
  Forall2 (dayQuotesAdded date) sec sec' → holdsQuote id q sec → holdsQuote id q sec'.
Proof.
  intros Hadded (s & Hin & Hid & Hq).
  apply list_elem_of_lookup in Hin as [i Hi].
  destruct (Forall2_lookup_l _ _ _ _ _ Hadded Hi) as (s' & Hi' & Hs & _ & _ & _ & added & Hqs & _).
  exists s'. split; [by eapply list_elem_of_lookup_2|]. split; [congruence|].
  rewrite Hqs. apply elem_of_app. by left.
Qed.

Lemma hasId_added (date : time.Time) (id : string) (sec sec' : list Security) :
  Forall2 (dayQuotesAdded date) sec sec' → id ∈ map Id sec → id ∈ map Id sec'.
Proof.
  intros Hadded Hin.
  replace (map Id sec') with (map Id sec); [done|]. clear Hin.
  induction Hadded as [|s s' l l' Hs _ IH]; [done|]. simpl.
  destruct Hs as [-> _]. by rewrite IH.
Qed.

Lemma setQuotesFirst_sets (id : string) (q : SecurityQuotes) (l : list Security) :
  id ∈ map Id l → holdsQuote id q (setQuotesFirst id q l).
Proof.
  induction l as [|s l IH]; simpl; [by intros ?%elem_of_nil|].
  intros Hin. destruct (String.eqb (Id s) id) eqn:Hs.
  - apply String.eqb_eq in Hs. exists (SetQuotes s q).
    split; [by left|]. split; [done|].
    unfold SetQuotes. simpl. apply elem_of_app. right. by left.
  - apply elem_of_cons in Hin as [Heq|Hin].
    { symmetry in Heq. apply String.eqb_eq in Heq. congruence. }
    destruct (IH Hin) as (s' & Hin' & Hid & Hq).
    exists s'. split; [by right|done].
Qed.

Lemma setQuotesById_sets (id : string) (q : SecurityQuotes) (sec : list Security) :
  id ∈ map Id sec → holdsQuote id q (setQuotesById id q sec).
Proof.
  intros Hin. unfold setQuotesById.
  destruct (setQuotesFirst_sets id q (rev sec)) as (s & Hs & Hid & Hq).
  { rewrite map_rev. apply list_elem_of_In, in_rev. rewrite rev_involutive.
    by apply list_elem_of_In. }
  exists s. split; [|done].
  apply list_elem_of_In. rewrite <- in_rev. by apply list_elem_of_In.
Qed.

Lemma historyRows_sets (boardToCheck : string) (date : time.Time)
    (row : moexHistoryRow) (id : string) (close : float)
    (rows : list moexHistoryRow) :
  hBoard row = boardToCheck → hSecId row = Some id → hClose row = Some close →
  row ∈ rows →
  ∀ sec, ToUpper id ∈ map Id sec →
    holdsQuote (ToUpper id)
      (mkQuotes IntervalDay (time.Truncate24h date)
         (time.Truncate24h (time.AddDate date 1))
         (hOpen row) close (hHigh row) (hLow row))
      (foldl (historyRowStep boardToCheck date) sec rows).
Proof.
  intros Hboard Hid Hclose. induction rows as [|data rows IH]; intros Hin sec Hsec;
    [by apply elem_of_nil in Hin|].
  simpl. apply elem_of_cons in Hin as [<-|Hin].
  - eapply holdsQuote_added; [apply historyRows_added|].
    unfold historyRowStep. rewrite Hid, Hclose, Hboard, String.eqb_refl.
    by apply setQuotesById_sets.
  - apply IH; [done|].
    eapply hasId_added; [apply historyRowStep_added|done].
Qed.

Lemma pageLoop_sets ex arrival engine market board date
    (row : moexHistoryRow) (id : string) (close : float) (pages : nat) :
  interleaves arrival →
  hBoard row = (if String.eqb board "" then "TQBR" else board) →
  hSecId row = Some id → hClose row = Some close →
  ∀ (k : nat) start sec sec',
    (k < pages)%nat →
    (∀ j : nat, (j < k)%nat →
       (history ex engine market (boardPath board) (time.day date)
          (start + 100 * Z.of_nat j)).1 ≠ []) →
    row ∈ (history ex engine market (boardPath board) (time.day date)
             (start + 100 * Z.of_nat k)).1 →
    pageLoop ex arrival engine market board date pages start sec = Paged sec' →
    ToUpper id ∈ map Id sec →
    holdsQuote (ToUpper id)
      (mkQuotes IntervalDay (time.Truncate24h date)
         (time.Truncate24h (time.AddDate date 1))
         (hOpen row) close (hHigh row) (hLow row))
      sec'.
Proof.
  intros Harrival Hboard Hid Hclose.
  induction pages as [|pages IH]; intros k start sec sec' Hk Hfilled Hrow Hrun Hsec;
    [lia|].
  pose proof (pageLoop_added ex arrival engine market board date pages (start + 100)) as Hrest.
  simpl in Hrun.
  destruct k as [|k].
  - replace (start + 100 * Z.of_nat 0) with start in Hrow by lia.
    destruct (history ex engine market (boardPath board) (time.day date) start)
      as [[|data rows] [err|]]; simpl in Hrow; try done.
    { by apply elem_of_nil in Hrow. }
    specialize (Hrest (foldl
      (historyRowStep (if String.eqb board "" then "TQBR" else board) date) sec
      (arrival _ (data :: rows)))).
    rewrite Hrun in Hrest. cbn [pagingSec] in Hrest.
    eapply holdsQuote_added; [exact Hrest|].
    apply historyRows_sets; try done.
    by rewrite (Harrival _ (data :: rows)).
  - pose proof (Hfilled 0%nat ltac:(lia)) as Hfirst.
    replace (start + 100 * Z.of_nat 0) with start in Hfirst by lia.
    destruct (history ex engine market (boardPath board) (time.day date) start)
      as [[|data rows] [err|]]; simpl in Hfirst; try done.
    eapply (IH k (start + 100) _ sec'); [lia| | |exact Hrun|].
    + intros j Hj. specialize (Hfilled (S j) ltac:(lia)).
      by replace (start + 100 + 100 * Z.of_nat j)
        with (start + 100 * Z.of_nat (S j)) by lia.
    + by replace (start + 100 + 100 * Z.of_nat k)
        with (start + 100 * Z.of_nat (S k)) by lia.
    + eapply hasId_added; [apply historyRows_added|done].
Qed.

Lemma typesLoop_sets ex arrival date engine market board
    (row : moexHistoryRow) (id : string) (close : float) (k : nat)
    (sType : SecurityType) (sTypes : list SecurityType) :
  interleaves arrival →
  getEngineAndMarket sType = ((engine, market, board), None) →
  hBoard row = (if String.eqb board "" then "TQBR" else board) →
  hSecId row = Some id → hClose row = Some close →
  (k < 10)%nat →
  (∀ j : nat, (j < k)%nat →
     (history ex engine market (boardPath board) (time.day date)
        (100 * Z.of_nat j)).1 ≠ []) →
  row ∈ (history ex engine market (boardPath board) (time.day date)
           (100 * Z.of_nat k)).1 →
  sType ∈ sTypes →
  ∀ sec sec',
    typesLoop ex arrival date sTypes sec = Paged sec' →
    ToUpper id ∈ map Id sec →
    holdsQuote (ToUpper id)
      (mkQuotes IntervalDay (time.Truncate24h date)
         (time.Truncate24h (time.AddDate date 1))
         (hOpen row) close (hHigh row) (hLow row))
      sec'.
Proof.
  intros Harrival Hclass Hboard Hid Hclose Hk Hfilled Hrow.
  induction sTypes as [|t rest IH]; intros Hin sec sec' Hrun Hsec;
    [by apply elem_of_nil in Hin|].
  cbn [typesLoop] in Hrun.
  destruct (getEngineAndMarket t) as [[[engine' market'] board'] [err|]] eqn:Ht;
    [done|].
  pose proof (pageLoop_added ex arrival engine' market' board' date 10 0 sec) as Hp.
  destruct (pageLoop ex arrival engine' market' board' date 10 0 sec)
    as [sec1| |] eqn:Hpage; try done.
  cbn [pagingSec] in Hp.
  pose proof (typesLoop_added ex arrival date rest sec1) as Hrest.
  rewrite Hrun in Hrest. cbn [pagingSec] in Hrest.
  destruct (decide (t = sType)) as [->|Hne].
  - rewrite Hclass in Ht. injection Ht as <- <- <-.
    eapply holdsQuote_added; [exact Hrest|].
    by apply (pageLoop_sets ex arrival engine market board date row id close 10
                Harrival Hboard Hid Hclose k 0 sec sec1).
  - apply elem_of_cons in Hin as [Heq|Hin]; [congruence|].
    apply (IH Hin sec1 sec'); [done|].
    by eapply hasId_added.
Qed.

(** X24: the quote of a row.  Let [GetQuotesForDate] return [nil] for a
    date on which the first page of every class among the securities is
    not empty, so that it does not go on to the day before, and on which no
    page of these classes names a security twice in the rows that make a
    goroutine append.  Then a row of
    one of the first ten pages of the class of a security of the list (the
    pages before it not being empty) that names the board of the class
    ("TQBR" for a class without board), the id of the security in whatever
    case, and a close has given a security with that id the day quote of
    the date with the prices of the row, in whatever order the rows of a
    page were handled. *)
Theorem GetQuotesForDate_quote_of_row (fuel : nat) (ex : Exchange)
    (arrival : Scheduler) (order : MapOrder) (sec sec' : list Security)
    (date : time.Time) (s : Security) (engine market board : string)
    (k : nat) (row : moexHistoryRow) (id : string) (close : float) :
  interleaves arrival → iterates order →
  (∀ sType, sType ∈ securityTypes sec → hasFirstPage ex (time.day date) sType) →
  (∀ sType engine' market' board' start,
     sType ∈ securityTypes sec →
     getEngineAndMarket sType = ((engine', market', board'), None) →
     namesOnce (if String.eqb board' "" then "TQBR" else board')
       (history ex engine' market' (boardPath board') (time.day date) start).1) →
  GetQuotesForDate (S fuel) ex arrival order sec date = Some (sec', None) →
  s ∈ sec →
  getEngineAndMarket (SType s) = ((engine, market, board), None) →
  (k < 10)%nat →
  (∀ j : nat, (j < k)%nat →
     (history ex engine market (boardPath board) (time.day date)
        (100 * Z.of_nat j)).1 ≠ []) →
  row ∈ (history ex engine market (boardPath board) (time.day date)
           (100 * Z.of_nat k)).1 →
  hBoard row = (if String.eqb board "" then "TQBR" else board) →
  hSecId row = Some id → ToUpper id = Id s → hClose row = Some close →
  ∃ s', s' ∈ sec' ∧ Id s' = Id s
        ∧ mkQuotes IntervalDay (time.Truncate24h date)
            (time.Truncate24h (time.AddDate date 1))
            (hOpen row) close (hHigh row) (hLow row) ∈ Quotes s'.
Proof.
  intros Harrival Horder Hfirst _ Hrun Hs Hclass Hk Hfilled Hrow Hboard Hid Hupper
    Hclose.
  cbn [GetQuotesForDate] in Hrun.
  assert (¬ isNoData (typesLoop ex arrival date (order (securityTypes sec)) sec))
    as Hno.
  { apply typesLoop_all_first_pages, Forall_forall. intros sType Hin.
    apply Hfirst. by rewrite <- (Horder _). }
  destruct (typesLoop ex arrival date (order (securityTypes sec)) sec)
    as [sec1|sec1|sec1 err] eqn:Htypes; simpl in Hno; try done.
  injection Hrun as ->.
  rewrite <- Hupper.
  eapply (typesLoop_sets ex arrival date engine market board row id close k
           (SType s) (order (securityTypes sec))
           Harrival Hclass Hboard Hid Hclose Hk Hfilled Hrow); [|exact Htypes|].
  - rewrite (Horder _). by apply securityTypes_elem.
  - rewrite Hupper. apply list_elem_of_fmap. by exists s.
Qed.

(** The theorem at work: asked on Friday, February 4, 2022, GAZP receives
    the quote of the first row of the page: open 320, close 324.5. *)
Lemma GetQuotesForDate_quote_of_row_witness :
  let date := time.Date 2022 2 4 12 0 0 in
  let sec := [GetQuickSecurity "GAZP" Share; GetQuickSecurity "LKOH" Share] in
  ∃ sec', GetQuotesForDate 1 exFriday lifo id sec date = Some (sec', None)
    ∧ ∃ s', s' ∈ sec' ∧ Id s' = "GAZP"
        ∧ mkQuotes IntervalDay (time.Date 2022 2 4 0 0 0) (time.Date 2022 2 5 0 0 0)
            320%float 324.5%float 326%float 318%float ∈ Quotes s'.
Proof.
  intros date sec. eexists. split; [by vm_compute|].
  apply (GetQuotesForDate_quote_of_row 0 exFriday lifo id sec _ date
           (GetQuickSecurity "GAZP" Share) "stock" "shares" "" 0
           (mkHistoryRow "TQBR" (Some "GAZP") 320%float 318%float 326%float
              (Some 324.5%float))
           "GAZP" 324.5%float).
  - intros A l. apply Permutation_sym, Permutation_rev.
  - by intros l.
  - intros sType Hin. change (securityTypes sec) with [Share] in Hin.
    apply list_elem_of_singleton in Hin as ->.
    intros engine market board [= <- <- <-]. by vm_compute.
  - intros sType engine market board start Hin.
    change (securityTypes sec) with [Share] in Hin.
    apply list_elem_of_singleton in Hin as ->. intros [= <- <- <-].
    unfold exFriday. cbn [history].
    destruct ((time.day date =? time.day (time.Date 2022 2 4 0 0 0)) && (start =? 0)).
    + split; [by repeat constructor|]. apply (bool_decide_unpack _). by vm_compute.
    + split; [constructor|apply NoDup_nil_2].
  - by vm_compute.
  - by left.
  - done.
  - lia.
  - intros j Hj. lia.
  - vm_compute. by left.
  - done.
  - done.
  - done.
  - done.
Defined.

(** ** Package securitiesSQL: reading *)

Lemma dbGAZP_ascii : asciiSecurities dbGAZP.
Proof.
  intros id r Hr. unfold dbGAZP in Hr. cbn [securities] in Hr.
  by apply lookup_singleton_Some in Hr as [<- <-].
Defined.

Lemma SecurityExists_cases (db : DB) (id : string) (sType : SecurityType) :
  (∃ err, checkKey id sType = Some err ∧ SecurityExists db id sType = (false, Some err))
  ∨ (checkKey id sType = None
     ∧ ((∃ r, securities db !! id = Some r ∧ col_type r = sType
              ∧ SecurityExists db id sType = (true, None))
        ∨ ((∀ r, securities db !! id = Some r → col_type r ≠ sType)
           ∧ SecurityExists db id sType = (false, None)))).
Proof.
  unfold SecurityExists, selectIdOfIdAndType.
  destruct (checkKey id sType) as [err|]; [left; by exists err|]. right.
  split; [done|].
  destruct (securities db !! id) as [r|] eqn:Hr.
  - destruct (String.eqb (col_type r) sType) eqn:Ht.
    + left. exists r. apply String.eqb_eq in Ht. done.
    + right. apply String.eqb_neq in Ht. split; [|done]. by intros r' [= <-].
  - right. split; [|done]. by intros r' [=].
Qed.

Lemma SecurityExists_error (db : DB) (id : string) (sType : SecurityType) :
  (SecurityExists db id sType).2 = checkKey id sType.
Proof.
  unfold SecurityExists. destruct (checkKey id sType); [done|].
  by destruct (selectIdOfIdAndType db id sType).
Qed.

Lemma selectQuotesOfSecurity_nil (db : DB) (id : string) :
  selectQuotesOfSecurity db id = []
  ↔ ∀ k v, security_quotes db !! k = Some v → k.1.1 ≠ id.
Proof.
  unfold selectQuotesOfSecurity. rewrite map_to_list_empty_iff. split.
  - intros He k v Hk Hid.
    assert (filter (λ kv : quotesKey * quotesRow, kv.1.1.1 = id)
              (security_quotes db) !! k = Some v) as H.
    { by apply map_lookup_filter_Some. }
    rewrite He in H. by rewrite lookup_empty in H.
  - intros H. apply map_eq. intros k. rewrite lookup_empty.
    apply map_lookup_filter_None_2.
    destruct (security_quotes db !! k) as [v|] eqn:Hk; [|by left].
    right. intros v' [= <-] Hid. by apply (H k v).
Qed.

Lemma selectQuotesOfSecurity_elem (db : DB) (id : string) (kv : quotesKey * quotesRow) :
  kv ∈ selectQuotesOfSecurity db id
  ↔ security_quotes db !! kv.1 = Some kv.2 ∧ kv.1.1.1 = id.
Proof.
  unfold selectQuotesOfSecurity. destruct kv as [k v].
  by rewrite elem_of_map_to_list, map_lookup_filter_Some.
Qed.

Lemma GetSecurityData_cases (arrival : Scheduler) (db : DB) (sec : Security) :
  (∃ err, (checkKey (Id sec) (SType sec) = Some err
           ∨ (checkKey (Id sec) (SType sec) = None
              ∧ (∀ r, securities db !! Id sec = Some r → col_type r ≠ SType sec)
              ∧ err = "security " +:+ Id sec +:+ " does not exist"))
          ∧ GetSecurityData arrival db sec = (sec, Some err))
  ∨ (∃ r, checkKey (Id sec) (SType sec) = None
          ∧ securities db !! Id sec = Some r ∧ col_type r = SType sec
          ∧ GetSecurityData arrival db sec
            = (mkSecurity (Id sec) (col_name r) (SType sec)
                 (GetSecurityCurrencyFromString (col_currency r))
                 (sortSlice lessBegin
                    (Quotes sec
                     ++ arrival _ (map rowQuotes (selectQuotesOfSecurity db (Id sec))))),
               None)).
Proof.
  unfold GetSecurityData.
  destruct (SecurityExists_cases db (Id sec) (SType sec))
    as [(e & He & ->)|[Hkey [(r & Hr & Ht & ->)|[Hno ->]]]].
  - left. exists e. split; [by left|done].
  - right. exists r. split; [done|]. split; [done|]. split; [done|].
    rewrite Hr. by rewrite foldl_SetQuotes.
  - left. eexists. split; [right; done|done].
Qed.

(** X6: [GetSecurityData] succeeds exactly for a security that
    [SecurityExists] finds.  A security it fails for is left as it was.  On
    success the id and the type are kept, the name is the one of the table,
    and the currency is what [GetSecurityCurrencyFromString] makes of the
    currency of the table: one of the constants. *)
Theorem GetSecurityData_fills (arrival : Scheduler) (db : DB) (sec : Security) :
  let sec' := (GetSecurityData arrival db sec).1 in
  let err := (GetSecurityData arrival db sec).2 in
  (err = None ↔ SecurityExists db (Id sec) (SType sec) = (true, None))
  ∧ (err ≠ None → sec' = sec)
  ∧ (err = None →
     ∃ r, securities db !! Id sec = Some r
          ∧ Id sec' = Id sec ∧ SType sec' = SType sec
          ∧ Name sec' = col_name r
          ∧ SecCurrency sec' = GetSecurityCurrencyFromString (col_currency r)
          ∧ SecCurrency sec' ∈ [RUB; USD; EUR; CNY; UnknownCurrency]).
Proof.
  intros sec' err. unfold sec', err.
  destruct (GetSecurityData_cases arrival db sec)
    as [(e & Hwhy & ->)|(r & Hkey & Hr & Ht & ->)]; cbn [fst snd].
  - split; [|by split]. split; [done|]. intros Hex. exfalso.
    destruct (SecurityExists_cases db (Id sec) (SType sec))
      as [(e' & He' & Hex')|[Hkey' [(r' & Hr' & Ht' & _)|[Hno Hex']]]];
      [congruence| |congruence].
    destruct Hwhy as [?|(_ & Hno & _)]; [congruence|]. by apply (Hno r').
  - split; [|split; [done|]].
    + split; [|done]. intros _.
      unfold SecurityExists, selectIdOfIdAndType. rewrite Hkey, Hr.
      apply String.eqb_eq in Ht. by rewrite Ht.
    + intros _. exists r. repeat split; try done.
      cbn [SecCurrency]. unfold GetSecurityCurrencyFromString.
      repeat (destruct (String.eqb _ _)); apply list_elem_of_In; simpl; tauto.
Qed.

Lemma omap_nil_iff {A B : Type} (f : A → option B) (l : list A) :
  omap f l = [] ↔ Forall (λ x, f x = None) l.
Proof.
  induction l as [|x l IH]; [by split; [constructor|]|]. cbn.
  destruct (f x) as [y|] eqn:Hx.
  - split; [done|]. intros [H _]%Forall_cons. congruence.
  - rewrite IH. split; [by constructor|]. by intros [_ H]%Forall_cons.
Qed.

(** X7: [GetSecuritiesData] returns [nil] exactly when
    [GetSecurityData] succeeds for every security of the list.  Otherwise
    its message is the messages of the securities that failed, and no
    others, joined by line feeds in the order of their arrival; so it
    contains the message of each security that failed, also when others
    succeeded. *)
Theorem GetSecuritiesData_partial_failures (arrival : Scheduler) (db : DB)
    (sec : list Security) :
  interleaves arrival →
  let failures := omap (λ s, (GetSecurityData arrival db s).2) sec in
  let err := (GetSecuritiesData arrival db sec).2 in
  (err = None ↔ Forall (λ s, (GetSecurityData arrival db s).2 = None) sec)
  ∧ (∀ msg, err = Some msg →
       ∃ arrived, Permutation arrived failures
                  ∧ msg = joinLines arrived
                  ∧ Forall (contains msg) failures).
Proof.
  intros Harr failures err. unfold err, GetSecuritiesData. cbn [snd].
  rewrite omap_snd_map. fold failures. rewrite collectErrors_joinLines.
  pose proof (Harr _ failures) as Hp.
  destruct (arrival error failures) as [|e arrived] eqn:Ha.
  - apply Permutation_nil_l in Hp. split; [|done]. split; [|done].
    intros _. apply omap_nil_iff. by symmetry.
  - split.
    + split; [done|]. intros Hnone%omap_nil_iff. fold failures in Hnone.
      rewrite Hnone in Hp. by apply Permutation_nil_r in Hp.
    + intros msg [= <-]. exists (e :: arrived). split; [done|]. split; [done|].
      apply Forall_forall. intros e' He'. apply joinLines_contains. by rewrite Hp.
Qed.

(** The theorem at work: of three securities one has no id and one is not
    registered; the third loads. *)
Lemma GetSecuritiesData_partial_failures_witness :
  let sec := [GetQuickSecurity "GAZP" Share; secNoId; GetQuickSecurity "LKOH" Share] in
  interleaves lifo
  ∧ ∃ msg, (GetSecuritiesData lifo dbGAZP sec).2 = Some msg
           ∧ contains msg "security has no id"
           ∧ contains msg "security LKOH does not exist".
Proof.
  intros sec. split; [exact lifo_interleaves|].
  destruct (GetSecuritiesData_partial_failures lifo dbGAZP sec lifo_interleaves)
    as [_ H].
  destruct (GetSecuritiesData lifo dbGAZP sec).2 as [msg|] eqn:Hmsg;
    [|by vm_compute in Hmsg].
  exists msg. split; [done|].
  destruct (H msg eq_refl) as (_ & _ & _ & Hall).
  apply Forall_cons in Hall as [H1 Hall]. apply Forall_cons in Hall as [H2 _].
  by split.
Defined.

Lemma maxEnd_from (rows : list (quotesKey * quotesRow)) :
  ∀ m : option time.Time,
    let step := λ (m : option time.Time) (kv : quotesKey * quotesRow),
                  match m with
                  | None => Some (col_end kv.2)
                  | Some e => Some (Z.max e (col_end kv.2))
                  end in
    match foldl step m rows with
    | None => m = None ∧ rows = []
    | Some e =>
        (m = Some e ∨ ∃ kv, kv ∈ rows ∧ col_end kv.2 = e)
        ∧ (∀ e0, m = Some e0 → e0 ≤ e)
        ∧ ∀ kv, kv ∈ rows → col_end kv.2 ≤ e
    end.
Proof.
  induction rows as [|kv rows IH]; intros m step; cbn [foldl].
  - destruct m as [e|]; [|done]. split; [by left|]. split.
    + by intros e0 [= ->].
    + by intros kv ?%elem_of_nil.
  - specialize (IH (step m kv)). cbn zeta in IH. fold step in IH.
    destruct (foldl step (step m kv) rows) as [e|]; [|by destruct IH as [? _], m].
    destruct IH as (Hwho & Hlow & Hall).
    assert (col_end kv.2 ≤ e) as Hkv.
    { destruct m as [e0|]; cbn in Hlow.
      - specialize (Hlow _ eq_refl). lia.
      - by specialize (Hlow _ eq_refl). }
    split; [|split].
    + destruct Hwho as [Hm|(kv' & Hin & He)].
      * destruct m as [e0|]; cbn in Hm; injection Hm as Hm.
        -- destruct (Z.max_spec e0 (col_end kv.2)) as [[_ Hmax]|[_ Hmax]].
           ++ right. exists kv. split; [by left|congruence].
           ++ left. congruence.
        -- right. exists kv. split; [by left|done].
      * right. exists kv'. split; [by right|done].
    + intros e0 ->. cbn in Hlow. specialize (Hlow _ eq_refl). lia.
    + intros kv' [->|Hin]%elem_of_cons; [done|by apply Hall].
Qed.

Lemma maxEnd_spec (rows : list (quotesKey * quotesRow)) :
  match maxEnd rows with
  | None => rows = []
  | Some e => (∃ kv, kv ∈ rows ∧ col_end kv.2 = e)
              ∧ ∀ kv, kv ∈ rows → col_end kv.2 ≤ e
  end.
Proof.
  pose proof (maxEnd_from rows None) as H. cbn zeta in H. unfold maxEnd.
  destruct (foldl _ None rows) as [e|]; [|by destruct H].
  destruct H as ([?|Hwho] & _ & Hall); [done|by split].
Qed.

Lemma lastQuotesRows_spec (db : DB) (id : string) (r : securitiesRow)
    (q : option SecurityQuotes) :
  q ∈ lastQuotesRows db id → lastQuotesOf db id r (rowSecurity id r q).
Proof.
  unfold lastQuotesRows, lastQuotesOf. intros Hq.
  pose proof (maxEnd_spec (selectQuotesOfSecurity db id)) as Hmax.
  destruct (maxEnd (selectQuotesOfSecurity db id)) as [e|].
  - destruct Hmax as [_ Hall].
    apply list_elem_of_fmap in Hq as (kv & -> & Hkv).
    apply list_elem_of_filter in Hkv as [He Hkv].
    repeat split; try done. right. exists kv. split; [done|]. split; [done|].
    intros kv' Hkv'. rewrite He. by apply Hall.
  - apply list_elem_of_singleton in Hq as ->. repeat split; try done. by left.
Qed.

Lemma lastQuotesRows_nonempty (db : DB) (id : string) :
  lastQuotesRows db id ≠ [].
Proof.
  unfold lastQuotesRows.
  pose proof (maxEnd_spec (selectQuotesOfSecurity db id)) as Hmax.
  destruct (maxEnd (selectQuotesOfSecurity db id)) as [e|]; [|done].
  destruct Hmax as [(kv & Hkv & He) _]. intros Hnil.
  assert (Some (rowQuotes kv)
          ∈ map (λ kv, Some (rowQuotes kv))
              (filter (λ kv : quotesKey * quotesRow, col_end kv.2 = e)
                 (selectQuotesOfSecurity db id))) as Hin.
  { apply list_elem_of_fmap. exists kv. split; [done|].
    by apply list_elem_of_filter. }
  rewrite Hnil in Hin. by apply elem_of_nil in Hin.
Qed.

Lemma lessId_asym (a b : Security) : lessId a b = true → lessId b a = false.
Proof. apply string_ltb_asym. Qed.

Lemma GetAllSecuritiesData_cases (arrival : Scheduler) (db : DB)
    (typeNameFilter currencyNameFilter : string) :
  (¬ knownFilters typeNameFilter currencyNameFilter
   ∧ ∃ err, GetAllSecuritiesData arrival db typeNameFilter currencyNameFilter
            = ([], Some err))
  ∨ (knownFilters typeNameFilter currencyNameFilter
     ∧ GetAllSecuritiesData arrival db typeNameFilter currencyNameFilter
       = (sortSlice lessId
            (arrival _
               (flat_map (λ kv, map (rowSecurity kv.1 kv.2) (lastQuotesRows db kv.1))
                  (map_to_list
                     (filter (λ kv : string * securitiesRow,
                                passesFilters typeNameFilter currencyNameFilter kv.2)
                        (securities db))))), None)).
Proof.
  unfold GetAllSecuritiesData, knownFilters.
  destruct (String.eqb typeNameFilter "") eqn:Htf;
    destruct (String.eqb (GetSecurityTypeFromString typeNameFilter) UnknownType)
      eqn:Htu;
    destruct (String.eqb currencyNameFilter "") eqn:Hcf;
    destruct (String.eqb (GetSecurityCurrencyFromString currencyNameFilter)
                UnknownCurrency) eqn:Hcu;
    repeat match goal with
           | H : String.eqb _ _ = true |- _ => apply String.eqb_eq in H
           | H : String.eqb _ _ = false |- _ => apply String.eqb_neq in H
           end;
    cbn [negb andb];
    first [ right; split; [split; tauto|done]
          | left; split; [intros [[?|?] [?|?]]; done|by eexists] ].
Qed.

(** X8: for filters and a table of ASCII strings, [GetAllSecuritiesData]
    fails exactly when a filter is neither empty nor the name of a type, or
    currency, that the package knows, and then returns no security.
    Otherwise the securities returned are sorted
    by id (none is followed by one with a smaller id); each is made of a
    row of [securities] that passes the filters, and holds at most one
    quote: a quote of the table with the greatest end among those of the
    security, or none when the table has none for it; and every row that
    passes the filters is returned. *)
Theorem GetAllSecuritiesData_last_quotes (arrival : Scheduler) (db : DB)
    (typeNameFilter currencyNameFilter : string) :
  interleaves arrival →
  isASCII typeNameFilter = true → isASCII currencyNameFilter = true →
  asciiSecurities db →
  let res := (GetAllSecuritiesData arrival db typeNameFilter currencyNameFilter).1 in
  let err := (GetAllSecuritiesData arrival db typeNameFilter currencyNameFilter).2 in
  (err = None ↔ knownFilters typeNameFilter currencyNameFilter)
  ∧ (err ≠ None → res = [])
  ∧ (err = None →
     Sorted (inOrder lessId) res
     ∧ (∀ s, s ∈ res →
          ∃ id r, securities db !! id = Some r
                  ∧ passesFilters typeNameFilter currencyNameFilter r
                  ∧ lastQuotesOf db id r s)
     ∧ (∀ id r, securities db !! id = Some r →
                passesFilters typeNameFilter currencyNameFilter r →
                ∃ s, s ∈ res ∧ lastQuotesOf db id r s)).
Proof.
  intros Harr _ _ _ res err. unfold res, err.
  destruct (GetAllSecuritiesData_cases arrival db typeNameFilter currencyNameFilter)
    as [[Hbad (e & ->)]|[Hok ->]]; cbn [fst snd].
  { split; [by split|]. by split. }
  split; [by split|]. split; [done|]. intros _.
  set (rows := flat_map _ _).
  assert (∀ s, s ∈ sortSlice lessId (arrival _ rows) ↔ s ∈ rows) as Hres.
  { intros s. by rewrite sortSlice_perm, (Harr _ _). }
  assert (∀ s, s ∈ rows ↔
               ∃ id r q, securities db !! id = Some r
                         ∧ passesFilters typeNameFilter currencyNameFilter r
                         ∧ q ∈ lastQuotesRows db id ∧ s = rowSecurity id r q)
    as Hrows.
  { intros s. unfold rows. rewrite list_elem_of_In, in_flat_map. split.
    - intros ([id r] & Hin & Hs). apply list_elem_of_In in Hin, Hs.
      apply elem_of_map_to_list, map_lookup_filter_Some in Hin as [Hr Hp].
      apply list_elem_of_fmap in Hs as (q & -> & Hq). by exists id, r, q.
    - intros (id & r & q & Hr & Hp & Hq & ->). exists (id, r). split.
      + apply list_elem_of_In, elem_of_map_to_list, map_lookup_filter_Some.
        by split.
      + apply list_elem_of_In, list_elem_of_fmap. by exists q. }
  split; [apply sortSlice_sorted, lessId_asym|]. split.
  - intros s (id & r & q & Hr & Hp & Hq & ->)%Hres%Hrows. exists id, r.
    split; [done|]. split; [done|]. by apply lastQuotesRows_spec.
  - intros id r Hr Hp.
    destruct (lastQuotesRows db id) as [|q qs] eqn:Hq;
      [by destruct (lastQuotesRows_nonempty db id)|].
    exists (rowSecurity id r q). split.
    + apply Hres, Hrows. exists id, r, q. rewrite Hq.
      repeat split; try done; try apply Hp. by left.
    + apply lastQuotesRows_spec. rewrite Hq. by left.
Qed.

(** The theorem at work: the shares of [dbGAZP]; GAZP comes with one of its
    quotes, the one that ends last. *)
Lemma GetAllSecuritiesData_last_quotes_witness :
  let res := (GetAllSecuritiesData lifo dbGAZP "Share" "").1 in
  interleaves lifo
  ∧ asciiSecurities dbGAZP
  ∧ ∃ s, s ∈ res
         ∧ lastQuotesOf dbGAZP "GAZP" (mkSecuritiesRow "Gazprom shares" "share" "RUB") s.
Proof.
  intros res. split; [exact lifo_interleaves|].
  split; [exact dbGAZP_ascii|].
  destruct (GetAllSecuritiesData_last_quotes lifo dbGAZP "Share" "" lifo_interleaves
              eq_refl eq_refl dbGAZP_ascii)
    as (_ & _ & H).
  destruct H as (_ & _ & H); [by vm_compute|].
  apply (H "GAZP"); [by vm_compute|]. split; [by left|by right].
Defined.

(** ** Package securitiesSQL: adding and deleting securities *)

Lemma addSecuritiesLoop_newSecurities (db : DB) (sec : list Security) :
  Forall (λ s, checkKey (Id s) (SType s) = None) sec →
  ∀ args, addSecuritiesLoop db sec args = (args ++ newSecurities db sec, None).
Proof.
  induction 1 as [|s rest Hs Hrest IH]; intros args; simpl.
  - by rewrite app_nil_r.
  - pose proof (SecurityExists_error db (Id s) (SType s)) as He.
    rewrite Hs in He.
    destruct (SecurityExists db (Id s) (SType s)) as [[|] [e|]]; try done.
    rewrite IH. by rewrite <- app_assoc.
Qed.

Lemma addSecuritiesLoop_error (db : DB) (sec : list Security) :
  ¬ Forall (λ s, checkKey (Id s) (SType s) = None) sec →
  ∀ args, ∃ args' err, addSecuritiesLoop db sec args = (args', Some err).
Proof.
  induction sec as [|s rest IH]; intros Hno args; simpl.
  - destruct Hno. constructor.
  - pose proof (SecurityExists_error db (Id s) (SType s)) as He.
    destruct (SecurityExists db (Id s) (SType s)) as [[|] [e|]];
      try by eexists _, _.
    all: simpl in He.
    all: assert (¬ Forall (λ s, checkKey (Id s) (SType s) = None) rest) as Hrest
      by (intros H; apply Hno; by constructor).
    all: by apply IH.
Qed.

Lemma newSecurities_elem (db : DB) (sec : list Security) (row : string * securitiesRow) :
  row ∈ newSecurities db sec
  ↔ ∃ s, s ∈ sec ∧ row = securityArgs s
         ∧ SecurityExists db (Id s) (SType s) = (false, None).
Proof.
  induction sec as [|s rest IH]; cbn [newSecurities].
  - split; [by intros ?%elem_of_nil|]. by intros (s & ?%elem_of_nil & _).
  - destruct (SecurityExists db (Id s) (SType s)) as [[|] [e|]] eqn:Hs;
      rewrite ?elem_of_cons, IH; split.
    all: try (intros (s' & Hin & Hrow & Hnone); exists s'; split; [by right|done]).
    all: try (intros (s' & [->|Hin]%elem_of_cons & Hrow & Hnone); [congruence|];
              by exists s').
    + intros [->|(s' & Hin & Hrow & Hnone)].
      * exists s. split; [by left|done].
      * exists s'. split; [by right|done].
    + intros (s' & [->|Hin]%elem_of_cons & Hrow & Hnone); [by left|].
      right. by exists s'.
Qed.

Lemma newSecurities_app (db : DB) (l l' : list Security) :
  newSecurities db (l ++ l') = newSecurities db l ++ newSecurities db l'.
Proof.
  induction l as [|s l IH]; cbn [newSecurities app]; [done|].
  destruct (SecurityExists db (Id s) (SType s)) as [[|] [e|]]; try done.
  by rewrite IH.
Qed.

Lemma AddSecurities_cases (db : DB) (sec : list Security) :
  let rows := newSecurities db sec in
  (∃ err, AddSecurities db sec = (db, Some err)
          ∧ (¬ Forall (λ s, checkKey (Id s) (SType s) = None) sec
             ∨ ¬ securitiesInsertable db rows))
  ∨ (Forall (λ s, checkKey (Id s) (SType s) = None) sec
     ∧ ((AddSecurities db sec = (db, None) ∧ rows = [])
        ∨ (AddSecurities db sec
           = (mkDB (list_to_map rows ∪ securities db) (security_quotes db), None)
           ∧ securitiesInsertable db rows))).
Proof.
  intros rows. unfold AddSecurities.
  destruct (decide (Forall (λ s, checkKey (Id s) (SType s) = None) sec))
    as [Hkeys|Hkeys].
  - rewrite (addSecuritiesLoop_newSecurities db sec Hkeys). rewrite app_nil_l.
    fold rows. destruct rows as [|row rows'] eqn:Hrows.
    + right. split; [done|]. by left.
    + unfold insertSecurities.
      destruct (decide (securitiesInsertable db (row :: rows'))) as [Hins|Hins].
      * right. split; [done|]. by right.
      * left. eexists. split; [done|]. by right.
  - destruct (addSecuritiesLoop_error db sec Hkeys []) as (args' & err & ->).
    left. exists err. split; [by destruct args'|]. by left.
Qed.

(** X9: [AddSecurities] adds all or nothing.  It never touches the
    quotes and never changes or removes a row of [securities]; a row the
    table holds afterwards was there before, or is the row of a security
    of the list whose id was not registered (a security without currency
    being stored with RUB).  When it returns an error the database is as
    it was; when it returns [nil], [SecurityExists] finds every security
    of the list. *)
Theorem AddSecurities_all_or_nothing (db : DB) (sec : list Security) :
  let db' := (AddSecurities db sec).1 in
  let err := (AddSecurities db sec).2 in
  security_quotes db' = security_quotes db
  ∧ (∀ id r, securities db !! id = Some r → securities db' !! id = Some r)
  ∧ (∀ id r, securities db' !! id = Some r →
       securities db !! id = Some r
       ∨ (securities db !! id = None ∧ ∃ s, s ∈ sec ∧ (id, r) = securityArgs s))
  ∧ (err ≠ None → db' = db)
  ∧ (err = None →
     Forall (λ s, SecurityExists db' (Id s) (SType s) = (true, None)) sec).
Proof.
  intros db' err. unfold db', err.
  destruct (AddSecurities_cases db sec)
    as [(e & -> & _)|[Hkeys [[-> Hrows]|[-> Hins]]]]; cbn [fst snd securities security_quotes].
  - repeat split; try done. by left.
  - split; [done|]. split; [done|]. split; [by left|]. split; [done|].
    intros _. apply Forall_forall. intros s Hin.
    rewrite Forall_forall in Hkeys. specialize (Hkeys s Hin).
    destruct (SecurityExists_cases db (Id s) (SType s))
      as [(e & He & _)|[_ [(r & Hr & Ht & Hex)|[_ Hex]]]]; [congruence|done|].
    assert (securityArgs s ∈ newSecurities db sec) as Hnew.
    { apply newSecurities_elem. by exists s. }
    rewrite Hrows in Hnew. by apply elem_of_nil in Hnew.
  - destruct Hins as [Hnd Hfresh]. rewrite Forall_forall in Hfresh.
    assert (∀ id r, securities db !! id = Some r →
              (list_to_map (newSecurities db sec) ∪ securities db) !! id = Some r)
      as Hkeep.
    { intros id r Hr. apply lookup_union_Some_raw. right. split; [|done].
      apply not_elem_of_list_to_map_1. intros Hin.
      specialize (Hfresh id Hin). congruence. }
    split; [done|]. split; [done|]. split; [|split; [done|]].
    + intros id r [Hl|[_ Hm]]%lookup_union_Some_raw; [|by left].
      right. apply elem_of_list_to_map_2 in Hl.
      split.
      * apply Hfresh. apply list_elem_of_fmap. by exists (id, r).
      * apply newSecurities_elem in Hl as (s & Hin & Hrow & _). by exists s.
    + intros _. apply Forall_forall. intros s Hin.
      rewrite Forall_forall in Hkeys. specialize (Hkeys s Hin).
      assert (∃ r, (list_to_map (newSecurities db sec) ∪ securities db) !! Id s
                   = Some r ∧ col_type r = SType s) as (r & Hr & Ht).
      { destruct (SecurityExists_cases db (Id s) (SType s))
          as [(e & He & _)|[_ [(r & Hr & Ht & Hex)|[_ Hex]]]]; [congruence| |].
        - exists r. split; [by apply Hkeep|done].
        - exists (securityArgs s).2. split; [|done].
          apply lookup_union_Some_l. apply elem_of_list_to_map_1; [done|].
          change (Id s, (securityArgs s).2) with (securityArgs s).
          apply newSecurities_elem. by exists s. }
      unfold SecurityExists, selectIdOfIdAndType. rewrite Hkeys.
      cbn [securities]. rewrite Hr.
      apply String.eqb_eq in Ht. by rewrite Ht.
Qed.

(** X10: given securities that pass the guards of [SecurityExists],
    [AddSecurities] fails and adds none of them when one has an id that is
    registered with another type, or when two of them share an id that is
    not registered: the one INSERT would break the primary key of
    [securities]. *)
Theorem AddSecurities_duplicate_entry (db : DB) (sec : list Security) :
  Forall (λ s, checkKey (Id s) (SType s) = None) sec →
  (∃ s r, s ∈ sec ∧ securities db !! Id s = Some r ∧ col_type r ≠ SType s)
  ∨ (∃ l1 s l2 s' l3, sec = l1 ++ s :: l2 ++ s' :: l3
                      ∧ Id s = Id s' ∧ securities db !! Id s = None) →
  ∃ err, AddSecurities db sec = (db, Some err).
Proof.
  intros Hkeys Hdup.
  destruct (AddSecurities_cases db sec)
    as [(e & He & _)|[_ [[_ Hrows]|[_ Hins]]]]; [by exists e| |]; exfalso.
  - assert (∃ s, securityArgs s ∈ newSecurities db sec) as [s Hs];
      [|rewrite Hrows in Hs; by apply elem_of_nil in Hs].
    destruct Hdup as [(s & r & Hin & Hr & Ht)|(l1 & s & l2 & s' & l3 & -> & _ & Hr)];
      exists s; apply newSecurities_elem; exists s.
    + split; [done|]. split; [done|].
      rewrite Forall_forall in Hkeys. specialize (Hkeys s Hin).
      destruct (SecurityExists_cases db (Id s) (SType s))
        as [(e & He & _)|[_ [(r' & Hr' & Ht' & _)|[_ Hex]]]]; congruence.
    + split; [apply elem_of_app; right; by left|]. split; [done|].
      rewrite Forall_forall in Hkeys.
      assert (s ∈ l1 ++ s :: l2 ++ s' :: l3) as Hin
        by (apply elem_of_app; right; by left).
      specialize (Hkeys s Hin).
      destruct (SecurityExists_cases db (Id s) (SType s))
        as [(e & He & _)|[_ [(r' & Hr' & Ht' & _)|[_ Hex]]]]; congruence.
  - destruct Hins as [Hnd Hfresh]. rewrite Forall_forall in Hfresh.
    destruct Hdup as [(s & r & Hin & Hr & Ht)|(l1 & s & l2 & s' & l3 & -> & Hid & Hr)].
    + assert (securityArgs s ∈ newSecurities db sec) as Hnew.
      { apply newSecurities_elem. exists s. split; [done|]. split; [done|].
        rewrite Forall_forall in Hkeys. specialize (Hkeys s Hin).
        destruct (SecurityExists_cases db (Id s) (SType s))
          as [(e & He & _)|[_ [(r' & Hr' & Ht' & _)|[_ Hex]]]]; congruence. }
      assert (Id s ∈ (newSecurities db sec).*1) as Hk.
      { apply list_elem_of_fmap. by exists (securityArgs s). }
      specialize (Hfresh _ Hk). congruence.
    + assert (∀ x, x ∈ l1 ++ s :: l2 ++ s' :: l3 → securities db !! Id x = None →
                   SecurityExists db (Id x) (SType x) = (false, None)) as Hnone.
      { intros x Hin Hx. rewrite Forall_forall in Hkeys. specialize (Hkeys x Hin).
        destruct (SecurityExists_cases db (Id x) (SType x))
          as [(e & He & _)|[_ [(r' & Hr' & Ht' & _)|[_ Hex]]]]; congruence. }
      rewrite newSecurities_app in Hnd. cbn [newSecurities] in Hnd.
      rewrite (Hnone s) in Hnd; [|apply elem_of_app; right; by left|done].
      rewrite newSecurities_app in Hnd. cbn [newSecurities] in Hnd.
      rewrite (Hnone s') in Hnd;
        [|apply elem_of_app; right; right; apply elem_of_app; right; by left
         |congruence].
      rewrite fmap_app, fmap_cons, fmap_app, fmap_cons in Hnd.
      apply NoDup_app in Hnd as (_ & _ & Hnd).
      apply NoDup_cons in Hnd as [Hnd _]. apply Hnd.
      apply elem_of_app. right. cbn [securityArgs fst]. rewrite Hid. by left.
Qed.

(** The theorem at work: LKOH named twice, once in small letters; ids are
    in capitals. *)
Lemma AddSecurities_duplicate_entry_witness :
  let twice := [GetQuickSecurity "LKOH" Share; GetQuickSecurity "lkoh" Share] in
  Forall (λ s, checkKey (Id s) (SType s) = None) twice
  ∧ ∃ err, AddSecurities dbGAZP twice = (dbGAZP, Some err).
Proof.
  intros twice.
  assert (Forall (λ s, checkKey (Id s) (SType s) = None) twice) as Hkeys.
  { repeat constructor. }
  split; [done|].
  apply (AddSecurities_duplicate_entry dbGAZP twice Hkeys).
  right. exists [], (GetQuickSecurity "LKOH" Share), [], (GetQuickSecurity "lkoh" Share), [].
  split; [done|]. split; [done|]. by vm_compute.
Defined.

Lemma arrival_nil (arrival : Scheduler) (A : Type) :
  interleaves arrival → arrival A [] = [].
Proof. intros H. specialize (H A []). by apply Permutation_nil_r in H. Qed.

Lemma AddSecurity_fresh (db db' : DB) (sec : Security) :
  securities db !! Id sec = None →
  AddSecurity db sec = (db', None) →
  checkKey (Id sec) (SType sec) = None
  ∧ db' = mkDB (<[Id sec := (securityArgs sec).2]> (securities db)) (security_quotes db).
Proof.
  intros Hfresh Hadd. unfold AddSecurity in Hadd.
  destruct (AddSecurities_cases db [sec])
    as [(e & He & _)|[Hkeys [[_ Hrows]|[Hdb' _]]]]; [congruence| |].
  - exfalso. apply Forall_cons in Hkeys as [Hkey _].
    assert (securityArgs sec ∈ newSecurities db [sec]) as Hnew.
    { apply newSecurities_elem. exists sec. split; [by left|]. split; [done|].
      destruct (SecurityExists_cases db (Id sec) (SType sec))
        as [(e & He & _)|[_ [(r & Hr & _)|[_ Hex]]]]; congruence. }
    rewrite Hrows in Hnew. by apply elem_of_nil in Hnew.
  - apply Forall_cons in Hkeys as [Hkey _]. split; [done|].
    rewrite Hadd in Hdb'. injection Hdb' as ->. f_equal.
    cbn [newSecurities].
    destruct (SecurityExists_cases db (Id sec) (SType sec))
      as [(e & He & _)|[_ [(r & Hr & _)|[_ ->]]]]; [congruence|congruence|].
    cbn [list_to_map foldr]. by rewrite insert_empty, <- insert_union_singleton_l.
Qed.

Lemma foreignKey_fresh (db : DB) (id : string) :
  foreignKey db → securities db !! id = None →
  ∀ k v, security_quotes db !! k = Some v → k.1.1 ≠ id.
Proof.
  intros Hfk Hfresh k v Hk <-. destruct (Hfk k v Hk) as [r Hr]. congruence.
Qed.

Lemma dbGAZP_foreignKey : foreignKey dbGAZP.
Proof.
  intros k v Hk. unfold dbGAZP in Hk. cbn [security_quotes] in Hk.
  apply elem_of_list_to_map_2, list_elem_of_fmap in Hk as (q & Heq & _).
  injection Heq as -> _. vm_compute. by eexists.
Defined.

(** X11: a security is read back as it was added.  Let id, name and type
    be ASCII strings that fit their columns.  When [AddSecurity] of
    [GetSecurity id name sType currency] has returned [nil] for an id that
    was not registered, [GetSecurityData] of [GetQuickSecurity id
    sType] returns that security: its name, no quotes, and the currency
    given, RUB in place of the unknown currency. *)
Theorem AddSecurity_then_GetSecurityData (arrival : Scheduler) (db db' : DB)
    (id name : string) (sType : SecurityType) (currency : SecurityCurrency) :
  interleaves arrival →
  foreignKey db →
  fitsColumn 20 id → fitsColumn 150 name → fitsColumn 20 sType →
  securities db !! ToUpper id = None →
  currency ∈ [RUB; USD; EUR; CNY; UnknownCurrency] →
  AddSecurity db (GetSecurity id name sType currency) = (db', None) →
  GetSecurityData arrival db' (GetQuickSecurity id sType)
  = (GetSecurity id name sType
       (if String.eqb currency UnknownCurrency then RUB else currency), None).
Proof.
  intros Harr Hfk _ _ _ Hfresh Hcur Hadd.
  apply AddSecurity_fresh in Hadd as [Hkey Hdb']; [|done].
  set (probe := GetQuickSecurity id sType).
  change (checkKey (Id probe) (SType probe) = None) in Hkey.
  assert (securities db' !! Id probe
          = Some (securityArgs (GetSecurity id name sType currency)).2) as Hrow.
  { rewrite Hdb'. cbn [securities]. apply lookup_insert_eq. }
  assert (selectQuotesOfSecurity db' (Id probe) = []) as Hnone.
  { apply selectQuotesOfSecurity_nil. rewrite Hdb'. cbn [security_quotes].
    by apply foreignKey_fresh. }
  destruct (GetSecurityData_cases arrival db' probe)
    as [(e & Hwhy & _)|(r & _ & Hr & _ & ->)].
  - exfalso. destruct Hwhy as [?|(_ & Hno & _)]; [congruence|].
    by eapply Hno.
  - rewrite Hnone. rewrite Hrow in Hr. injection Hr as <-.
    cbn [map]. rewrite (arrival_nil arrival _ Harr).
    unfold probe, GetQuickSecurity, GetSecurity. cbn. f_equal. f_equal.
    repeat (apply elem_of_cons in Hcur as [->|Hcur]; [by vm_compute|]).
    by apply elem_of_nil in Hcur.
Qed.

(** The theorem at work: LKOH added without currency to [dbGAZP] and read
    back. *)
Lemma AddSecurity_then_GetSecurityData_witness :
  let db' := (AddSecurity dbGAZP (GetSecurity "lkoh" "Lukoil shares" Share UnknownCurrency)).1 in
  interleaves lifo ∧ foreignKey dbGAZP
  ∧ GetSecurityData lifo db' (GetQuickSecurity "lkoh" Share)
    = (GetSecurity "LKOH" "Lukoil shares" Share RUB, None).
Proof.
  intros db'.
  split; [exact lifo_interleaves|]. split; [exact dbGAZP_foreignKey|].
  apply (AddSecurity_then_GetSecurityData lifo dbGAZP db' "lkoh" "Lukoil shares"
           Share UnknownCurrency lifo_interleaves dbGAZP_foreignKey).
  - split; [done|simpl; lia].
  - split; [done|simpl; lia].
  - split; [done|simpl; lia].
  - by vm_compute.
  - set_solver.
  - by vm_compute.
Defined.

Lemma deleteQuotesOfSecurity_select (db : DB) (id : string) :
  selectQuotesOfSecurity (deleteQuotesOfSecurity db id) id = [].
Proof.
  apply selectQuotesOfSecurity_nil. intros k v Hk. cbn in Hk.
  by apply map_lookup_filter_Some in Hk as [_ Hk].
Qed.

(** X12: [DeleteSecurity] of a security that [SecurityExists] finds
    returns [nil]: its quotes are deleted before its row, so the foreign
    key never stands in the way.  Afterwards the id is registered under no
    type and has no quotes, the other securities and their quotes are
    untouched, and a database in which every quote belonged to a
    registered security is still one.  A security that [SecurityExists]
    does not find, be its id not registered or registered with another
    type, is answered with [nil] as well, and nothing is deleted. *)
Theorem DeleteSecurity_removes (db : DB) (sec : Security) :
  let db' := (DeleteSecurity db sec).1 in
  let err := (DeleteSecurity db sec).2 in
  (SecurityExists db (Id sec) (SType sec) = (true, None) →
   err = None
   ∧ securities db' = delete (Id sec) (securities db)
   ∧ (∀ sType, (SecurityExists db' (Id sec) sType).1 = false)
   ∧ selectQuotesOfSecurity db' (Id sec) = []
   ∧ (∀ k, k.1.1 ≠ Id sec → security_quotes db' !! k = security_quotes db !! k)
   ∧ (foreignKey db → foreignKey db'))
  ∧ (SecurityExists db (Id sec) (SType sec) = (false, None) →
     err = None ∧ db' = db)
  ∧ (∀ r, checkKey (Id sec) (SType sec) = None →
          securities db !! Id sec = Some r → col_type r ≠ SType sec →
          err = None ∧ db' = db).
Proof.
  intros db' err. unfold db', err, DeleteSecurity. split; [|split].
  - intros ->. unfold deleteSecurityRow.
    rewrite deleteQuotesOfSecurity_select. cbn [fst snd securities security_quotes].
    split; [done|]. split; [done|]. split; [|split; [|split]].
    + intros sType. unfold SecurityExists, selectIdOfIdAndType.
      destruct (checkKey (Id sec) sType); [done|].
      cbn [securities]. by rewrite lookup_delete_eq.
    + apply selectQuotesOfSecurity_nil. intros k v Hk. cbn in Hk.
      by apply map_lookup_filter_Some in Hk as [_ Hk].
    + intros k Hk. unfold deleteQuotesOfSecurity. cbn [security_quotes].
      destruct (security_quotes db !! k) as [v|] eqn:Hv.
      * by apply map_lookup_filter_Some.
      * apply map_lookup_filter_None_2. by left.
    + intros Hfk k v Hk. cbn in Hk.
      apply map_lookup_filter_Some in Hk as [Hk Hid]. cbn in Hid.
      cbn [securities]. rewrite lookup_delete_ne; [|done]. by apply (Hfk k v).
  - by intros ->.
  - intros r Hkey Hr Ht.
    destruct (SecurityExists_cases db (Id sec) (SType sec))
      as [(e & He & _)|[_ [(r' & Hr' & Ht' & _)|[_ ->]]]]; [congruence| |done].
    congruence.
Qed.

(** X13: adding a security whose id was not registered and deleting
    it again gives back the database as it was, when every quote of that
    database belongs to a registered security. *)
Theorem AddSecurity_then_DeleteSecurity (db db' : DB) (sec : Security) :
  foreignKey db →
  securities db !! Id sec = None →
  AddSecurity db sec = (db', None) →
  DeleteSecurity db' sec = (db, None).
Proof.
  intros Hfk Hfresh Hadd.
  apply AddSecurity_fresh in Hadd as [Hkey ->]; [|done].
  set (db1 := mkDB _ _).
  assert (SecurityExists db1 (Id sec) (SType sec) = (true, None)) as Hex.
  { unfold SecurityExists, selectIdOfIdAndType. rewrite Hkey.
    unfold db1. cbn [securities]. rewrite lookup_insert_eq.
    cbn [securityArgs snd col_type]. by rewrite String.eqb_refl. }
  assert (∀ k v, security_quotes db1 !! k = Some v → k.1.1 ≠ Id sec) as Hnone.
  { exact (foreignKey_fresh db (Id sec) Hfk Hfresh). }
  assert (deleteQuotesOfSecurity db1 (Id sec) = db1) as Hsame.
  { unfold deleteQuotesOfSecurity, db1. cbn [securities security_quotes]. f_equal.
    by apply map_filter_id. }
  unfold DeleteSecurity, deleteSecurityRow. rewrite Hex, Hsame.
  apply selectQuotesOfSecurity_nil in Hnone. rewrite Hnone.
  unfold db1. cbn [securities security_quotes]. rewrite delete_insert_id; [|done].
  by destruct db.
Qed.

(** The theorem at work: LKOH added to [dbGAZP] and deleted again. *)
Lemma AddSecurity_then_DeleteSecurity_witness :
  let sec := GetSecurity "LKOH" "Lukoil shares" Share RUB in
  foreignKey dbGAZP
  ∧ securities dbGAZP !! Id sec = None
  ∧ DeleteSecurity (AddSecurity dbGAZP sec).1 sec = (dbGAZP, None).
Proof.
  intros sec. split; [exact dbGAZP_foreignKey|]. split; [by vm_compute|].
  apply (AddSecurity_then_DeleteSecurity dbGAZP _ sec dbGAZP_foreignKey);
    by vm_compute.
Defined.

(** ** Package securitiesSQL: storing quotes *)

Lemma twoCandles_held :
  Forall (heldByQuotes IntervalDay) (map (candleQuotes IntervalDay) twoCandles).
Proof.
  unfold twoCandles. cbn [map candleQuotes cBegin cEnd cOpen cClose cHigh cLow].
  apply Forall_cons. split; [|apply Forall_cons; split; [|by apply Forall_nil]].
  - unfold heldByQuotes, heldByDatetime. cbn [qBegin qEnd qOpen qClose qHigh qLow].
    split; [by vm_compute|]. split; [by vm_compute|]. split; [by vm_compute|].
    split; [|split; [|split]].
    + exists 340000000. split; [lia|by vm_compute].
    + exists 342000000. split; [lia|by vm_compute].
    + exists 345000000. split; [lia|by vm_compute].
    + exists 338000000. split; [lia|by vm_compute].
  - unfold heldByQuotes, heldByDatetime. cbn [qBegin qEnd qOpen qClose qHigh qLow].
    split; [by vm_compute|]. split; [by vm_compute|]. split; [by vm_compute|].
    split; [|split; [|split]].
    + exists 342000000. split; [lia|by vm_compute].
    + exists 350000000. split; [lia|by vm_compute].
    + exists 351000000. split; [lia|by vm_compute].
    + exists 341000000. split; [lia|by vm_compute].
Qed.

Lemma rowQuotes_quotesArgs (id : string) (interval : QuotesInterval) (q : SecurityQuotes) :
  qInterval q = interval → rowQuotes (quotesArgs id interval q) = q.
Proof. intros <-. by destruct q. Qed.

Lemma storeSecurityQuotes_cases (db : DB) (sec : Security)
    (dateFrom dateTill : time.Time) (interval : QuotesInterval) :
  let quotes := QuotesOfInterval sec interval in
  let rows := map (quotesArgs (Id sec) interval) quotes in
  let db1 := deleteQuotesInRange db (Id sec) dateFrom dateTill interval in
  (quotes = [] ∧ storeSecurityQuotes db sec dateFrom dateTill interval = (db, None))
  ∨ (quotes ≠ []
     ∧ ((∃ err, storeSecurityQuotes db sec dateFrom dateTill interval = (db1, Some err)
                ∧ ¬ quotesInsertable db1 rows)
        ∨ (storeSecurityQuotes db sec dateFrom dateTill interval
           = (mkDB (securities db) (list_to_map rows ∪ security_quotes db1), None)
           ∧ quotesInsertable db1 rows))).
Proof.
  intros quotes rows db1. unfold storeSecurityQuotes. fold quotes.
  destruct quotes as [|q quotes'] eqn:Hq; [by left|]. right. split; [done|].
  fold rows. fold db1. unfold insertQuotes.
  destruct (decide (quotesInsertable db1 rows)) as [Hins|Hins].
  - by right.
  - left. by eexists.
Qed.

Lemma SecurityQuotesExist_Some (db : DB) (sec : Security) (date : time.Time)
    (interval : QuotesInterval) (v : quotesRow) :
  security_quotes db !! (Id sec, date, interval) = Some v →
  SecurityQuotesExist db sec date interval = (true, None).
Proof.
  intros H. unfold SecurityQuotesExist, selectQuotesOfKey.
  match goal with
  | |- context [@lookup ?K ?A ?M ?I ?k ?m] =>
      change (@lookup K A M I k m = Some v) in H
  end.
  by rewrite H.
Qed.

(** X14: what the table holds after an update.  When the second half of
    [UpdateSecurityQuotes] has returned [nil] for a security that holds
    quotes of the interval, each with times and prices that the columns
    give back as they were written: the table of securities is as before; no two of
    those quotes begin at the same time; each has its row under (security,
    begin, interval), with its end and prices, and [SecurityQuotesExist]
    finds it; a key of the security and interval that lies in the range
    [dateFrom, dateTill] and is not the key of one of the quotes has no
    row; and under every other key the table holds what it held. *)
Theorem storeSecurityQuotes_stored (db db' : DB) (sec : Security)
    (dateFrom dateTill : time.Time) (interval : QuotesInterval) :
  QuotesOfInterval sec interval ≠ [] →
  Forall (heldByQuotes interval) (QuotesOfInterval sec interval) →
  storeSecurityQuotes db sec dateFrom dateTill interval = (db', None) →
  let stored k := ∃ q, q ∈ QuotesOfInterval sec interval
                       ∧ k = (Id sec, qBegin q, interval) in
  securities db' = securities db
  ∧ NoDup (map qBegin (QuotesOfInterval sec interval))
  ∧ (∀ q, q ∈ QuotesOfInterval sec interval →
       security_quotes db' !! (Id sec, qBegin q, interval)
       = Some (quotesArgs (Id sec) interval q).2
       ∧ SecurityQuotesExist db' sec (qBegin q) interval = (true, None))
  ∧ (∀ k, ¬ stored k → inRange (Id sec) dateFrom dateTill interval k →
          security_quotes db' !! k = None)
  ∧ (∀ k, ¬ stored k → ¬ inRange (Id sec) dateFrom dateTill interval k →
          security_quotes db' !! k = security_quotes db !! k).
Proof.
  intros Hne _ Hstore stored.
  destruct (storeSecurityQuotes_cases db sec dateFrom dateTill interval)
    as [[Hnil _]|[_ [(err & He & _)|[Hdb' Hins]]]]; [done|congruence|].
  rewrite Hstore in Hdb'. injection Hdb' as ->.
  set (rows := map (quotesArgs (Id sec) interval) (QuotesOfInterval sec interval)) in *.
  set (db1 := deleteQuotesInRange db (Id sec) dateFrom dateTill interval) in *.
  destruct Hins as (Hnd & Hfresh & _).
  assert (∀ k, k ∈ rows.*1 ↔ stored k) as Hkeys.
  { intros k. unfold rows, stored. rewrite <- list_fmap_compose. split.
    - intros (q & -> & Hq)%list_elem_of_fmap. by exists q.
    - intros (q & Hq & ->). apply list_elem_of_fmap. by exists q. }
  assert (∀ k, security_quotes db1 !! k
               = if decide (inRange (Id sec) dateFrom dateTill interval k)
                 then None else security_quotes db !! k) as Hdb1.
  { intros k. unfold db1, deleteQuotesInRange. cbn [security_quotes].
    destruct (decide (inRange (Id sec) dateFrom dateTill interval k)) as [Hin|Hin].
    - apply map_lookup_filter_None_2.
      destruct (security_quotes db !! k) as [v|] eqn:Hv; [|by left].
      right. intros v' _ Hno. by apply Hno.
    - destruct (security_quotes db !! k) as [v|] eqn:Hv.
      + by apply map_lookup_filter_Some.
      + apply map_lookup_filter_None_2. by left. }
  split; [done|]. split; [|split; [|split]].
  - unfold rows in Hnd. rewrite <- list_fmap_compose in Hnd.
    apply (NoDup_fmap_1 (λ b : Z, (Id sec, b, interval))).
    by rewrite <- list_fmap_compose.
  - intros q Hq.
    assert (security_quotes
              (mkDB (securities db) (list_to_map rows ∪ security_quotes db1))
              !! (Id sec, qBegin q, interval)
            = Some (quotesArgs (Id sec) interval q).2) as Hl.
    { cbn [security_quotes].
      apply lookup_union_Some_l. apply elem_of_list_to_map_1; [done|].
      change (Id sec, qBegin q, interval, (quotesArgs (Id sec) interval q).2)
        with (quotesArgs (Id sec) interval q).
      apply list_elem_of_fmap. by exists q. }
    split; [done|]. by eapply SecurityQuotesExist_Some.
  - intros k Hk Hin. cbn [security_quotes]. apply lookup_union_None. split.
    + apply not_elem_of_list_to_map_1. by rewrite Hkeys.
    + rewrite Hdb1. by destruct (decide _).
  - intros k Hk Hin. cbn [security_quotes].
    rewrite lookup_union_r; [|apply not_elem_of_list_to_map_1; by rewrite Hkeys].
    rewrite Hdb1. by destruct (decide _).
Qed.

(** The theorem at work: the two quotes of January 2022 stored over the
    month; the quote of January 4 is found. *)
Lemma storeSecurityQuotes_stored_witness :
  let from := time.Date 2022 1 1 0 0 0 in
  let till := time.Date 2022 1 31 23 59 59 in
  let db' := (storeSecurityQuotes dbGAZP secTwoQuotes from till IntervalDay).1 in
  QuotesOfInterval secTwoQuotes IntervalDay ≠ []
  ∧ storeSecurityQuotes dbGAZP secTwoQuotes from till IntervalDay = (db', None)
  ∧ SecurityQuotesExist db' secTwoQuotes (time.Date 2022 1 4 0 0 0) IntervalDay
    = (true, None).
Proof.
  intros from till db'.
  assert (QuotesOfInterval secTwoQuotes IntervalDay ≠ []) as Hne by done.
  assert (storeSecurityQuotes dbGAZP secTwoQuotes from till IntervalDay = (db', None))
    as Hstore by (by vm_compute).
  split; [done|]. split; [done|].
  destruct (storeSecurityQuotes_stored dbGAZP db' secTwoQuotes from till IntervalDay
              Hne twoCandles_held Hstore) as (_ & _ & H & _).
  refine (proj2 (H (candleQuotes IntervalDay
                   (mkCandle 342%float 350%float 351%float 341%float
                      (time.Date 2022 1 4 0 0 0) (time.Date 2022 1 4 23 59 59))) _)).
  right. left.
Defined.

(** X15: the DELETE and the INSERT of [UpdateSecurityQuotes] are two
    statements.  When the quotes of the interval that the security holds
    after the fetch include two that begin at the same time, the INSERT
    fails on the primary key after the DELETE has removed the persisted
    quotes of the range: the call returns an error, and the database it
    leaves is the one it was given less those quotes. *)
Theorem UpdateSecurityQuotes_not_atomic (ex : Exchange) (arrival : Scheduler)
    (db : DB) (sec sec' : Security) (dateFrom dateTill : time.Time)
    (interval : QuotesInterval) :
  SecurityExists db (Id sec) (SType sec) = (true, None) →
  GetSecurityQuotes ex arrival sec dateFrom dateTill interval = (sec', None) →
  ¬ NoDup (map qBegin (QuotesOfInterval sec' interval)) →
  ∃ err,
    UpdateSecurityQuotes ex arrival db sec dateFrom dateTill interval
    = (deleteQuotesInRange db (Id sec) dateFrom dateTill interval, sec', Some err).
Proof.
  intros Hreg Hget Hdup. unfold UpdateSecurityQuotes. rewrite Hreg, Hget.
  pose proof (GetSecurityQuotes_keeps ex arrival sec dateFrom dateTill interval)
    as (Hid & _). rewrite Hget in Hid. cbn [fst] in Hid.
  destruct (storeSecurityQuotes_cases db sec' dateFrom dateTill interval)
    as [[Hnil Hs]|[Hne [(err & He & _)|[Hdb' Hins]]]].
  - rewrite Hnil in Hdup. destruct Hdup. constructor.
  - rewrite He, Hid. by exists err.
  - destruct Hins as (Hnd & _). destruct Hdup.
    rewrite <- list_fmap_compose in Hnd.
    apply (NoDup_fmap_1 (λ b : Z, (Id sec', b, interval))).
    by rewrite <- list_fmap_compose.
Qed.

(** The theorem at work: an answer of the exchange that repeats a candle;
    the two persisted quotes of January 2022 are gone. *)
Lemma UpdateSecurityQuotes_not_atomic_witness :
  let from := time.Date 2022 1 1 0 0 0 in
  let till := time.Date 2022 1 31 23 59 59 in
  let sec := GetQuickSecurity "GAZP" Share in
  let sec' := (GetSecurityQuotes exRepeatedCandle fifo sec from till IntervalDay).1 in
  let db' := deleteQuotesInRange dbGAZP "GAZP" from till IntervalDay in
  ¬ NoDup (map qBegin (QuotesOfInterval sec' IntervalDay))
  ∧ (∃ err, UpdateSecurityQuotes exRepeatedCandle fifo dbGAZP sec from till IntervalDay
            = (db', sec', Some err))
  ∧ size (security_quotes dbGAZP) = 2%nat
  ∧ size (security_quotes db') = 0%nat.
Proof.
  intros from till sec sec' db'.
  assert (¬ NoDup (map qBegin (QuotesOfInterval sec' IntervalDay))) as Hdup.
  { intros H. apply (bool_decide_pack _) in H. by vm_compute in H. }
  split; [done|]. split; [|by vm_compute].
  apply (UpdateSecurityQuotes_not_atomic exRepeatedCandle fifo dbGAZP sec sec'
           from till IntervalDay); [by vm_compute|by vm_compute|done].
Defined.

Lemma storeSecurityQuotes_securities (db : DB) (sec : Security)
    (dateFrom dateTill : time.Time) (interval : QuotesInterval) :
  securities (storeSecurityQuotes db sec dateFrom dateTill interval).1 = securities db.
Proof.
  destruct (storeSecurityQuotes_cases db sec dateFrom dateTill interval)
    as [[_ ->]|[_ [(err & -> & _)|[-> _]]]]; done.
Qed.

Lemma storeSecurityQuotes_lookup (db db' : DB) (sec : Security)
    (dateFrom dateTill : time.Time) (interval : QuotesInterval) (q : SecurityQuotes) :
  storeSecurityQuotes db sec dateFrom dateTill interval = (db', None) →
  q ∈ QuotesOfInterval sec interval →
  quotesArgs (Id sec) interval q ∈ selectQuotesOfSecurity db' (Id sec).
Proof.
  intros Hstore Hq. apply selectQuotesOfSecurity_elem. split; [|done].
  destruct (storeSecurityQuotes_cases db sec dateFrom dateTill interval)
    as [[Hnil _]|[_ [(err & He & _)|[Hdb' (Hnd & _)]]]].
  - rewrite Hnil in Hq. by apply elem_of_nil in Hq.
  - congruence.
  - rewrite Hstore in Hdb'. injection Hdb' as ->. cbn [security_quotes].
    apply lookup_union_Some_l. apply elem_of_list_to_map_1; [done|].
    destruct (quotesArgs (Id sec) interval q) as [k v] eqn:Hkv. cbn [fst snd].
    rewrite <- Hkv. apply list_elem_of_fmap. by exists q.
Qed.

(** X16: what [UpdateSecurityQuotes] has stored, [GetSecurityData]
    reads back.  After an update that returned [nil], the quotes of the
    interval that the security then holds having times and prices that the
    columns give back as they were written, loading a security of
    the same id and type from the database it left returns [nil], with
    quotes sorted ascending by begin among which is every quote of the
    interval that the updated security holds: the quote of every candle of
    the exchange's answer. *)
Theorem UpdateSecurityQuotes_then_GetSecurityData (ex : Exchange)
    (arrival arrival' : Scheduler) (db db' : DB) (sec sec' probe : Security)
    (dateFrom dateTill : time.Time) (interval : QuotesInterval) :
  interleaves arrival → interleaves arrival' →
  UpdateSecurityQuotes ex arrival db sec dateFrom dateTill interval = (db', sec', None) →
  Forall (heldByQuotes interval) (QuotesOfInterval sec' interval) →
  Id probe = Id sec → SType probe = SType sec →
  ∃ loaded,
    GetSecurityData arrival' db' probe = (loaded, None)
    ∧ Sorted ascendingBegin (Quotes loaded)
    ∧ (∀ q, q ∈ QuotesOfInterval sec' interval → q ∈ Quotes loaded)
    ∧ (∀ data c, requestCandles ex sec dateFrom dateTill interval = (data, None) →
                 c ∈ data → candleQuotes interval c ∈ Quotes loaded).
Proof.
  intros Harr Harr' Hupd _ Hid Ht. unfold UpdateSecurityQuotes in Hupd.
  destruct (SecurityExists db (Id sec) (SType sec)) as [[|] [e|]] eqn:Hex; try done.
  destruct (GetSecurityQuotes ex arrival sec dateFrom dateTill interval)
    as [sec1 [e|]] eqn:Hget; [done|].
  destruct (storeSecurityQuotes db sec1 dateFrom dateTill interval)
    as [db1 e] eqn:Hstore.
  injection Hupd as -> -> ->.
  pose proof (GetSecurityQuotes_keeps ex arrival sec dateFrom dateTill interval)
    as (Hid' & _). rewrite Hget in Hid'. cbn [fst] in Hid'.
  pose proof (storeSecurityQuotes_securities db sec' dateFrom dateTill interval)
    as Hsec. rewrite Hstore in Hsec. cbn [fst] in Hsec.
  destruct (GetSecurityData_cases arrival' db' probe)
    as [(e & Hwhy & _)|(r & _ & _ & _ & Hload)].
  { exfalso.
    destruct (SecurityExists_cases db (Id sec) (SType sec))
      as [(e' & _ & Hex')|[Hkey [(r & Hr & Hrt & _)|[_ Hex']]]];
      [congruence| |congruence].
    rewrite Hid, Ht, Hsec in Hwhy.
    destruct Hwhy as [?|(_ & Hno & _)]; [congruence|]. by apply (Hno r). }
  eexists. split; [exact Hload|]. cbn [Quotes].
  split; [apply sortSlice_lessBegin_sorted|].
  assert (∀ q, q ∈ QuotesOfInterval sec' interval →
               q ∈ sortSlice lessBegin
                     (Quotes probe
                      ++ arrival' _ (map rowQuotes (selectQuotesOfSecurity db' (Id probe)))))
    as Hall.
  { intros q Hq. rewrite sortSlice_perm. apply elem_of_app. right.
    rewrite (Harr' _ _). rewrite Hid, <- Hid'.
    apply list_elem_of_fmap. exists (quotesArgs (Id sec') interval q). split.
    - symmetry. apply rowQuotes_quotesArgs.
      by apply quotesOfInterval_elem in Hq as [_ Hq].
    - by apply (storeSecurityQuotes_lookup db db' sec' dateFrom dateTill interval). }
  split; [done|].
  intros data c Hreq Hc. apply Hall.
  apply GetSecurityQuotes_appends in Hget as (data' & Hreq' & Hq).
  rewrite Hreq in Hreq'. injection Hreq' as <-.
  apply quotesOfInterval_elem. split; [|done].
  rewrite Hq. apply elem_of_app. right.
  rewrite sortSlice_perm, (Harr _ _). apply list_elem_of_fmap. by exists c.
Qed.

(** The theorem at work: GAZP updated from the exchange with two candles,
    then loaded anew. *)
Lemma UpdateSecurityQuotes_then_GetSecurityData_witness :
  let from := time.Date 2022 1 1 0 0 0 in
  let till := time.Date 2022 1 31 23 59 59 in
  let sec := GetQuickSecurity "GAZP" Share in
  let updated := UpdateSecurityQuotes exTwoCandles lifo dbGAZP sec from till IntervalDay in
  interleaves lifo
  ∧ updated.2 = None
  ∧ ∃ loaded,
      GetSecurityData fifo updated.1.1 (GetQuickSecurity "gazp" Share) = (loaded, None)
      ∧ Forall (λ c, candleQuotes IntervalDay c ∈ Quotes loaded) twoCandles.
Proof.
  intros from till sec updated.
  split; [exact lifo_interleaves|]. split; [by vm_compute|].
  destruct (UpdateSecurityQuotes_then_GetSecurityData exTwoCandles lifo fifo dbGAZP
              updated.1.1 sec updated.1.2 (GetQuickSecurity "gazp" Share)
              from till IntervalDay lifo_interleaves fifo_interleaves)
    as (loaded & Hload & _ & _ & Hall); [by vm_compute| |done|done|].
  { assert (QuotesOfInterval updated.1.2 IntervalDay
            = map (candleQuotes IntervalDay) twoCandles) as -> by (by vm_compute).
    exact twoCandles_held. }
  exists loaded. split; [done|].
  apply Forall_forall. intros c Hc. by apply (Hall twoCandles).
Defined.

(** X17: the second half of [UpdateAllSecuritiesLastQuotes], run again
    with the same securities on the database that a first run left, leaves
    that database; and when the first run returned [nil] so does the
    second, which finds every quote in the table and inserts nothing. *)
Theorem storeLastQuotes_twice (db : DB) (secList : list Security) :
  let once := storeLastQuotes db secList in
  (storeLastQuotes once.1 secList).1 = once.1
  ∧ (once.2 = None → storeLastQuotes once.1 secList = (once.1, None)).
Proof.
  intros once. unfold once.
  destruct (storeLastQuotes_cases db secList)
    as [[Hs Hrows]|[(err & Hs & _)|[Hs Hins]]]; rewrite Hs; cbn [fst snd].
  - by rewrite Hs.
  - by rewrite Hs.
  - set (db' := mkDB _ _).
    assert (newLastQuotes db' secList = []) as Hnone.
    { destruct (newLastQuotes db' secList) as [|row rows] eqn:Hrows; [done|].
      exfalso.
      assert (row ∈ newLastQuotes db' secList) as Hin by (rewrite Hrows; by left).
      apply newLastQuotes_elem in Hin as (s & Hs' & _ & Hno).
      unfold db' in Hno. cbn [security_quotes] in Hno.
      apply lookup_union_None in Hno as [Hnew Hold].
      apply not_elem_of_list_to_map in Hnew. apply Hnew.
      apply list_elem_of_fmap. exists (lastQuotesRow s). split; [done|].
      apply newLastQuotes_elem. by exists s. }
    assert (storeLastQuotes db' secList = (db', None)) as Hsame.
    { destruct (storeLastQuotes_cases db' secList)
        as [[Hs' _]|[(err & _ & Hbad)|[_ _]]]; [done| |].
      - destruct Hbad. rewrite Hnone. repeat split; constructor.
      - unfold storeLastQuotes. rewrite lastQuotesLoop_newLastQuotes.
        by rewrite Hnone. }
    by rewrite Hsame.
Qed.

(** ** The earlier version: AddSecurities *)

Section GoroutinesFacts.
Context {Shared Task : Type}.
Variable step : Shared → Task → Shared * Task.

Lemma runSchedule_invariant (Inv : Shared * list Task → Prop) (schedule : list nat) :
  (∀ i st, Inv st → Inv (stepAt step i st)) →
  ∀ st, Inv st → Inv (runSchedule step schedule st).
Proof.
  intros Hstep. induction schedule as [|i schedule IH]; intros st Hst; [done|].
  apply IH. by apply Hstep.
Qed.

Lemma stepAt_length (i : nat) (st : Shared * list Task) :
  length (stepAt step i st).2 = length st.2.
Proof.
  unfold stepAt. destruct (st.2 !! i) as [t|]; [|done].
  destruct (step st.1 t) as [sh t']. cbn [snd]. apply length_insert.
Qed.

(** Every step of a task brings it nearer to its end by one turn at
    least, unless the run has been halted. *)
Variable turns : Task → nat.
Variable halted : Shared → Prop.
Hypothesis step_turns :
  ∀ sh t, halted (step sh t).1 ∨ (turns (step sh t).2 ≤ turns t - 1)%nat.
Hypothesis halted_stays : ∀ sh t, halted sh → halted (step sh t).1.

Lemma stepAt_halted (i : nat) (st : Shared * list Task) :
  halted st.1 → halted (stepAt step i st).1.
Proof.
  intros Hh. unfold stepAt. destruct (st.2 !! i) as [t|]; [|done].
  pose proof (halted_stays st.1 t Hh) as Hh'.
  by destruct (step st.1 t) as [sh t'].
Qed.

Lemma runSchedule_halted (schedule : list nat) :
  ∀ st, halted st.1 → halted (runSchedule step schedule st).1.
Proof.
  induction schedule as [|j schedule IH]; intros st Hh; [done|].
  apply IH. by apply stepAt_halted.
Qed.

Lemma runSchedule_turns (schedule : list nat) :
  ∀ (st : Shared * list Task) (i : nat) (t : Task),
    st.2 !! i = Some t →
    halted (runSchedule step schedule st).1
    ∨ ∃ t', (runSchedule step schedule st).2 !! i = Some t'
            ∧ (turns t' ≤ turns t - count_occ Nat.eq_dec schedule i)%nat.
Proof.
  induction schedule as [|j schedule IH]; intros st i t Hi.
  - right. exists t. split; [done|]. cbn. lia.
  - cbn [runSchedule foldl]. fold (runSchedule step schedule (stepAt step j st)).
    destruct (decide (j = i)) as [->|Hne].
    + assert (halted (stepAt step i st).1
              ∨ ∃ t1, (stepAt step i st).2 !! i = Some t1
                      ∧ (turns t1 ≤ turns t - 1)%nat) as [Hh|(t1 & Ht1 & Hle)].
      { unfold stepAt. rewrite Hi.
        pose proof (step_turns st.1 t) as Hle.
        destruct (step st.1 t) as [sh t1]. cbn [fst snd] in *.
        destruct Hle as [Hh|Hle]; [by left|]. right.
        exists t1. split; [|done]. apply list_lookup_insert_eq.
        by eapply lookup_lt_Some. }
      { left. by apply runSchedule_halted. }
      destruct (IH _ i t1 Ht1) as [Hh|(t' & Ht' & Hle')]; [by left|]. right.
      exists t'. split; [done|]. rewrite count_occ_cons_eq; [|done]. lia.
    + assert ((stepAt step j st).2 !! i = Some t) as Ht1.
      { unfold stepAt. destruct (st.2 !! j) as [tj|]; [|done].
        destruct (step st.1 tj) as [sh t1]. cbn [snd].
        by rewrite list_lookup_insert_ne. }
      destruct (IH _ i t Ht1) as [Hh|(t' & Ht' & Hle')]; [by left|]. right.
      exists t'. split; [done|]. rewrite count_occ_cons_neq; [|done]. lia.
Qed.

Lemma runSchedule_length (schedule : list nat) (st : Shared * list Task) :
  length (runSchedule step schedule st).2 = length st.2.
Proof.
  apply (runSchedule_invariant (λ st', length st'.2 = length st.2)); [|done].
  intros i st' Hst'. by rewrite stepAt_length.
Qed.

End GoroutinesFacts.

Lemma SecurityExists_earlier_error (db : DB) (id : string) (sType : SecurityType) :
  (SecurityExists_earlier db id sType).2 = checkKey id sType.
Proof. unfold SecurityExists_earlier. by destruct (checkKey id sType). Qed.

Lemma SecurityExists_earlier_cases (db : DB) (id : string) (sType : SecurityType) :
  (∃ err, checkKey id sType = Some err
          ∧ SecurityExists_earlier db id sType = (false, Some err))
  ∨ (checkKey id sType = None
     ∧ ((is_Some (securities db !! id)
         ∧ SecurityExists_earlier db id sType = (true, None))
        ∨ SecurityExists_earlier db id sType = (false, None))).
Proof.
  unfold SecurityExists_earlier.
  destruct (checkKey id sType) as [err|]; [left; by exists err|]. right.
  split; [done|].
  destruct (scanForId (selectIdsOfType db sType) id) eqn:Hscan; [|by right].
  left. split; [|done].
  apply scanForId_elem, selectIdsOfType_elem in Hscan as (r & Hr & _). by exists r.
Qed.

Lemma addStep_turnsLeft (sh : DB * list error) (t : addTask) :
  (turnsLeft (addStep sh t).2 ≤ turnsLeft t - 1)%nat.
Proof.
  destruct t as [s|s|e|]; cbn [addStep turnsLeft].
  - destruct (SecurityExists_earlier sh.1 (Id s) (SType s)) as [[|] [e|]];
      cbn [snd turnsLeft]; lia.
  - destruct (insertSecurities sh.1 [securityArgs s]) as [db' [e|]];
      cbn [snd turnsLeft]; lia.
  - cbn [snd turnsLeft]. lia.
  - cbn [snd turnsLeft]. lia.
Qed.

Lemma AddSecurities_earlier_returns (schedule : list nat) (db : DB)
    (sec : list Security) :
  givesTurns 3 (length sec) schedule →
  ∃ result, AddSecurities_earlier schedule db sec = Some result.
Proof.
  intros Hfair. unfold AddSecurities_earlier.
  set (st0 := ((db, []), map ToCheck sec)).
  assert (forallb isFinished (runSchedule addStep schedule st0).2 = true) as ->;
    [|by eexists].
  apply forallb_forall. intros t Hin.
  apply list_elem_of_In, list_elem_of_lookup in Hin as [i Hi].
  assert (i < length sec)%nat as Hlt.
  { apply lookup_lt_Some in Hi. rewrite runSchedule_length in Hi.
    unfold st0 in Hi. cbn [snd] in Hi. by rewrite length_map in Hi. }
  destruct (lookup_lt_is_Some_2 sec i Hlt) as [s Hs].
  destruct (runSchedule_turns addStep turnsLeft (λ _, False)
              (λ sh t, or_intror (addStep_turnsLeft sh t)) (λ _ _ H, H)
              schedule st0 i (ToCheck s)) as [[]|(t' & Ht' & Hle)].
  { unfold st0. cbn [snd]. by rewrite list_lookup_fmap, Hs. }
  rewrite Hi in Ht'. injection Ht' as <-.
  specialize (Hfair i Hlt). cbn [turnsLeft] in Hle. destruct t; cbn in *; done || lia.
Qed.

Lemma omap_middle {A B : Type} (f : A → option B) (l1 l2 : list A) (x : A) :
  Permutation (omap f (l1 ++ x :: l2))
    (option_list (f x) ++ omap f l1 ++ omap f l2).
Proof.
  rewrite omap_app. cbn [omap list_omap]. destruct (f x) as [y|]; cbn.
  - by rewrite <- Permutation_middle.
  - done.
Qed.

Lemma omap_replaced {A B : Type} (f : A → option B) (l : list A) (i : nat) (x x' : A) :
  l !! i = Some x →
  ∃ rest, Permutation (omap f l) (option_list (f x) ++ rest)
          ∧ Permutation (omap f (<[i := x']> l)) (option_list (f x') ++ rest).
Proof.
  intros Hi. exists (omap f (take i l) ++ omap f (drop (S i) l)). split.
  - rewrite <- (take_drop_middle l i x Hi) at 1. apply omap_middle.
  - rewrite insert_take_drop; [|by eapply lookup_lt_Some]. apply omap_middle.
Qed.

Lemma insertSecurities_one (db : DB) (id : string) (r : securitiesRow) :
  (securities db !! id = None
   ∧ insertSecurities db [(id, r)]
     = (mkDB (<[id := r]> (securities db)) (security_quotes db), None))
  ∨ (is_Some (securities db !! id)
     ∧ ∃ err, insertSecurities db [(id, r)] = (db, Some err)).
Proof.
  unfold insertSecurities.
  destruct (decide (securitiesInsertable db [(id, r)])) as [[_ Hfresh]|Hno].
  - left. apply Forall_cons in Hfresh as [Hfresh _]. split; [done|].
    cbn [list_to_map foldr]. by rewrite insert_empty, <- insert_union_singleton_l.
  - right. split; [|by eexists].
    destruct (securities db !! id) as [r'|] eqn:Hr; [by eexists|].
    destruct Hno. split; [repeat constructor; by intros ?%elem_of_nil|].
    by repeat constructor.
Qed.

Lemma addStep_owed (sec : list Security) (i : nat)
    (st : (DB * list error) * list addTask) :
  (∃ extra, Permutation (st.1.2 ++ omap owed st.2)
              (omap (λ s, checkKey (Id s) (SType s)) sec ++ extra)) →
  ∃ extra, Permutation ((stepAt addStep i st).1.2 ++ omap owed (stepAt addStep i st).2)
             (omap (λ s, checkKey (Id s) (SType s)) sec ++ extra).
Proof.
  intros [extra Hinv]. unfold stepAt.
  destruct (st.2 !! i) as [t|] eqn:Hi; [|by exists extra].
  destruct (addStep st.1 t) as [sh t'] eqn:Hstep. cbn [fst snd].
  destruct (omap_replaced owed st.2 i t t' Hi) as (rest & Hold & Hnew).
  rewrite Hold in Hinv.
  assert (∀ extra',
            Permutation (sh.2 ++ option_list (owed t') ++ rest)
              (omap (λ s, checkKey (Id s) (SType s)) sec ++ extra') →
            ∃ extra, Permutation (sh.2 ++ omap owed (<[i:=t']> st.2))
                       (omap (λ s, checkKey (Id s) (SType s)) sec ++ extra))
    as Hgoal.
  { intros extra' H. exists extra'. by rewrite Hnew. }
  destruct t as [s|s|e|]; cbn [addStep] in Hstep.
  - pose proof (SecurityExists_earlier_error st.1.1 (Id s) (SType s)) as He.
    destruct (SecurityExists_earlier st.1.1 (Id s) (SType s)) as [[|] [e|]];
      cbn [snd] in He; injection Hstep as <- <-; cbn [owed] in *;
      rewrite <- He in Hinv; by apply (Hgoal extra).
  - destruct (insertSecurities st.1.1 [securityArgs s]) as [db' [e|]];
      injection Hstep as <- <-; cbn [owed option_list fst snd app] in *.
    + apply (Hgoal (e :: extra)). cbn [option_list app].
      rewrite <- (Permutation_middle st.1.2 rest e).
      rewrite <- (Permutation_middle _ extra e). by constructor.
    + by apply (Hgoal extra).
  - injection Hstep as <- <-. cbn [owed option_list fst snd app] in *.
    apply (Hgoal extra). rewrite <- Hinv. rewrite <- app_assoc. cbn.
    by rewrite <- (Permutation_middle st.1.2 rest e).
  - injection Hstep as <- <-. by apply (Hgoal extra).
Qed.

Lemma addStep_turnedDown (db : DB) (errs : list error) (i : nat)
    (st : (DB * list error) * list addTask) :
  st.1.1 = db ∧ Forall turnedDown st.2
  ∧ Permutation (st.1.2 ++ omap owed st.2) errs →
  (stepAt addStep i st).1.1 = db ∧ Forall turnedDown (stepAt addStep i st).2
  ∧ Permutation ((stepAt addStep i st).1.2 ++ omap owed (stepAt addStep i st).2) errs.
Proof.
  intros (Hdb & Hall & Hinv). unfold stepAt.
  destruct (st.2 !! i) as [t|] eqn:Hi; [|done].
  destruct (addStep st.1 t) as [sh t'] eqn:Hstep. cbn [fst snd].
  destruct (omap_replaced owed st.2 i t t' Hi) as (rest & Hold & Hnew).
  rewrite Hnew. rewrite Hold in Hinv.
  assert (turnedDown t) as Ht.
  { rewrite Forall_forall in Hall. apply Hall. by eapply list_elem_of_lookup_2. }
  assert (turnedDown t' → Forall turnedDown (<[i:=t']> st.2)) as Hall'.
  { intros Ht'. by apply Forall_insert. }
  destruct t as [s|s|e|]; cbn [addStep turnedDown] in Hstep, Ht; [|done| |].
  - pose proof (SecurityExists_earlier_error st.1.1 (Id s) (SType s)) as He.
    destruct Ht as [e0 Ht]. rewrite Ht in He.
    destruct (SecurityExists_earlier st.1.1 (Id s) (SType s)) as [[|] [e|]];
      cbn [snd] in He; try done; injection He as ->;
      injection Hstep as <- <-; cbn [owed] in *; rewrite Ht in Hinv;
      (split; [done|]); (split; [by apply Hall'|done]).
  - injection Hstep as <- <-. cbn [owed option_list fst snd] in *.
    split; [done|]. split; [by apply Hall'|].
    rewrite <- Hinv. rewrite <- app_assoc. cbn.
    by rewrite <- (Permutation_middle st.1.2 rest e).
  - injection Hstep as <- <-. split; [done|]. split; [by apply Hall'|done].
Qed.

Lemma forallb_isFinished_owed (tasks : list addTask) :
  forallb isFinished tasks = true → omap owed tasks = [].
Proof.
  induction tasks as [|t tasks IH]; [done|]. cbn [forallb].
  intros [Ht Hrest]%andb_prop. destruct t; try done. cbn. by apply IH.
Qed.

Lemma owed_ToCheck (sec : list Security) :
  omap owed (map ToCheck sec) = omap (λ s, checkKey (Id s) (SType s)) sec.
Proof. induction sec as [|s sec IH]; [done|]. cbn. by rewrite IH. Qed.

(** X18: the earlier [AddSecurities], one goroutine per security, under
    every interleaving of the steps of the goroutines that lets all of them
    reach their end.  The error returned contains the message of every
    security whose key [SecurityExists] turns down; and when it turns down
    every key, the database is untouched and the error is those messages,
    all of them and no others, joined by line feeds in the order of their
    arrival. *)
Theorem AddSecurities_earlier_collects_errors (schedule : list nat) (db db' : DB)
    (sec : list Security) (err : option error) :
  AddSecurities_earlier schedule db sec = Some (db', err) →
  (∀ s e, s ∈ sec → checkKey (Id s) (SType s) = Some e →
     ∃ msg, err = Some msg ∧ contains msg e)
  ∧ (∀ errs, map (λ s, checkKey (Id s) (SType s)) sec = map Some errs →
       db' = db
       ∧ ∃ arrived, Permutation arrived errs
                    ∧ err = collectErrors arrived
                    ∧ (sec ≠ [] → err = Some (joinLines arrived))).
Proof.
  unfold AddSecurities_earlier.
  set (st0 := ((db, []), map ToCheck sec)).
  destruct (forallb isFinished (runSchedule addStep schedule st0).2) eqn:Hfin;
    [|done].
  intros [= <- <-]. apply forallb_isFinished_owed in Hfin.
  assert (omap owed st0.2 = omap (λ s, checkKey (Id s) (SType s)) sec) as Howed0.
  { apply owed_ToCheck. }
  split.
  - intros s e Hin He.
    destruct (runSchedule_invariant addStep
                (λ st, ∃ extra, Permutation (st.1.2 ++ omap owed st.2)
                         (omap (λ s, checkKey (Id s) (SType s)) sec ++ extra))
                schedule (addStep_owed sec) st0) as [extra Hperm].
    { exists []. rewrite Howed0. unfold st0. cbn [fst snd]. by rewrite app_nil_r. }
    rewrite Hfin, app_nil_r in Hperm.
    assert (e ∈ (runSchedule addStep schedule st0).1.2) as Hrecv.
    { rewrite Hperm. apply elem_of_app. left. apply list_elem_of_omap. by exists s. }
    rewrite collectErrors_joinLines.
    destruct ((runSchedule addStep schedule st0).1.2) as [|e1 received] eqn:Hr;
      [by apply elem_of_nil in Hrecv|].
    eexists. split; [done|]. by apply joinLines_contains.
  - intros errs Herrs. apply omap_all_Some in Herrs as Hkeys.
    destruct (runSchedule_invariant addStep
                (λ st, st.1.1 = db ∧ Forall turnedDown st.2
                       ∧ Permutation (st.1.2 ++ omap owed st.2) errs)
                schedule (addStep_turnedDown db errs) st0) as (Hdb & _ & Hperm).
    { split; [done|]. split; [|by rewrite Howed0, Hkeys].
      unfold st0. cbn [snd]. apply Forall_forall.
      intros t (s & -> & Hs)%list_elem_of_fmap. cbn.
      assert (checkKey (Id s) (SType s) ∈ map Some errs) as Hin.
      { rewrite <- Herrs. apply list_elem_of_fmap. by exists s. }
      apply list_elem_of_fmap in Hin as (e & -> & _). by eexists. }
    rewrite Hfin, app_nil_r in Hperm. split; [done|].
    exists (runSchedule addStep schedule st0).1.2. split; [done|]. split; [done|].
    intros Hne. rewrite collectErrors_joinLines.
    destruct ((runSchedule addStep schedule st0).1.2) as [|e1 received]; [|done].
    apply Permutation_nil_l in Hperm. rewrite <- Hperm in Herrs.
    destruct sec as [|s sec]; [done|]. discriminate Herrs.
Qed.

(** The theorem at work: the security without id and the one of unknown
    type, the second goroutine stepping first. *)
Lemma AddSecurities_earlier_collects_errors_witness :
  let run := AddSecurities_earlier [1; 0; 1; 0]%nat dbGAZP [secNoId; secNoType] in
  run = Some (dbGAZP,
              Some (joinLines ["security has no type or type is unknown";
                               "security has no id"]))
  ∧ ∃ msg, Some msg = (default (dbGAZP, None) run).2
           ∧ contains msg "security has no id".
Proof.
  intros run.
  assert (run = Some (dbGAZP,
                      Some (joinLines ["security has no type or type is unknown";
                                       "security has no id"]))) as Hrun
    by (by vm_compute).
  split; [done|].
  destruct (AddSecurities_earlier_collects_errors [1; 0; 1; 0]%nat dbGAZP dbGAZP
              [secNoId; secNoType] _ Hrun) as [H _].
  destruct (H secNoId "security has no id") as (msg & Hmsg & Hc);
    [by left|done|].
  exists msg. split; [|done]. rewrite Hrun. cbn. by symmetry.
Defined.

Lemma addTaskDone_mono (sh sh' : DB * list error) (s : Security) (t : addTask) :
  (∀ id, is_Some (securities sh.1 !! id) → is_Some (securities sh'.1 !! id)) →
  (sh.2 ≠ [] → sh'.2 ≠ []) →
  addTaskDone sh s t → addTaskDone sh' s t.
Proof.
  intros Hdb Herrs. destruct t as [s'|s'|e|]; cbn [addTaskDone]; try done.
  - intros H Hk. by apply Hdb, H.
  - intros [H1 H2]. split; [intros Hk; by apply Hdb, H1|]. intros Hk. by apply Herrs, H2.
Qed.

Lemma addStep_registers (db : DB) (sec : list Security) (i : nat)
    (st : (DB * list error) * list addTask) :
  securitiesAdded db sec st.1.1 ∧ Forall2 (addTaskDone st.1) sec st.2 →
  securitiesAdded db sec (stepAt addStep i st).1.1
  ∧ Forall2 (addTaskDone (stepAt addStep i st).1) sec (stepAt addStep i st).2.
Proof.
  intros [Hadded Htasks]. unfold stepAt.
  destruct (st.2 !! i) as [t|] eqn:Hi; [|done].
  destruct (Forall2_lookup_r _ _ _ _ _ Htasks Hi) as (s & Hs & Ht).
  assert (s ∈ sec) as Hin by (by eapply list_elem_of_lookup_2).
  assert (∀ sh' t',
            (∀ id, is_Some (securities st.1.1 !! id) → is_Some (securities sh'.1 !! id)) →
            (st.1.2 ≠ [] → sh'.2 ≠ []) →
            addTaskDone sh' s t' →
            Forall2 (addTaskDone sh') sec (<[i:=t']> st.2)) as Hnext.
  { intros sh' t' Hdb Herrs Ht'. rewrite <- (list_insert_id sec i s Hs).
    apply Forall2_insert; [|done].
    eapply Forall2_impl; [exact Htasks|]. intros s0 t0. by apply addTaskDone_mono. }
  destruct (addStep st.1 t) as [sh t'] eqn:Hstep. cbn [fst snd].
  destruct t as [s'|s'|e|]; cbn [addStep addTaskDone] in Hstep, Ht.
  - subst s'.
    destruct (SecurityExists_earlier_cases st.1.1 (Id s) (SType s))
      as [(e & Hk & Hex)|[Hk [[Hreg Hex]|Hex]]];
      rewrite Hex in Hstep; injection Hstep as <- <-;
      (split; [done|]); apply Hnext; try done; cbn [addTaskDone].
    intros ?. congruence.
  - destruct Ht as [-> Hk].
    destruct (insertSecurities_one st.1.1 (Id s) (securityArgs s).2)
      as [[Hfresh Hins]|[Hreg (e & Hins)]];
      change (Id s, (securityArgs s).2) with (securityArgs s) in Hins;
      rewrite Hins in Hstep; injection Hstep as <- <-; cbn [fst snd].
    + destruct Hadded as (Hq & Hkeep & Hnew). split.
      * split; [done|]. split.
        -- intros id r Hr. cbn [securities].
           rewrite lookup_insert_ne; [by apply Hkeep|].
           intros <-. specialize (Hkeep _ _ Hr). congruence.
        -- intros id r. cbn [securities].
           destruct (decide (id = Id s)) as [->|Hne].
           ++ rewrite lookup_insert_eq. intros [= <-]. right. by exists s.
           ++ rewrite lookup_insert_ne; [|done]. apply Hnew.
      * apply Hnext; cbn [fst snd securities]; try done.
        -- intros id [r Hr]. destruct (decide (id = Id s)) as [->|Hne].
           ++ rewrite lookup_insert_eq. by eexists.
           ++ rewrite lookup_insert_ne; [|done]. by eexists.
        -- cbn [addTaskDone fst securities]. split; [|done]. intros _.
           rewrite lookup_insert_eq. by eexists.
    + split; [done|]. by apply Hnext; cbn [fst snd addTaskDone].
  - injection Hstep as <- <-. cbn [fst snd]. split; [done|].
    apply Hnext; cbn [fst snd addTaskDone]; try done.
    + intros _. by destruct st.1.2.
    + split; [done|]. intros _. by destruct st.1.2.
  - injection Hstep as <- <-. split; [done|]. by apply Hnext.
Qed.

(** X19: the earlier [AddSecurities], for securities whose ids, names and
    types stand for themselves in the text of a statement and fit their
    columns, returns once every goroutine has had three turns; and whenever
    it returns, in whatever order the
    goroutines took their steps: the quotes are untouched, no row of
    [securities] is changed or removed, every new row is the row of a
    security of the list, the id of every security of the list with a good
    key is registered, and [nil] is returned only if every key was good. *)
Theorem AddSecurities_earlier_registers (schedule : list nat) (db : DB)
    (sec : list Security) :
  Forall splicedSecurity sec →
  (givesTurns 3 (length sec) schedule →
   ∃ result, AddSecurities_earlier schedule db sec = Some result)
  ∧ ∀ db' err,
      AddSecurities_earlier schedule db sec = Some (db', err) →
      securitiesAdded db sec db'
      ∧ (∀ s, s ∈ sec → checkKey (Id s) (SType s) = None →
              is_Some (securities db' !! Id s))
      ∧ (err = None → Forall (λ s, checkKey (Id s) (SType s) = None) sec).
Proof.
  intros _. split; [apply AddSecurities_earlier_returns|].
  intros db' err. unfold AddSecurities_earlier.
  set (st0 := ((db, []), map ToCheck sec)).
  destruct (forallb isFinished (runSchedule addStep schedule st0).2) eqn:Hfin;
    [|done].
  intros [= <- <-].
  destruct (runSchedule_invariant addStep
              (λ st, securitiesAdded db sec st.1.1
                     ∧ Forall2 (addTaskDone st.1) sec st.2)
              schedule (addStep_registers db sec) st0) as [Hadded Htasks].
  { split; [by repeat split; try left|]. unfold st0. cbn [fst snd].
    apply Forall2_fmap_r, Forall_Forall2_diag, Forall_forall. by intros s _. }
  split; [done|].
  assert (∀ s, s ∈ sec →
               addTaskDone (runSchedule addStep schedule st0).1 s Finished)
    as Hdone.
  { intros s Hin. apply list_elem_of_lookup in Hin as [i Hs].
    destruct (Forall2_lookup_l _ _ _ _ _ Htasks Hs) as (t & Ht & Hinv).
    assert (isFinished t = true) as Hf.
    { eapply forallb_forall; [exact Hfin|].
      by eapply list_elem_of_In, list_elem_of_lookup_2. }
    by destruct t. }
  split.
  - intros s Hin Hk. by apply (Hdone s Hin).
  - intros Hnone. apply Forall_forall. intros s Hin.
    destruct (Hdone s Hin) as [_ Herr].
    destruct (checkKey (Id s) (SType s)) as [e|] eqn:Hk; [|done].
    rewrite collectErrors_joinLines in Hnone.
    destruct ((runSchedule addStep schedule st0).1.2) as [|e1 received];
      [by destruct Herr|done].
Qed.

(** The theorem at work: LKOH and SBER added to [dbGAZP], the second
    goroutine stepping first. *)
Lemma AddSecurities_earlier_registers_witness :
  let sec := [GetSecurity "LKOH" "Lukoil shares" Share RUB;
              GetSecurity "SBER" "Sberbank shares" Share UnknownCurrency] in
  let run := AddSecurities_earlier [1; 0; 0; 1; 1; 0]%nat dbGAZP sec in
  Forall splicedSecurity sec
  ∧ ∃ db', run = Some (db', None)
           ∧ is_Some (securities db' !! "LKOH") ∧ is_Some (securities db' !! "SBER").
Proof.
  intros sec run.
  assert (Forall splicedSecurity sec) as Hsec.
  { apply Forall_cons. split; [|apply Forall_cons; split; [|by apply Forall_nil]].
    - split; [split; [done|simpl; lia]|]. split; [split; [done|simpl; lia]|].
      split; [split; [done|simpl; lia]|]. by left.
    - split; [split; [done|simpl; lia]|]. split; [split; [done|simpl; lia]|].
      split; [split; [done|simpl; lia]|]. do 4 right. by left. }
  split; [done|].
  destruct (AddSecurities_earlier_registers [1; 0; 0; 1; 1; 0]%nat dbGAZP sec Hsec)
    as [_ Hall].
  destruct run as [[db' [e|]]|] eqn:Hrun;
    [by vm_compute in Hrun| |by vm_compute in Hrun].
  exists db'. split; [done|].
  destruct (Hall db' None Hrun) as (_ & Hreg & _).
  split.
  - apply (Hreg (GetSecurity "LKOH" "Lukoil shares" Share RUB)); [by left|done].
  - apply (Hreg (GetSecurity "SBER" "Sberbank shares" Share UnknownCurrency));
      [by right; left|done].
Defined.

(** ** The earlier version: storing quotes *)

Section StoreQuotes.
Context (replace : bool) (interval : QuotesInterval) (db0 : DB)
  (items : list (Security * SecurityQuotes)).
Hypothesis distinct : NoDup (map (itemRow interval) items).*1.
Hypothesis registered : Forall (λ x, is_Some (securities db0 !! Id x.1)) items.

Let Inv (st : (DB * bool) * list quotesTask) : Prop :=
  st.1.2 = false
  ∧ securities st.1.1 = securities db0
  ∧ (∀ k, k ∉ (map (itemRow interval) items).*1 →
          security_quotes st.1.1 !! k = security_quotes db0 !! k)
  ∧ length st.2 = length items
  ∧ ∀ i x t, items !! i = Some x → st.2 !! i = Some t →
             quotesTaskDone replace interval db0 st.1.1 x t.

Lemma items_key_lookup (i : nat) (x : Security * SecurityQuotes) :
  items !! i = Some x → (map (itemRow interval) items).*1 !! i = Some (itemRow interval x).1.
Proof. intros Hi. by rewrite !list_lookup_fmap, Hi. Qed.

Lemma items_key_distinct (i j : nat) (x y : Security * SecurityQuotes) :
  items !! i = Some x → items !! j = Some y → i ≠ j →
  (itemRow interval x).1 ≠ (itemRow interval y).1.
Proof.
  intros Hi Hj Hne Heq. apply Hne.
  apply (NoDup_lookup _ i j (itemRow interval x).1 distinct).
  - by apply items_key_lookup.
  - rewrite Heq. by apply items_key_lookup.
Qed.

Lemma quotesTaskDone_frame (db db' : DB) (x : Security * SecurityQuotes)
    (t : quotesTask) :
  security_quotes db' !! (itemRow interval x).1
  = security_quotes db !! (itemRow interval x).1 →
  quotesTaskDone replace interval db0 db x t →
  quotesTaskDone replace interval db0 db' x t.
Proof.
  intros Hsame. destruct t as [s q|s q|s q|]; cbn [quotesTaskDone];
    cbn zeta; rewrite ?Hsame; done.
Qed.

Lemma quotesStep_invariant (i : nat) (st : (DB * bool) * list quotesTask) :
  Inv st → Inv (stepAt (quotesStep replace interval) i st).
Proof.
  intros (Halive & Hsec & Hframe & Hlen & Htasks). unfold stepAt.
  destruct (st.2 !! i) as [t|] eqn:Hi; [|done].
  assert (i < length items)%nat as Hlt.
  { rewrite <- Hlen. by eapply lookup_lt_Some. }
  destruct (lookup_lt_is_Some_2 items i Hlt) as [x Hx].
  pose proof (Htasks i x t Hx Hi) as Ht.
  assert (Id x.1 = (itemRow interval x).1.1.1) as Hid by done.
  assert (is_Some (securities st.1.1 !! (itemRow interval x).1.1.1)) as Hreg.
  { rewrite Hsec, <- Hid. rewrite Forall_forall in registered.
    by eapply registered, list_elem_of_lookup_2. }
  (* what is left to show once the new database and the new task are known *)
  assert (∀ db' t',
            securities db' = securities st.1.1 →
            (∀ k, k ≠ (itemRow interval x).1 →
                  security_quotes db' !! k = security_quotes st.1.1 !! k) →
            quotesTaskDone replace interval db0 db' x t' →
            Inv ((db', false), <[i:=t']> st.2)) as Hnext.
  { intros db' t' Hsec' Hothers Ht'. unfold Inv. cbn [fst snd].
    split; [done|]. split; [congruence|]. split; [|split].
    - intros k Hk. rewrite Hothers; [by apply Hframe|].
      intros ->. apply Hk. by eapply list_elem_of_lookup_2, items_key_lookup.
    - by rewrite length_insert.
    - intros j y tj Hy Hj. destruct (decide (j = i)) as [->|Hne].
      + rewrite list_lookup_insert_eq in Hj; [|by eapply lookup_lt_Some].
        injection Hj as <-. rewrite Hx in Hy. by injection Hy as <-.
      + rewrite list_lookup_insert_ne in Hj; [|done].
        apply (quotesTaskDone_frame st.1.1); [|by apply Htasks with j].
        apply Hothers. by apply (items_key_distinct j i). }
  unfold quotesStep. rewrite Halive.
  destruct t as [s q|s q|s q|]; cbn [quotesTaskDone] in Ht; cbn zeta in Ht.
  - destruct Ht as [<- Hsame]. cbn [fst snd].
    unfold SecurityQuotesExist, selectQuotesOfKey.
    change (Id s, qBegin q, interval) with (itemRow interval (s, q)).1.
    destruct (security_quotes st.1.1 !! (itemRow interval (s, q)).1) as [v|] eqn:Hk.
    + destruct replace.
      * replace st.1 with (st.1.1, false)
          by (destruct st as [[? ?] ?]; cbn in *; congruence).
        by apply Hnext.
      * replace st.1 with (st.1.1, false)
          by (destruct st as [[? ?] ?]; cbn in *; congruence).
        apply Hnext; try done. cbn [quotesTaskDone]. cbn zeta.
        unfold quotesStored. rewrite Hk.
        symmetry. apply lookup_union_Some_l. by symmetry.
    + replace st.1 with (st.1.1, false)
        by (destruct st as [[? ?] ?]; cbn in *; congruence).
      by apply Hnext.
  - destruct Ht as [<- Hrep]. cbn [fst snd].
    change (Id s, qBegin q, interval) with (itemRow interval (s, q)).1.
    apply Hnext.
    + done.
    + intros k Hk. cbn [deleteQuotesOfKey security_quotes].
      by rewrite lookup_delete_ne.
    + cbn [quotesTaskDone]. cbn zeta. split; [done|].
      cbn [deleteQuotesOfKey security_quotes]. rewrite lookup_delete_eq.
      split; [done|]. congruence.
  - destruct Ht as (<- & Hnone & Hnew). cbn [fst snd].
    change (quotesArgs (Id s) interval q) with (itemRow interval (s, q)).
    unfold insertQuotes.
    destruct (decide (quotesInsertable st.1.1 [itemRow interval (s, q)]))
      as [Hins|Hno].
    + apply Hnext.
      * done.
      * intros k Hk. cbn [security_quotes]. apply lookup_union_r.
        cbn [list_to_map foldr]. rewrite lookup_insert_ne; [|done].
        apply lookup_empty.
      * cbn [quotesTaskDone security_quotes]. cbn zeta.
        assert ((list_to_map [itemRow interval (s, q)] ∪ security_quotes st.1.1)
                  !! (itemRow interval (s, q)).1
                = Some (itemRow interval (s, q)).2) as ->.
        { apply lookup_union_Some_l. cbn [list_to_map foldr].
          destruct (itemRow interval (s, q)) as [k v]. apply lookup_insert_eq. }
        unfold quotesStored. destruct replace.
        -- symmetry. apply lookup_union_Some_l. cbn [map list_to_map foldr].
           destruct (itemRow interval (s, q)) as [k v]. apply lookup_insert_eq.
        -- symmetry. rewrite lookup_union_r; [|by apply Hnew].
           cbn [map list_to_map foldr].
           destruct (itemRow interval (s, q)) as [k v]. apply lookup_insert_eq.
    + destruct Hno. split; [|split].
      * repeat constructor. by intros ?%elem_of_nil.
      * by repeat constructor.
      * by repeat constructor.
  - replace st.1 with (st.1.1, false) by (destruct st as [[? ?] ?]; cbn in *; congruence).
    by apply Hnext.
Qed.

Lemma storeQuotes_stored (schedule : list nat) (db' : DB) (e : Ending) :
  storeQuotes replace interval schedule db0 items = Some (db', e) →
  e = Returned
  ∧ securities db' = securities db0
  ∧ security_quotes db' = quotesStored replace interval db0 items.
Proof.
  unfold storeQuotes.
  set (st0 := ((db0, false), map (λ x, ToLook x.1 x.2) items)).
  destruct (runSchedule_invariant (quotesStep replace interval) Inv schedule
              quotesStep_invariant st0) as (Halive & Hsec & Hframe & Hlen & Htasks).
  { unfold Inv, st0. cbn [fst snd]. repeat split; try done.
    - by rewrite length_map.
    - intros i x t Hx Ht. rewrite list_lookup_fmap, Hx in Ht. injection Ht as <-.
      cbn [quotesTaskDone]. by destruct x. }
  rewrite Halive.
  destruct (forallb isStored (runSchedule (quotesStep replace interval) schedule st0).2)
    eqn:Hfin; [|done].
  intros [= <- <-]. split; [done|]. split; [done|].
  apply map_eq. intros k.
  destruct (decide (k ∈ (map (itemRow interval) items).*1)) as [Hk|Hk].
  - apply list_elem_of_fmap in Hk as (row & -> & Hrow').
    apply list_elem_of_fmap in Hrow' as (x & -> & Hx).
    apply list_elem_of_lookup in Hx as [i Hx].
    assert (i < length (runSchedule (quotesStep replace interval) schedule st0).2)%nat
      as Hlt by (rewrite Hlen; by eapply lookup_lt_Some).
    destruct (lookup_lt_is_Some_2 _ i Hlt) as [t Ht].
    assert (isStored t = true) as Hst.
    { eapply forallb_forall; [exact Hfin|].
      by eapply list_elem_of_In, list_elem_of_lookup_2. }
    pose proof (Htasks i x t Hx Ht) as Hdone.
    destruct t; try done. cbn [quotesTaskDone] in Hdone. cbn zeta in Hdone.
    rewrite Hdone. unfold quotesStored.
    assert ((list_to_map (map (itemRow interval) items) : gmap quotesKey quotesRow)
              !! (itemRow interval x).1
            = Some (itemRow interval x).2) as Hrow.
    { apply elem_of_list_to_map_1; [done|].
      destruct (itemRow interval x) as [k v] eqn:Hkv. rewrite <- Hkv.
      apply list_elem_of_fmap. exists x. split; [done|].
      by eapply list_elem_of_lookup_2. }
    assert ((list_to_map (map (itemRow interval) [x]) : gmap quotesKey quotesRow)
              !! (itemRow interval x).1
            = Some (itemRow interval x).2) as Hone.
    { cbn [map list_to_map foldr]. destruct (itemRow interval x) as [k v].
      apply lookup_insert_eq. }
    destruct replace.
    + by rewrite (lookup_union_Some_l _ _ _ _ Hrow), (lookup_union_Some_l _ _ _ _ Hone).
    + destruct (security_quotes db0 !! (itemRow interval x).1) as [v0|] eqn:Hold.
      * by rewrite !(lookup_union_Some_l _ _ _ _ Hold).
      * by rewrite !lookup_union_r, Hrow, Hone.
  - rewrite Hframe; [|done]. unfold quotesStored.
    assert ((list_to_map (map (itemRow interval) items) : gmap quotesKey quotesRow)
              !! k = None) as Hnone by (by apply not_elem_of_list_to_map_1).
    destruct replace.
    + by rewrite lookup_union_r.
    + destruct (security_quotes db0 !! k) as [v0|] eqn:Hold.
      * symmetry. by apply lookup_union_Some_l.
      * symmetry. apply lookup_union_None. by split.
Qed.

End StoreQuotes.

Lemma quotesStep_turnsLeft (replace : bool) (interval : QuotesInterval)
    (sh : DB * bool) (t : quotesTask) :
  (quotesStep replace interval sh t).1.2 = true
  ∨ (quotesTurnsLeft (quotesStep replace interval sh t).2 ≤ quotesTurnsLeft t - 1)%nat.
Proof.
  unfold quotesStep. destruct sh.2 eqn:Hd; [by left|].
  destruct t as [s q|s q|s q|]; cbn [quotesTurnsLeft].
  - destruct (SecurityQuotesExist sh.1 s (qBegin q) interval) as [[|] [e|]];
      cbn [fst snd]; try (by left); right; [destruct replace|]; cbn; lia.
  - right. cbn. lia.
  - destruct (insertQuotes sh.1 [quotesArgs (Id s) interval q]) as [db' [e|]];
      cbn [fst snd quotesTurnsLeft]; [by left|right; lia].
  - right. cbn. lia.
Qed.

Lemma quotesStep_died (replace : bool) (interval : QuotesInterval)
    (sh : DB * bool) (t : quotesTask) :
  sh.2 = true → (quotesStep replace interval sh t).1.2 = true.
Proof. intros Hd. unfold quotesStep. by rewrite Hd. Qed.

Lemma storeQuotes_returns (replace : bool) (interval : QuotesInterval)
    (schedule : list nat) (db : DB) (items : list (Security * SecurityQuotes)) :
  givesTurns 3 (length items) schedule →
  ∃ result, storeQuotes replace interval schedule db items = Some result.
Proof.
  intros Hfair. unfold storeQuotes.
  set (st0 := ((db, false), map (λ x, ToLook x.1 x.2) items)).
  destruct (runSchedule (quotesStep replace interval) schedule st0).1.2 eqn:Hd;
    [by eexists|].
  assert (forallb isStored (runSchedule (quotesStep replace interval) schedule st0).2
          = true) as ->; [|by eexists].
  apply forallb_forall. intros t Hin.
  apply list_elem_of_In, list_elem_of_lookup in Hin as [i Hi].
  assert (i < length items)%nat as Hlt.
  { apply lookup_lt_Some in Hi. rewrite runSchedule_length in Hi.
    unfold st0 in Hi. cbn [snd] in Hi. by rewrite length_map in Hi. }
  destruct (lookup_lt_is_Some_2 items i Hlt) as [x Hx].
  destruct (runSchedule_turns (quotesStep replace interval) quotesTurnsLeft
              (λ sh, sh.2 = true) (quotesStep_turnsLeft replace interval)
              (quotesStep_died replace interval)
              schedule st0 i (ToLook x.1 x.2)) as [Hdied|(t' & Ht' & Hle)].
  { unfold st0. cbn [snd]. by rewrite list_lookup_fmap, Hx. }
  { congruence. }
  rewrite Hi in Ht'. injection Ht' as <-.
  specialize (Hfair i Hlt). cbn [quotesTurnsLeft] in Hle.
  destruct t; cbn in *; done || lia.
Qed.

(** X20: the second half of the earlier [UpdateSecurityQuotes], one
    goroutine per quote, for a registered security whose id stands for
    itself in the text of a statement and whose quotes of the interval
    begin at distinct times, with times and prices that the columns give
    back as they were written.  It returns once every goroutine has
    had three turns, and under no interleaving does [log.Fatal] end the
    process; the table it leaves holds the rows of the quotes and, under
    every other key, what it held.  (Unlike the present version it deletes
    no quote of the range that was not fetched again.) *)
Theorem storeSecurityQuotes_earlier_upserts (schedule : list nat) (db : DB)
    (sec : Security) (interval : QuotesInterval) :
  is_Some (securities db !! Id sec) →
  NoDup (map qBegin (QuotesOfInterval sec interval)) →
  plainLiteral (Id sec) = true →
  Forall (heldByQuotes interval) (QuotesOfInterval sec interval) →
  (givesTurns 3 (length (QuotesOfInterval sec interval)) schedule →
   ∃ result, storeSecurityQuotes_earlier schedule db sec interval = Some result)
  ∧ ∀ db' e,
      storeSecurityQuotes_earlier schedule db sec interval = Some (db', e) →
      e = Returned
      ∧ securities db' = securities db
      ∧ security_quotes db'
        = list_to_map (map (quotesArgs (Id sec) interval)
                         (QuotesOfInterval sec interval))
          ∪ security_quotes db.
Proof.
  intros Hreg Hnd _ _. unfold storeSecurityQuotes_earlier. split.
  - intros Hfair. apply storeQuotes_returns. by rewrite length_map.
  - intros db' e Hrun.
    apply storeQuotes_stored in Hrun as (He & Hsec & Hq).
    + split; [done|]. split; [done|]. rewrite Hq. unfold quotesStored.
      by rewrite map_map.
    + rewrite map_map, <- list_fmap_compose.
      assert (Inj eq eq (λ b : Z, (Id sec, b, interval))) as Hinj
        by (by intros b b' [= ->]).
      apply (NoDup_fmap_2 (λ b : Z, (Id sec, b, interval))) in Hnd.
      by rewrite <- list_fmap_compose in Hnd.
    + apply Forall_forall. by intros x (q & -> & _)%list_elem_of_fmap.
Qed.

(** The theorem at work: the two quotes of January 2022 written over
    themselves, the second goroutine stepping first. *)
Lemma storeSecurityQuotes_earlier_upserts_witness :
  let run := storeSecurityQuotes_earlier [1; 0; 0; 1; 1; 0]%nat dbGAZP
               secTwoQuotes IntervalDay in
  is_Some (securities dbGAZP !! Id secTwoQuotes)
  ∧ NoDup (map qBegin (QuotesOfInterval secTwoQuotes IntervalDay))
  ∧ ∃ db', run = Some (db', Returned) ∧ size (security_quotes db') = 2%nat.
Proof.
  intros run.
  assert (is_Some (securities dbGAZP !! Id secTwoQuotes)) as Hreg
    by (vm_compute; by eexists).
  assert (NoDup (map qBegin (QuotesOfInterval secTwoQuotes IntervalDay))) as Hnd.
  { apply (bool_decide_unpack _). by vm_compute. }
  split; [done|]. split; [done|].
  destruct (storeSecurityQuotes_earlier_upserts [1; 0; 0; 1; 1; 0]%nat dbGAZP
              secTwoQuotes IntervalDay Hreg Hnd eq_refl twoCandles_held) as [_ H].
  destruct run as [[db' e]|] eqn:Hrun; [|by vm_compute in Hrun].
  destruct (H db' e Hrun) as (-> & _ & Hq).
  exists db'. split; [done|]. rewrite Hq. by vm_compute.
Defined.

Lemma lastQuotes_stored (db : DB) (secList : list Security) :
  NoDup (map Id secList) →
  security_quotes db
  ∪ list_to_map (map (itemRow IntervalDay)
                   (map (λ s, (s, LastQuotes s IntervalDay)) secList))
  = list_to_map (newLastQuotes db secList) ∪ security_quotes db.
Proof.
  intros Hnd. rewrite map_map.
  change (map (λ s, itemRow IntervalDay (s, LastQuotes s IntervalDay)) secList)
    with (map lastQuotesRow secList).
  assert (NoDup (map lastQuotesRow secList).*1) as Hall.
  { apply (NoDup_fmap_1 (λ k : quotesKey, k.1.1)).
    by rewrite <- !list_fmap_compose. }
  pose proof (newLastQuotes_NoDup db secList Hnd) as Hnew.
  apply map_eq. intros k.
  destruct (security_quotes db !! k) as [v|] eqn:Hold.
  - rewrite (lookup_union_Some_l _ _ _ _ Hold).
    rewrite lookup_union_r; [done|].
    apply not_elem_of_list_to_map_1. intros Hin%newLastQuotes_keys.
    destruct Hin as [Hin _]. congruence.
  - rewrite lookup_union_r; [|done].
    rewrite (lookup_union_l _ _ _ Hold).
    apply option_eq. intros v.
    rewrite <- !elem_of_list_to_map; [|done|done].
    rewrite newLastQuotes_elem. split.
    + intros (s & Hrow & Hs)%list_elem_of_fmap. exists s.
      split; [done|]. split; [done|]. by rewrite <- Hrow.
    + intros (s & Hs & Hrow & _). apply list_elem_of_fmap. by exists s.
Qed.

(** X21: the second half of the earlier
    [UpdateAllSecuritiesLastQuotes], one goroutine per security, for
    registered securities with distinct ids that stand for themselves in
    the text of a statement, the last day quotes of each having times and
    prices that the columns give back as they were written.  It returns once every
    goroutine has had three turns, under no interleaving does [log.Fatal]
    end the process, and the database it leaves is the one that the
    present version leaves, which returns [nil]. *)
Theorem storeLastQuotes_earlier_agrees (schedule : list nat) (db : DB)
    (secList : list Security) :
  NoDup (map Id secList) →
  Forall (λ s, is_Some (securities db !! Id s)) secList →
  Forall (λ s, plainLiteral (Id s) = true
               ∧ heldByQuotes IntervalDay (LastQuotes s IntervalDay)) secList →
  (givesTurns 3 (length secList) schedule →
   ∃ result, storeLastQuotes_earlier schedule db secList = Some result)
  ∧ ∀ db' e,
      storeLastQuotes_earlier schedule db secList = Some (db', e) →
      e = Returned ∧ storeLastQuotes db secList = (db', None).
Proof.
  intros Hnd Hreg _. unfold storeLastQuotes_earlier. split.
  - intros Hfair. apply storeQuotes_returns. by rewrite length_map.
  - intros db' e Hrun.
    apply storeQuotes_stored in Hrun as (He & Hsec & Hq).
    + split; [done|]. unfold quotesStored in Hq.
      rewrite (lastQuotes_stored db secList Hnd) in Hq.
      assert (db' = mkDB (securities db)
                      (list_to_map (newLastQuotes db secList) ∪ security_quotes db))
        as ->.
      { destruct db' as [secs quotes]. cbn in Hsec, Hq. by rewrite Hsec, Hq. }
      destruct (storeLastQuotes_cases db secList)
        as [[-> Hrows]|[(err & _ & Hbad)|[-> _]]]; [| |done].
      * rewrite Hrows. cbn [list_to_map foldr]. rewrite (left_id ∅ (∪)).
        by destruct db.
      * destruct Hbad. split; [by apply newLastQuotes_NoDup|].
        split; apply Forall_forall; intros k Hk;
          apply newLastQuotes_keys in Hk as [Hnone Hid]; [done|].
        rewrite Forall_forall in Hreg.
        apply list_elem_of_In, in_map_iff in Hid as (s & <- & Hs).
        by apply Hreg, list_elem_of_In.
    + rewrite map_map.
      change (map (λ s, itemRow IntervalDay (s, LastQuotes s IntervalDay)) secList)
        with (map lastQuotesRow secList).
      apply (NoDup_fmap_1 (λ k : quotesKey, k.1.1)).
      by rewrite <- !list_fmap_compose.
    + apply Forall_forall. intros x (s & -> & Hs)%list_elem_of_fmap.
      rewrite Forall_forall in Hreg. by apply Hreg.
Qed.

(** The theorem at work: the quote of February 4, 2022 stored for GAZP by
    both versions. *)
Lemma storeLastQuotes_earlier_agrees_witness :
  let fetched := [SetQuotes (GetQuickSecurity "GAZP" Share)
                    (mkQuotes IntervalDay (time.Date 2022 2 4 0 0 0)
                       (time.Date 2022 2 5 0 0 0)
                       320%float 324.5%float 326%float 318%float)] in
  NoDup (map Id fetched)
  ∧ Forall (λ s, is_Some (securities dbGAZP !! Id s)) fetched
  ∧ ∃ db', storeLastQuotes_earlier [0; 0]%nat dbGAZP fetched = Some (db', Returned)
           ∧ storeLastQuotes dbGAZP fetched = (db', None)
           ∧ size (security_quotes db') = 3%nat.
Proof.
  intros fetched.
  assert (NoDup (map Id fetched)) as Hnd.
  { repeat constructor. by intros ?%elem_of_nil. }
  assert (Forall (λ s, is_Some (securities dbGAZP !! Id s)) fetched) as Hreg.
  { repeat constructor. vm_compute. by eexists. }
  assert (Forall (λ s, plainLiteral (Id s) = true
                       ∧ heldByQuotes IntervalDay (LastQuotes s IntervalDay)) fetched)
    as Hheld.
  { apply Forall_cons. split; [|by apply Forall_nil]. split; [done|].
    change (LastQuotes _ IntervalDay)
      with (mkQuotes IntervalDay (time.Date 2022 2 4 0 0 0)
              (time.Date 2022 2 5 0 0 0)
              320%float 324.5%float 326%float 318%float).
    unfold heldByQuotes, heldByDatetime. cbn [qBegin qEnd qOpen qClose qHigh qLow].
    split; [by vm_compute|]. split; [by vm_compute|]. split; [by vm_compute|].
    split; [|split; [|split]].
    - exists 320000000. split; [lia|by vm_compute].
    - exists 324500000. split; [lia|by vm_compute].
    - exists 326000000. split; [lia|by vm_compute].
    - exists 318000000. split; [lia|by vm_compute]. }
  split; [done|]. split; [done|].
  destruct (storeLastQuotes_earlier_agrees [0; 0]%nat dbGAZP fetched Hnd Hreg Hheld)
    as [_ H].
  destruct (storeLastQuotes_earlier [0; 0]%nat dbGAZP fetched) as [[db' e]|] eqn:Hrun;
    [|by vm_compute in Hrun].
  destruct (H db' e eq_refl) as (-> & Hsame).
  exists db'. split; [done|]. split; [done|].
  apply (f_equal fst) in Hsame. cbn [fst] in Hsame. rewrite <- Hsame.
  by vm_compute.
Defined.

(** ** Package main: the ranking *)

(** X23: a security that holds no day quote ending by the midnight that
    follows the first day of the period is ranked with the change 0 and
    the begin price 0, whatever quotes it holds for the end of the
    period. *)
Theorem securityPrices_without_quotes (sec : Security) (dateFrom dateTill : time.Time) :
  (∀ q, q ∈ Quotes sec → qInterval q = IntervalDay →
        time.AddDate (time.Truncate24h dateFrom) 1 < qEnd q) →
  let prices := securityPrices sec dateFrom dateTill in
  sp_id prices = Id sec
  ∧ priceBegin prices = 0%float
  ∧ change prices = 0%float.
Proof.
  intros Hnone prices.
  assert (QuotesForDate sec IntervalDay (time.AddDate (time.Truncate24h dateFrom) 1)
          = zeroQuotes) as Hzero.
  { destruct (quotesForDate_fold IntervalDay
                (time.AddDate (time.Truncate24h dateFrom) 1) (Quotes sec) zeroQuotes)
      as (_ & _ & [[Hr _]|[Hin [Hi Hd]]]); [done|].
    specialize (Hnone _ Hin Hi). unfold QuotesForDate in *. lia. }
  unfold prices, securityPrices. cbn [sp_id priceBegin change]. rewrite Hzero.
  by repeat split.
Qed.

(** The theorem at work: GAZP without any quote, ranked for January
    2022. *)
Lemma securityPrices_without_quotes_witness :
  let prices := securityPrices (GetQuickSecurity "GAZP" Share)
                  (time.Date 2022 1 3 0 0 0) (time.Date 2022 1 31 23 59 59) in
  change prices = 0%float ∧ priceEnd prices = 0%float.
Proof.
  intros prices. split; [|by vm_compute].
  apply (securityPrices_without_quotes (GetQuickSecurity "GAZP" Share)
           (time.Date 2022 1 3 0 0 0) (time.Date 2022 1 31 23 59 59)).
  by intros q ?%elem_of_nil.
Defined.

(** ** Package main: the result file *)

Lemma beforeDot_app (a b : string) :
  beforeDot a = a → beforeDot (a +:+ b) = a +:+ beforeDot b.
Proof.
  induction a as [|c a IH]; [done|].
  rewrite !string_app_cons. cbn [beforeDot].
  destruct (Ascii.eqb c "."); [done|]. intros [= Ha]. by rewrite IH.
Qed.

Lemma beforeDot_idemp (s : string) : beforeDot (beforeDot s) = beforeDot s.
Proof.
  induction s as [|c s IH]; [done|]. cbn [beforeDot].
  destruct (Ascii.eqb c ".") eqn:Hc; [done|]. cbn [beforeDot].
  by rewrite Hc, IH.
Qed.

Lemma beforeDot_prefix (s : string) : ∃ rest, s = beforeDot s +:+ rest.
Proof.
  induction s as [|c s [rest IH]]; [by exists ""|]. cbn [beforeDot].
  destruct (Ascii.eqb c "."); [by eexists|].
  exists rest. rewrite string_app_cons. by rewrite <- IH.
Qed.

(** X22: the file that [securityListHandler] writes the ranking to
    never has the name of the file it reads the list from.  Its name is the
    part of the file name before the first dot, followed by "_result.txt":
    for a name without a dot the name followed by "_result.txt", and for a
    name that starts with a dot "_result.txt". *)
Theorem resultFileName_fresh (fileName : string) :
  resultFileName fileName ≠ fileName
  ∧ (∃ rest, fileName = beforeDot fileName +:+ rest)
  ∧ beforeDot (resultFileName fileName) = beforeDot fileName +:+ "_result"
  ∧ (beforeDot fileName = fileName →
     resultFileName fileName = fileName +:+ "_result.txt")
  ∧ resultFileName ("." +:+ fileName) = "_result.txt".
Proof.
  split; [|split; [apply beforeDot_prefix|split; [|split; [|done]]]].
  - intros Heq. unfold resultFileName in Heq. apply (f_equal beforeDot) in Heq.
    rewrite beforeDot_app in Heq; [|apply beforeDot_idemp].
    apply (f_equal String.length) in Heq. rewrite string_app_length in Heq.
    cbn in Heq. lia.
  - unfold resultFileName. rewrite beforeDot_app; [done|apply beforeDot_idemp].
  - unfold resultFileName. by intros ->.
Qed.

(** ** Package main: adding and deleting a security *)

Lemma ToUpper_nonempty (s : string) : s ≠ "" → ToUpper s ≠ "".
Proof. by destruct s. Qed.

Lemma GetSecurityTypeFromString_known (name : string) :
  GetSecurityTypeFromString name ≠ UnknownType →
  GetSecurityTypeFromString name ∈ knownTypes.
Proof.
  unfold GetSecurityTypeFromString, knownTypes.
  repeat (destruct (String.eqb _ _)); intros H; try done;
    apply list_elem_of_In; simpl; tauto.
Qed.

Lemma GetSecurityCurrencyFromString_known (name : string) :
  GetSecurityCurrencyFromString name ≠ UnknownCurrency →
  GetSecurityCurrencyFromString name ∈ [RUB; USD; EUR; CNY].
Proof.
  unfold GetSecurityCurrencyFromString.
  repeat (destruct (String.eqb _ _)); intros H; try done;
    apply list_elem_of_In; simpl; tauto.
Qed.

Lemma checkKey_known (id : string) (sType : SecurityType) :
  id ≠ "" → sType ∈ knownTypes → checkKey (ToUpper id) sType = None.
Proof.
  intros Hid Ht. unfold checkKey.
  apply ToUpper_nonempty, String.eqb_neq in Hid. rewrite Hid.
  unfold knownTypes in Ht.
  repeat (apply elem_of_cons in Ht as [->|Ht]; [done|]).
  by apply elem_of_nil in Ht.
Qed.

(** X25: let the values of the query be ASCII strings, id and name
    fitting their columns.  [addSecurityHandler] answers with status 200
    only to a query with an id, a name, a known type and a known currency.
    Then an id
    that was not registered is registered, in capitals, with the name, the
    type and the currency of the query; for an id that is registered with
    that type nothing is changed, neither the name nor the currency, and
    the answer is 200 all the same.  Every other answer leaves the
    database as it was, and such a query gets another answer only for an
    id that is registered with another type. *)
Theorem addSecurityHandler_registers (db : DB) (id name typeName currencyName : string) :
  fitsColumn 20 id → fitsColumn 150 name →
  isASCII typeName = true → isASCII currencyName = true →
  let sType := GetSecurityTypeFromString typeName in
  let cur := GetSecurityCurrencyFromString currencyName in
  let db' := (addSecurityHandler db id name typeName currencyName).1 in
  let answer := (addSecurityHandler db id name typeName currencyName).2 in
  (answer = StatusOK →
   id ≠ "" ∧ name ≠ "" ∧ sType ∈ knownTypes ∧ cur ∈ [RUB; USD; EUR; CNY]
   ∧ match securities db !! ToUpper id with
     | None =>
         db' = mkDB (<[ToUpper id := mkSecuritiesRow name sType cur]> (securities db))
                 (security_quotes db)
     | Some r => col_type r = sType ∧ db' = db
     end)
  ∧ (answer ≠ StatusOK → db' = db)
  ∧ (id ≠ "" → name ≠ "" → sType ∈ knownTypes → cur ∈ [RUB; USD; EUR; CNY] →
     match securities db !! ToUpper id with
     | Some r => col_type r = sType → answer = StatusOK
     | None => answer = StatusOK
     end).
Proof.
  intros _ _ _ _ sType cur db' answer.
  unfold db', answer, addSecurityHandler. fold sType cur.
  destruct (String.eqb id "") eqn:Hid.
  { cbn [orb fst snd]. split; [done|]. split; [done|].
    intros Hne. by apply String.eqb_eq in Hid. }
  destruct (String.eqb name "") eqn:Hname.
  { cbn [orb fst snd]. split; [done|]. split; [done|].
    intros _ Hne. by apply String.eqb_eq in Hname. }
  destruct (String.eqb typeName "") eqn:Htn.
  { cbn [orb fst snd]. split; [done|]. split; [done|].
    intros _ _ Ht _. apply String.eqb_eq in Htn. subst typeName.
    by vm_compute in Ht; repeat (apply elem_of_cons in Ht as [Ht|Ht]; [done|]);
       apply elem_of_nil in Ht. }
  destruct (String.eqb currencyName "") eqn:Hcn.
  { cbn [orb fst snd]. split; [done|]. split; [done|].
    intros _ _ _ Hc. apply String.eqb_eq in Hcn. subst currencyName.
    by vm_compute in Hc; repeat (apply elem_of_cons in Hc as [Hc|Hc]; [done|]);
       apply elem_of_nil in Hc. }
  cbn [orb].
  apply String.eqb_neq in Hid, Hname.
  destruct (String.eqb sType UnknownType) eqn:Ht.
  { cbn [fst snd]. split; [done|]. split; [done|].
    intros _ _ Hk _. apply String.eqb_eq in Ht. rewrite Ht in Hk.
    unfold knownTypes in Hk.
    repeat (apply elem_of_cons in Hk as [Hk|Hk]; [done|]).
    by apply elem_of_nil in Hk. }
  destruct (String.eqb cur UnknownCurrency) eqn:Hc.
  { cbn [fst snd]. split; [done|]. split; [done|].
    intros _ _ _ Hk. apply String.eqb_eq in Hc. rewrite Hc in Hk.
    repeat (apply elem_of_cons in Hk as [Hk|Hk]; [done|]).
    by apply elem_of_nil in Hk. }
  apply String.eqb_neq in Ht, Hc.
  assert (sType ∈ knownTypes) as Hknown
    by by apply GetSecurityTypeFromString_known.
  assert (cur ∈ [RUB; USD; EUR; CNY]) as Hcur
    by by apply GetSecurityCurrencyFromString_known.
  set (sec := GetSecurity id name sType cur).
  assert (checkKey (Id sec) (SType sec) = None) as Hkey
    by by apply checkKey_known.
  assert (securityArgs sec = (ToUpper id, mkSecuritiesRow name sType cur)) as Hargs.
  { unfold securityArgs, sec, GetSecurity. cbn [Id Name SType SecCurrency].
    apply String.eqb_neq in Hc. by rewrite Hc. }
  unfold AddSecurity.
  destruct (AddSecurities_cases db [sec])
    as [(e & He & Hwhy)|[_ [[He Hrows]|[He Hins]]]]; rewrite He; cbn [fst snd].
  - split; [done|]. split; [done|]. intros _ _ _ _.
    destruct Hwhy as [Hno|Hno].
    { destruct Hno. by repeat constructor. }
    destruct (securities db !! ToUpper id) as [r|] eqn:Hr.
    + intros Hrt. destruct Hno. cbn [newSecurities].
      destruct (SecurityExists_cases db (Id sec) (SType sec))
        as [(e' & He' & _)|[_ [(r' & Hr' & Ht' & ->)|[Hne _]]]]; [congruence| |].
      * split; [constructor|constructor].
      * by destruct (Hne r Hr).
    + destruct Hno. cbn [newSecurities].
      destruct (SecurityExists_cases db (Id sec) (SType sec))
        as [(e' & He' & _)|[_ [(r' & Hr' & _)|[_ ->]]]]; [congruence| |].
      { change (Id sec) with (ToUpper id) in Hr'. congruence. }
      rewrite Hargs. split.
      * cbn. apply NoDup_singleton.
      * by apply Forall_singleton.
  - split; [|split; [done|]].
    + intros _. repeat (split; [done|]).
      cbn [newSecurities] in Hrows.
      destruct (SecurityExists_cases db (Id sec) (SType sec))
        as [(e' & He' & _)|[_ [(r' & Hr' & Ht' & Hex)|[Hne Hex]]]]; [congruence| |].
      * change (Id sec) with (ToUpper id) in Hr'. by rewrite Hr'.
      * by rewrite Hex in Hrows.
    + intros _ _ _ _. by destruct (securities db !! ToUpper id).
  - split; [|split; [done|]].
    + intros _. repeat (split; [done|]).
      destruct Hins as [_ Hfresh]. cbn [newSecurities] in *.
      destruct (SecurityExists_cases db (Id sec) (SType sec))
        as [(e' & He' & _)|[_ [(r' & Hr' & Ht' & Hex)|[Hne Hex]]]]; [congruence| |];
        rewrite Hex in *.
      * change (Id sec) with (ToUpper id) in Hr'. rewrite Hr'. split; [done|].
        cbn [list_to_map foldr]. rewrite (left_id_L ∅ (∪)). by destruct db.
      * rewrite Hargs in *. cbn [fmap list_fmap fst] in Hfresh.
        apply Forall_cons in Hfresh as [Hfresh _].
        rewrite Hfresh. f_equal.
        cbn [list_to_map foldr]. by rewrite insert_empty, <- insert_union_singleton_l.
    + intros _ _ _ _. by destruct (securities db !! ToUpper id).
Qed.

(** The theorem at work: LKOH, named in small letters, added to
    [dbGAZP]. *)
Lemma addSecurityHandler_registers_witness :
  let run := addSecurityHandler dbGAZP "lkoh" "Lukoil shares" "Share" "rub" in
  run.2 = StatusOK
  ∧ securities run.1 !! "LKOH" = Some (mkSecuritiesRow "Lukoil shares" Share RUB).
Proof.
  intros run.
  assert (run.2 = StatusOK) as Hok by (by vm_compute).
  split; [done|].
  destruct (addSecurityHandler_registers dbGAZP "lkoh" "Lukoil shares" "Share" "rub")
    as (Hdone & _ & _).
  - split; [done|simpl; lia].
  - split; [done|simpl; lia].
  - done.
  - done.
  - destruct (Hdone Hok) as (_ & _ & _ & _ & Hdb).
    change (securities dbGAZP !! ToUpper "lkoh") with (@None securitiesRow) in Hdb.
    unfold run. rewrite Hdb. cbn [securities]. apply lookup_insert_eq.
Defined.

(** X26: let the values of the query be ASCII strings.
    [deleteSecurityHandler] redirects to [/securities] exactly when the
    query has an id and a known type, whether such a security is
    registered or not; every other answer leaves the database as it was.
    After the redirect [SecurityExists] does not find the security: when
    it was registered with that type, its row and all its quotes are gone
    and the quotes of the others are untouched; when it was not, nothing
    is changed. *)
Theorem deleteSecurityHandler_answers (db : DB) (id typeString : string) :
  isASCII id = true → isASCII typeString = true →
  let sType := GetSecurityTypeFromString typeString in
  let db' := (deleteSecurityHandler db id typeString).1 in
  let answer := (deleteSecurityHandler db id typeString).2 in
  (answer = StatusPermanentRedirect "/securities" ↔ id ≠ "" ∧ sType ∈ knownTypes)
  ∧ (answer ≠ StatusPermanentRedirect "/securities" → db' = db)
  ∧ (answer = StatusPermanentRedirect "/securities" →
     SecurityExists db' (ToUpper id) sType = (false, None)
     ∧ (∀ r, securities db !! ToUpper id = Some r → col_type r = sType →
             securities db' = delete (ToUpper id) (securities db)
             ∧ selectQuotesOfSecurity db' (ToUpper id) = []
             ∧ (∀ k, k.1.1 ≠ ToUpper id →
                     security_quotes db' !! k = security_quotes db !! k))
     ∧ ((∀ r, securities db !! ToUpper id = Some r → col_type r ≠ sType) →
        db' = db)).
Proof.
  intros _ _ sType db' answer.
  unfold db', answer, deleteSecurityHandler. fold sType.
  destruct (String.eqb id "") eqn:Hid.
  { cbn [orb fst snd]. apply String.eqb_eq in Hid.
    split; [split; [done|by intros [? _]]|]. by split. }
  destruct (String.eqb typeString "") eqn:Hts.
  { cbn [orb fst snd]. apply String.eqb_eq in Hts. subst typeString.
    split; [split; [done|]|by split].
    intros [_ Hk]. vm_compute in Hk.
    repeat (apply elem_of_cons in Hk as [Hk|Hk]; [done|]).
    by apply elem_of_nil in Hk. }
  cbn [orb]. apply String.eqb_neq in Hid.
  destruct (String.eqb sType UnknownType) eqn:Ht.
  { cbn [fst snd]. apply String.eqb_eq in Ht.
    split; [split; [done|]|by split].
    intros [_ Hk]. rewrite Ht in Hk. unfold knownTypes in Hk.
    repeat (apply elem_of_cons in Hk as [Hk|Hk]; [done|]).
    by apply elem_of_nil in Hk. }
  apply String.eqb_neq in Ht.
  assert (sType ∈ knownTypes) as Hknown
    by by apply GetSecurityTypeFromString_known.
  set (sec := GetQuickSecurity id sType).
  assert (checkKey (Id sec) (SType sec) = None) as Hkey
    by by apply checkKey_known.
  change (ToUpper id) with (Id sec).
  unfold DeleteSecurity.
  destruct (SecurityExists_cases db (Id sec) (SType sec))
    as [(e & He & _)|[_ [(r & Hr & Hrt & ->)|[Hne Hex]]]]; [congruence| |].
  - unfold deleteSecurityRow. rewrite deleteQuotesOfSecurity_select.
    cbn [fst snd securities security_quotes].
    split; [done|]. split; [done|]. intros _. split; [|split].
    + unfold SecurityExists, selectIdOfIdAndType.
      change (SType sec) with sType in Hkey. rewrite Hkey.
      cbn [securities]. by rewrite lookup_delete_eq.
    + intros _ _ _. split; [done|]. split.
      * apply selectQuotesOfSecurity_nil. intros k v Hk.
        by apply map_lookup_filter_Some in Hk as [_ Hk].
      * intros k Hk. destruct (security_quotes db !! k) as [v|] eqn:Hv.
        -- by apply map_lookup_filter_Some.
        -- apply map_lookup_filter_None_2. by left.
    + intros Hno. by destruct (Hno r Hr).
  - rewrite Hex. cbn [fst snd].
    split; [done|]. split; [done|]. intros _. split; [done|]. split; [|done].
    intros r Hr Hrt. by destruct (Hne r Hr).
Qed.

(** The theorem at work: GAZP, named in small letters, deleted from
    [dbGAZP] with its two quotes. *)
Lemma deleteSecurityHandler_answers_witness :
  let run := deleteSecurityHandler dbGAZP "gazp" "share" in
  run.2 = StatusPermanentRedirect "/securities"
  ∧ SecurityExists run.1 "GAZP" Share = (false, None)
  ∧ selectQuotesOfSecurity run.1 "GAZP" = [].
Proof.
  intros run.
  assert (run.2 = StatusPermanentRedirect "/securities") as Hok by (by vm_compute).
  split; [done|].
  destruct (deleteSecurityHandler_answers dbGAZP "gazp" "share" eq_refl eq_refl)
    as (_ & _ & Hdone).
  destruct (Hdone Hok) as (Hgone & Hrow & _).
  split; [done|].
  by destruct (Hrow (mkSecuritiesRow "Gazprom shares" "share" "RUB"))
    as (_ & Hnone & _); [by vm_compute|done|].
Defined.
